(** * Diffusion kernel density estimation ([kde.py]): model and properties

    The estimator [kde] histograms the samples, takes an orthonormal cosine
    transform, solves the fixed-point equation of Botev, Grotowski and Kroese
    for the diffusion time with a bracketing root finder, and rebuilds the
    density from the attenuated spectrum.

    Conventions of the model.
    - Finite floating-point values are real numbers and finite arithmetic is
      exact: rounding and overflow are not modelled.  The special values that
      numpy produces instead of raising (a division by zero gives an
      infinity, an undefined operation gives a nan) are kept, because the
      behaviour of [kde] on degenerate inputs depends on them.  Zero carries
      no sign; it behaves as [+0.0].
    - Python exceptions are values of [py_exn]; a computation that may raise
      returns a [result].
    - The grid size is a natural number after the coercion of line 22.
    - The library routines of numpy and scipy that [kde] calls are modelled
      from their documentation.
    - The test distributions of [dgp_class.py] are records of their two
      tables; the list that [StronglySkewed] shares with its base class is
      passed to the methods that read it.  Random sampling is not
      modelled. *)

From Stdlib Require Import Reals Lra Lia List Arith ZArith String Bool.
From Stdlib Require Import Ranalysis5 ClassicalEpsilon Permutation.
Import ListNotations.
Open Scope R_scope.

(** ** Floating-point values as numpy sees them *)

Module NP.

Inductive float : Type :=
| Fin (r : R)
| PInf
| NInf
| NaN.

(** Three-way case distinction on the sign of a real. *)
Definition by_sign {A : Type} (r : R) (neg zero pos : A) : A :=
  if Rlt_dec r 0 then neg else if Rlt_dec 0 r then pos else zero.

Definition fneg (x : float) : float :=
  match x with
  | Fin r => Fin (- r)
  | PInf => NInf
  | NInf => PInf
  | NaN => NaN
  end.

Definition fadd (x y : float) : float :=
  match x, y with
  | Fin a, Fin b => Fin (a + b)
  | NaN, _ | _, NaN => NaN
  | PInf, NInf | NInf, PInf => NaN
  | PInf, _ | _, PInf => PInf
  | NInf, _ | _, NInf => NInf
  end.

Definition fsub (x y : float) : float := fadd x (fneg y).

Definition fmul (x y : float) : float :=
  match x, y with
  | Fin a, Fin b => Fin (a * b)
  | NaN, _ | _, NaN => NaN
  | Fin a, PInf | PInf, Fin a => by_sign a NInf NaN PInf
  | Fin a, NInf | NInf, Fin a => by_sign a PInf NaN NInf
  | PInf, PInf | NInf, NInf => PInf
  | PInf, NInf | NInf, PInf => NInf
  end.

(** Division never raises for numpy scalars and arrays: a finite nonzero
    value over zero is an infinity, zero over zero is a nan. *)
Definition fdiv (x y : float) : float :=
  match x, y with
  | Fin a, Fin b =>
      if Req_dec_T b 0 then by_sign a NInf NaN PInf else Fin (a / b)
  | NaN, _ | _, NaN => NaN
  | Fin _, PInf | Fin _, NInf => Fin 0
  | PInf, Fin b => if Rlt_dec b 0 then NInf else PInf
  | NInf, Fin b => if Rlt_dec b 0 then PInf else NInf
  | PInf, PInf | PInf, NInf | NInf, PInf | NInf, NInf => NaN
  end.

Definition fexp (x : float) : float :=
  match x with
  | Fin r => Fin (exp r)
  | PInf => PInf
  | NInf => Fin 0
  | NaN => NaN
  end.

(** [x ** n] for an integer exponent [n >= 0]. *)
Fixpoint fpown (x : float) (n : nat) : float :=
  match n with
  | O => Fin 1
  | S n' => fmul x (fpown x n')
  end.

(** [x ** y] for a float exponent.  The exponents of [kde.py] are the
    non-integers [2/(3+2s)], [-2/5] and [s + 1/2], for which a negative
    finite base gives a nan. *)
Definition fpow (x : float) (y : R) : float :=
  match x with
  | Fin r =>
      if Rlt_dec 0 r then Fin (Rpower r y)
      else if Rlt_dec r 0 then NaN
      else by_sign y PInf (Fin 1) (Fin 0)
  | PInf | NInf => by_sign y (Fin 0) (Fin 1) PInf
  | NaN => by_sign y NaN (Fin 1) NaN
  end.

(** [np.sum] of an array. *)
Definition sum (l : list float) : float := fold_right fadd (Fin 0) l.

(** The test [x > 0], false for a nan as every comparison with a nan is. *)
Definition positive (x : float) : Prop :=
  match x with
  | Fin r => 0 < r
  | PInf => True
  | NInf | NaN => False
  end.

Definition positive_dec (x : float) : {positive x} + {~ positive x}.
Proof.
  destruct x as [r | | |]; simpl.
  - apply Rlt_dec.
  - left; exact Logic.I.
  - right; intros [].
  - right; intros [].
Defined.

(** The test [x == 0]. *)
Definition is_zero (x : float) : Prop := x = Fin 0.

Definition is_zero_dec (x : float) : {is_zero x} + {~ is_zero x}.
Proof.
  unfold is_zero; destruct x as [r | | |];
    try (right; discriminate).
  destruct (Req_dec_T r 0) as [e | n].
  - left; rewrite e; reflexivity.
  - right; intros H; apply n; injection H; trivial.
Defined.

Definition finite (x : float) : Prop :=
  match x with Fin _ => True | _ => False end.

End NP.

Import NP.

(** ** Python exceptions *)

Inductive py_exn : Type :=
| ValueError (msg : string)
| RuntimeError (msg : string).

(** The exception class, which is what an [except] clause of a caller can
    select on. *)
Inductive py_class : Type := ValueErrorClass | RuntimeErrorClass.

Definition exn_class (e : py_exn) : py_class :=
  match e with
  | ValueError _ => ValueErrorClass
  | RuntimeError _ => RuntimeErrorClass
  end.

Inductive result (A : Type) : Type :=
| Ok (a : A)
| Raise (e : py_exn).

Arguments Ok {A} a.
Arguments Raise {A} e.

Definition bind {A B : Type} (m : result A) (k : A -> result B) : result B :=
  match m with
  | Ok a => k a
  | Raise e => Raise e
  end.

Notation "x <- m ;; k" := (bind m (fun x => k))
  (at level 61, m at next level, right associativity).
Notation "' p <- m ;; k" := (bind m (fun x => let p := x in k))
  (at level 61, p pattern, m at next level, right associativity).

(** ** Helpers on lists *)

(** Elementwise combination of two arrays of equal length. *)
Fixpoint map2 {A B C : Type} (f : A -> B -> C) (l : list A) (l' : list B)
  : list C :=
  match l, l' with
  | a :: t, b :: t' => f a b :: map2 f t t'
  | _, _ => []
  end.

Definition Rleb (x y : R) : bool := if Rle_dec x y then true else false.
Definition Rltb (x y : R) : bool := if Rlt_dec x y then true else false.

Definition count (p : R -> bool) (l : list R) : nat :=
  List.length (filter p l).

Definition Rsum (l : list R) : R := fold_right Rplus 0 l.

(** ** The numpy routines used by [kde] *)

Definition np_log2 (x : R) : R := ln x / ln 2.

Definition np_ceil (x : R) : Z := Zceil x.

(** [np.min] and [np.max]; both raise on an empty array. *)
Definition np_min (a : list R) : result R :=
  match a with
  | [] => Raise (ValueError
      "zero-size array to reduction operation minimum which has no identity")
  | x :: t => Ok (fold_left Rmin t x)
  end.

Definition np_max (a : list R) : result R :=
  match a with
  | [] => Raise (ValueError
      "zero-size array to reduction operation maximum which has no identity")
  | x :: t => Ok (fold_left Rmax t x)
  end.

(** [np.linspace(start, stop, num)]: [num] points, [num - 1] equal steps. *)
Definition linspace (start stop : R) (num : nat) : list R :=
  let step := (stop - start) / INR (num - 1) in
  map (fun i => start + INR i * step) (seq 0 num).

(** Membership in bin [i] of [bins] equal-width bins with the given edges:
    half-open on the right, except the last bin, which is closed. *)
Definition in_bin (edges : list R) (bins i : nat) (x : R) : bool :=
  Rleb (nth i edges 0) x &&
  (if Nat.eqb (S i) bins then Rleb x (nth (S i) edges 0)
   else Rltb x (nth (S i) edges 0)).

(** Modelled from the spec: [np.histogram(a, bins, range)] is a routine of
    numpy, described in section 4.1 (entry [i] counts the samples of bin
    [i], samples outside the range are left out, the call fails for a
    non-positive bin count or a reversed range) and completed from numpy's
    documentation: all bins but the last are half-open, and an empty range
    [mn = mx] is widened by one half on each side.  It returns the counts
    and the [bins + 1] edges.  (The numpy releases of 2013 raised an
    [AttributeError] for a reversed range; no property below depends on the
    class of that error.) *)
Definition np_histogram (a : list R) (bins : nat) (range : R * R)
  : result (list nat * list R) :=
  let (mn, mx) := range in
  if Rlt_dec mx mn then
    Raise (ValueError "max must be larger than min in range parameter.")
  else if Nat.ltb bins 1 then
    Raise (ValueError "bins should be a positive integer.")
  else
    let (mn, mx) :=
      if Req_dec_T mn mx then (mn - 1 / 2, mx + 1 / 2) else (mn, mx) in
    let edges := linspace mn mx (bins + 1) in
    Ok (map (fun i => count (in_bin edges bins i) a) (seq 0 bins), edges).

(** ** The scipy routines used by [kde] *)

(** Modelled from the spec: the orthonormal cosine transform pair of section
    4.2 is [scipy.fftpack.dct] and [idct] with [norm='ortho'], that is the
    DCT-II [y[k] = c(k) * sum_n x[n] cos(pi k (2n+1) / (2N))] with
    [c(0) = sqrt(1/N)] and [c(k) = sqrt(2/N)], and its inverse the DCT-III
    [x[n] = y[0]/sqrt(N) + sqrt(2/N) * sum_(k>=1) y[k] cos(pi k (2n+1) / (2N))]. *)
Definition dct_scale (N k : nat) : R :=
  match k with
  | O => sqrt (1 / INR N)
  | S _ => sqrt (2 / INR N)
  end.

Definition dct_cos (N k n : nat) : R :=
  cos (PI * INR k * (2 * INR n + 1) / (2 * INR N)).

Definition dct (x : list float) : list float :=
  let N := List.length x in
  map (fun k =>
         fmul (Fin (dct_scale N k))
              (NP.sum (map2 (fun xn n => fmul xn (Fin (dct_cos N k n)))
                            x (seq 0 N))))
      (seq 0 N).

Definition idct (y : list float) : list float :=
  let N := List.length y in
  map (fun n =>
         NP.sum (map2 (fun yk k =>
                         fmul (Fin (dct_scale N k))
                              (fmul yk (Fin (dct_cos N k n))))
                      y (seq 0 N)))
      (seq 0 N).

(** Modelled from the spec: [scipy.optimize.brentq(f, a, b)] is the
    bracketed scalar root finder of section 6, "returning a root ... or
    failing explicitly".  As in scipy, the call first evaluates both end
    points and raises [ValueError] when [f(a) * f(b) > 0]; an end point
    that is a zero is returned at once.  Otherwise the routine returns a
    zero of [f] in the bracket: the tolerance of the iteration is idealised
    to an exact zero, chosen among the zeros by an indefinite description.
    Where [f] has no zero in the bracket (which needs a discontinuous [f])
    the iteration has nothing to converge to in this model and the failure
    is reported as scipy reports its convergence failure. *)
Definition brentq (f : R -> float) (a b : R) : result R :=
  let fpre := f a in
  let fcur := f b in
  if positive_dec (fmul fpre fcur) then
    Raise (ValueError "f(a) and f(b) must have different signs")
  else if is_zero_dec fpre then Ok a
  else if is_zero_dec fcur then Ok b
  else
    match excluded_middle_informative
            (exists x, a <= x <= b /\ f x = Fin 0) with
    | left H => Ok (proj1_sig (constructive_indefinite_description _ H))
    | right _ => Raise (RuntimeError "Failed to converge")
    end.

(** ** The source: [fixed_point] (kde.py, lines 54-65) *)

(** [xrange(1, 2*s, 2)]: the odd numbers [1, 3, ..., 2s - 1]. *)
Definition xrange_odd (s : nat) : list nat :=
  map (fun k => (1 + 2 * k)%nat) (seq 0 s).

(** [np.prod] of a range of integers. *)
Definition np_prod (l : list nat) : R := fold_right (fun n p => INR n * p) 1 l.

(** [range(l, 1, -1)]: [l, l - 1, ..., 2]. *)
Definition range_down (l : nat) : list nat := rev (seq 2 (l - 1)).

(** [2*np.pi**(2*s)*np.sum(I**s*a2*np.exp(-I*np.pi**2*time))], the
    expression of lines 59 and 64. *)
Definition moment (s : nat) (I a2 : list float) (time : float) : float :=
  fmul (Fin (2 * PI ^ (2 * s)))
       (NP.sum (map2 (fun i a =>
                        fmul (fmul (fpown i s) a)
                             (fexp (fmul (fmul (fneg i) (Fin (PI ^ 2))) time)))
                     I a2)).

Definition K0 (s : nat) : R := np_prod (xrange_odd s) / sqrt (2 * PI).

Definition const (s : nat) : R := (1 + Rpower (1 / 2) (INR s + 1 / 2)) / 3.

(** Line 63: [time=(2*const*K0/M/f)**(2/(3+2*s))]. *)
Definition time (s : nat) (M f : float) : float :=
  fpow (fdiv (fdiv (Fin (2 * const s * K0 s)) M) f) (2 / (3 + 2 * INR s)).

(** One turn of the loop of lines 60-64: the new value of [f]. *)
Definition descent_step (M : float) (I a2 : list float) (f : float) (s : nat)
  : float :=
  moment s I a2 (time s M f).

Definition fixed_point (t M : float) (I a2 : list float) : float :=
  let l := 7%nat in
  let f := moment 7 I a2 t in
  let f := fold_left (descent_step M I a2) (range_down l) f in
  fsub t (fpow (fmul (fmul (fmul (Fin 2) M) (Fin (sqrt PI))) f) (- 2 / 5)).

(** ** The source: [kde] (kde.py, lines 19-52) *)

(** Line 22: [N = 2**np.ceil(np.log2(N))].  For [N = 0] numpy gives
    [log2(0) = -inf] and [2**(-inf) = 0]. *)
Definition grid_size (N : nat) : nat :=
  match N with
  | O => O
  | S _ => (2 ^ Z.to_nat (np_ceil (np_log2 (INR N))))%nat
  end.

(** Lines 23-28: the bounds, defaulted from the sample range widened by a
    tenth on each side. *)
Definition bounds (data : list R) (MIN MAX : option R) : result (R * R) :=
  match MIN, MAX with
  | Some lo, Some hi => Ok (lo, hi)
  | _, _ =>
      minimum <- np_min data ;;
      maximum <- np_max data ;;
      let Range := maximum - minimum in
      Ok (match MIN with None => minimum - Range / 10 | Some lo => lo end,
          match MAX with None => maximum + Range / 10 | Some hi => hi end)
  end.

(** Line 36: [DataHist = DataHist/M]. *)
Definition DataHist (counts : list nat) (M : nat) : list float :=
  map (fun c => fdiv (Fin (INR c)) (Fin (INR M))) counts.

(** Line 39: [I = (np.arange(N-1)+1)**2]. *)
Definition moment_index (N : nat) : list float :=
  map (fun i => Fin ((INR i + 1) ^ 2)) (seq 0 (N - 1)).

(** Line 40: [SqDCTData = (DCTData[1:]/2)**2]. *)
Definition SqDCTData (DCTData : list float) : list float :=
  map (fun c => fpown (fdiv c (Fin 2)) 2) (tl DCTData).

(** Line 46: [SmDCTData = DCTData*np.exp(-np.arange(N)**2*np.pi**2*t_star/2)]. *)
Definition SmDCTData (DCTData : list float) (N : nat) (t_star : R)
  : list float :=
  map2 (fun c i => fmul c (Fin (exp (- (INR i ^ 2) * PI ^ 2 * t_star / 2))))
       DCTData (seq 0 N).

(** Line 48: [density = scipy.fftpack.idct(SmDCTData, norm='ortho')*N/R]. *)
Definition density (SmDCT : list float) (N : nat) (R' : R) : list float :=
  map (fun y => fdiv (fmul y (Fin (INR N))) (Fin R')) (idct SmDCT).

(** Line 49: [mesh = [(bins[i]+bins[i+1])/2 for i in xrange(N)]]. *)
Definition mesh (bins : list R) (N : nat) : list R :=
  map (fun i => (nth i bins 0 + nth (i + 1) bins 0) / 2) (seq 0 N).

(** The function handed to the root finder on line 43. *)
Definition bandwidth_equation (M : nat) (I a2 : list float) (t : R) : float :=
  fixed_point (Fin t) (Fin (INR M)) I a2.

Definition kde (data : list R) (N : nat) (MIN MAX : option R)
  : result (R * list R * list float) :=
  let N := grid_size N in
  '(lo, hi) <- bounds data MIN MAX ;;
  let R' := hi - lo in
  let M := List.length data in
  '(counts, bins) <- np_histogram data N (lo, hi) ;;
  let DataHist := DataHist counts M in
  let DCTData := dct DataHist in
  let I := moment_index N in
  let SqDCTData := SqDCTData DCTData in
  t_star <- brentq (bandwidth_equation M I SqDCTData) 0 (1 / 10) ;;
  let SmDCTData := SmDCTData DCTData N t_star in
  let density := density SmDCTData N R' in
  let mesh := mesh bins N in
  let bandwidth := sqrt t_star * R' in
  Ok (bandwidth, mesh, density).

(** ** The quantities of the method over the reals

    These follow the formulas of the method as the specification writes
    them, over real arrays; the theorems below relate them to the code. *)

(** [phi(s, time) = 2 pi^(2s) sum_i idx[i]^s a2[i] exp(-idx[i] pi^2 time)]. *)
Definition phi (s : nat) (idx a2 : list R) (tm : R) : R :=
  2 * PI ^ (2 * s) *
  Rsum (map2 (fun i a => i ^ s * a * exp (- i * PI ^ 2 * tm)) idx a2).

(** [time(s) = (2 const(s) K0(s) / (M f))^(2/(3+2s))]. *)
Definition time_of (s : nat) (M f : R) : R :=
  Rpower (2 * const s * K0 s / (M * f)) (2 / (3 + 2 * INR s)).

(** [1 * 3 * 5 * ... * (2s - 1)]. *)
Fixpoint odd_product (s : nat) : R :=
  match s with
  | O => 1
  | S s' => odd_product s' * (2 * INR s' + 1)
  end.

(** The update of [f] that the code performs at order [s]. *)
Definition step_of (M : R) (idx a2 : list R) (f : R) (s : nat) : R :=
  phi s idx a2 (time_of s M f).

(** The update of [f] as the specification words it: the moment sum of the
    next lower order [s - 1] at the time just computed. *)
Definition step_lower_order (M : R) (idx a2 : list R) (f : R) (s : nat) : R :=
  phi (s - 1) idx a2 (time_of s M f).

(** The value of [f] after the six orders 7, 6, 5, 4, 3, 2. *)
Definition descent (M : R) (idx a2 : list R) (f : R) : R :=
  fold_left (step_of M idx a2) [7; 6; 5; 4; 3; 2]%nat f.

(** [g(t) = t - (2 M sqrt(pi) f)^(-2/5)], [f] the end of the descent that
    starts from [phi(7, t)]. *)
Definition g (M : R) (idx a2 : list R) (t : R) : R :=
  t - Rpower (2 * M * sqrt PI * descent M idx a2 (phi 7 idx a2 t)) (- 2 / 5).

(** The empirical mass vector, the transform and the solver's arrays. *)
Definition mass (counts : list nat) (M : nat) : list R :=
  map (fun c => INR c / INR M) counts.

Definition dct_real (x : list R) : list R :=
  let N := List.length x in
  map (fun k =>
         dct_scale N k *
         Rsum (map2 (fun xn n => xn * dct_cos N k n) x (seq 0 N)))
      (seq 0 N).

Definition idx_of (N : nat) : list R :=
  map (fun i => (INR i + 1) ^ 2) (seq 0 (N - 1)).

Definition a2_of (coeff : list R) : list R :=
  map (fun c => (c / 2) ^ 2) (tl coeff).

(** The solver's arrays are usable when the index terms are positive, the
    squared coefficients are not negative and one of them is not zero. *)
Inductive usable : list R -> list R -> Prop :=
| usable_here i a idx a2 :
    0 < i -> 0 < a ->
    Forall2 (fun i a => 0 < i /\ 0 <= a) idx a2 ->
    usable (i :: idx) (a :: a2)
| usable_later i a idx a2 :
    0 < i -> 0 <= a -> usable idx a2 -> usable (i :: idx) (a :: a2).

(** [n] is a power of two. *)
Definition is_pow2 (n : nat) : Prop := exists k : nat, n = (2 ^ k)%nat.

(** A truth value as a count. *)
Definition b2n (b : bool) : nat := if b then 1%nat else 0%nat.

(** Edge [i] of [bins] equal-width bins over [[lo, hi]]. *)
Definition edge (lo hi : R) (bins i : nat) : R :=
  lo + INR i * ((hi - lo) / INR bins).

(** The test [lo <= x <= hi]. *)
Definition inside (lo hi x : R) : bool := Rleb lo x && Rleb x hi.

(** Sample sets used as concrete instances: four thousand samples with two
    distinct values, four thousand equal samples, and a symmetric pair. *)
Definition sample_two : list R := 1 :: repeat 0 3999.
Definition sample_flat : list R := repeat 0 4000.
Definition sample_pair : list R := [0; 1].

(** The attenuated coefficients, the inverse transform and the density
    over the reals. *)
Definition smooth_real (coeff : list R) (N : nat) (t_star : R) : list R :=
  map2 (fun c i => c * exp (- (INR i ^ 2) * PI ^ 2 * t_star / 2))
       coeff (seq 0 N).

Definition idct_real (y : list R) : list R :=
  let N := List.length y in
  map (fun n =>
         Rsum (map2 (fun yk k => dct_scale N k * (yk * dct_cos N k n))
                    y (seq 0 N)))
      (seq 0 N).

Definition density_real (coeff : list R) (N : nat) (t_star R' : R) : list R :=
  map (fun y => y * INR N / R') (idct_real (smooth_real coeff N t_star)).

(** ** The source: [dgp_class.py]

    The test distributions of the benchmark: mixtures of normal densities
    given by a table of (mean, standard deviation) pairs and a table of
    rates, and the log-normal density.  The random sampling methods are not
    modelled. *)

(** Indexing a Python list with an index that is not negative. *)
Inductive index_result (A : Type) : Type :=
| Found (a : A)
| IndexError (msg : string).
Arguments Found {A} a.
Arguments IndexError {A} msg.

Definition py_index {A : Type} (l : list A) (k : nat) : index_result A :=
  match nth_error l k with
  | Some a => Found a
  | None => IndexError "list index out of range"
  end.

(** [enumerate(l)]. *)
Definition enumerate {A : Type} (l : list A) : list (nat * A) :=
  combine (seq 0 (List.length l)) l.

(** The builtins [min] and [max] on a list of numbers; both raise on an
    empty list. *)
Definition py_min (l : list R) : result R :=
  match l with
  | [] => Raise (ValueError "min() arg is an empty sequence")
  | x :: t => Ok (fold_left Rmin t x)
  end.

Definition py_max (l : list R) : result R :=
  match l with
  | [] => Raise (ValueError "max() arg is an empty sequence")
  | x :: t => Ok (fold_left Rmax t x)
  end.

(** [np.log] of a number: minus infinity at 0 and a nan below. *)
Definition np_log (x : R) : float := by_sign x NaN NInf (Fin (ln x)).

(** Line 47. *)
Definition _NORM_PDF_C : R := sqrt (2 * PI).

(** Line 50, [np.exp(-(x-params[0])**2/2.0/params[1]**2) / _NORM_PDF_C /
    params[1]], on the array [x]. *)
Definition _norm (x : list R) (params : R * R) : list float :=
  map (fun xi =>
         fdiv (fdiv (fexp (fdiv (fdiv (fneg (fpown (fsub (Fin xi)
                                                         (Fin (fst params)))
                                                   2))
                                      (Fin 2))
                                (Fin (snd params ^ 2))))
                    (Fin _NORM_PDF_C))
              (Fin (snd params)))
      x.

(** What the builtin [sum] of line 80 holds: the integer 0 it starts from,
    or an array once a term has been added. *)
Inductive pdf_value : Type :=
| Scalar (z : Z)
| Array (a : list float).

Module dgp.

(** The two tables that the methods read through [self]. *)
Record self : Type := { _inputs : list (R * R); _rates : list R }.

(** [acc + term] for the accumulator of [sum] and an array. *)
Definition add_term (acc : pdf_value) (term : list float) : pdf_value :=
  match acc with
  | Scalar z => Array (map (fadd (Fin (IZR z))) term)
  | Array a => Array (map2 fadd a term)
  end.

(** Lines 80-81: the generator is consumed item by item; the rate is
    looked up before the normal density is evaluated. *)
Fixpoint sum_terms (rates : list R) (mesh : list R) (acc : pdf_value)
         (items : list (nat * (R * R))) : index_result pdf_value :=
  match items with
  | [] => Found acc
  | (k, input_) :: rest =>
      match py_index rates k with
      | IndexError msg => IndexError msg
      | Found r =>
          sum_terms rates mesh
                    (add_term acc (map (fmul (Fin r)) (_norm mesh input_)))
                    rest
      end
  end.

Definition _pdf (s : self) (mesh : list R) : index_result pdf_value :=
  sum_terms (_rates s) mesh (Scalar 0) (enumerate (_inputs s)).

(** Lines 85-95. *)
Definition mesh (s : self) (N : option nat) : result (list R) :=
  let N := match N with None => (2 ^ 14)%nat | Some n => n end in
  let maxes := map (fun input_ => fst input_ + 4 * snd input_) (_inputs s) in
  let mins := map (fun input_ => fst input_ - 4 * snd input_) (_inputs s) in
  min_ <- py_min mins ;;
  max_ <- py_max maxes ;;
  Ok (linspace min_ max_ N).

End dgp.

(** The class-level tables of the subclasses (lines 99-310). *)
Definition Claw : dgp.self :=
  {| dgp._inputs := (0, 1) :: map (fun k => (INR k / 2 - 1, 1 / 10)) (seq 0 5);
     dgp._rates := [1 / 2] ++ repeat (1 / 10) 5 |}.

Definition KurtoticUnimodal : dgp.self :=
  {| dgp._inputs := [(0, 1); (0, 1 / 10)];
     dgp._rates := [2 / 3; 1 / 3] |}.

Definition DoubleClaw : dgp.self :=
  {| dgp._inputs := [(- 1, 2 / 3); (1, 2 / 3)]
                    ++ map (fun k => ((INR k - 3) / 2, 1 / 100)) (seq 0 7);
     dgp._rates := repeat (49 / 100) 2 ++ repeat (1 / 350) 7 |}.

Definition DiscreteComb : dgp.self :=
  {| dgp._inputs := map (fun k => ((12 * INR k - 15) / 7, 2 / 7)) (seq 0 3)
                    ++ map (fun k => (2 * INR k / 7, 1 / 21)) (seq 8 3);
     dgp._rates := repeat (2 / 7) 3 ++ repeat (1 / 21) 3 |}.

Definition AsymDoubleClaw : dgp.self :=
  {| dgp._inputs := map (fun k => (2 * INR k - 1, 2 / 3)) (seq 0 2)
                    ++ map (fun k => (- INR k / 2, 1 / 100)) (seq 1 3)
                    ++ map (fun k => (INR k / 2, 7 / 100)) (seq 1 3);
     dgp._rates := repeat (46 / 100) 2 ++ repeat (1 / 300) 3
                   ++ repeat (7 / 300) 3 |}.

Definition Outlier : dgp.self :=
  {| dgp._inputs := [(0, 1); (0, 1 / 10)];
     dgp._rates := [1 / 10; 9 / 10] |}.

Definition SeparatedBimodal : dgp.self :=
  {| dgp._inputs := [(- 12, 1 / 2); (12, 1 / 2)];
     dgp._rates := repeat (1 / 2) 2 |}.

Definition SkewBimodal : dgp.self :=
  {| dgp._inputs := [(0, 1); (3 / 2, 1 / 3)];
     dgp._rates := [3 / 4; 1 / 4] |}.

Definition Bimodal : dgp.self :=
  {| dgp._inputs := [(0, 1 / 10); (5, 1)];
     dgp._rates := repeat (1 / 2) 2 |}.

(** [xrange(-2, 3)]. *)
Definition xrange_m2_3 : list Z := [-2; -1; 0; 1; 2]%Z.

Definition AsymClaw : dgp.self :=
  {| dgp._inputs := (0, 1)
                    :: map (fun k => (IZR k + 1 / 2, powerRZ 2 (- k) / 10))
                           xrange_m2_3;
     dgp._rates := 1 / 2
                   :: map (fun k => powerRZ 2 (1 - k) / 31) xrange_m2_3 |}.

Definition Trimodal : dgp.self :=
  {| dgp._inputs := map (fun k => (80 * INR k, (INR k + 1) ^ 2)) (seq 0 3);
     dgp._rates := repeat (1 / 3) 3 |}.

Definition FiveModes : dgp.self :=
  {| dgp._inputs := map (fun k => (80 * INR k, INR k + 1)) (seq 0 5);
     dgp._rates := repeat (1 / 5) 5 |}.

Definition TenModes : dgp.self :=
  {| dgp._inputs := map (fun k => (100 * INR k, INR k + 1)) (seq 0 10);
     dgp._rates := repeat (1 / 10) 10 |}.

Definition SmoothComb : dgp.self :=
  {| dgp._inputs :=
       map (fun k => ((65 - 96 * powerRZ 2 (- Z.of_nat k)) / 21,
                      32 / 63 * powerRZ 2 (- Z.of_nat k)))
           (seq 0 6);
     dgp._rates :=
       map (fun k => powerRZ 2 (5 - Z.of_nat k) / 63) (seq 0 6) |}.

(** The tables in the order of the file. *)
Definition table_classes : list dgp.self :=
  [Claw; KurtoticUnimodal; DoubleClaw; DiscreteComb; AsymDoubleClaw; Outlier;
   SeparatedBimodal; SkewBimodal; Bimodal; AsymClaw; Trimodal; FiveModes;
   TenModes; SmoothComb].

(** [StronglySkewed] (lines 111-122) has a table of rates but no table of
    inputs of its own: [self._inputs] is the list object of the base class
    (line 96), empty when the module is loaded and shared by every instance
    of [StronglySkewed] and of [dgp] itself.  The constructor appends its
    eight components to that list. *)
Module StronglySkewed.

Definition _rates : list R := repeat (1 / 8) 8.

(** Lines 120-121, as a change of the shared list. *)
Definition __init__ (shared : list (R * R)) : list (R * R) :=
  fold_left (fun l k => l ++ [(3 * ((2 / 3) ^ k - 1), (2 / 3) ^ k)])
            (seq 0 8) shared.

(** An instance, as its methods see it when the shared list is [shared]. *)
Definition self (shared : list (R * R)) : dgp.self :=
  {| dgp._inputs := shared; dgp._rates := _rates |}.

End StronglySkewed.

(** An instance of the base class: its rates are the empty list of line 97,
    its inputs the shared list. *)
Definition dgp_base (shared : list (R * R)) : dgp.self :=
  {| dgp._inputs := shared; dgp._rates := [] |}.

(** The shared list after [n] constructions of [StronglySkewed], from the
    empty list of line 96. *)
Fixpoint shared_after (n : nat) : list (R * R) :=
  match n with
  | O => []
  | S n' => StronglySkewed.__init__ (shared_after n')
  end.

Module LogNormal.

(** Lines 234-238. *)
Definition _pdf (mesh : list R) : result (list float) :=
  if existsb (fun x => Rleb x 0) mesh then
    Raise (ValueError "mesh must be >0")
  else
    Ok (map (fun x =>
               fdiv (fdiv (fexp (fdiv (fneg (fpown (np_log x) 2)) (Fin 2)))
                          (Fin x))
                    (Fin _NORM_PDF_C))
            mesh).

(** Lines 239-244: [np.linspace(0, 10, num=N, retstep=True)] and
    [mesh += step].  For [num < 2] the numpy releases of the time of the
    code return the array alone, so that the unpacking of line 242 fails;
    later releases return a nan as the step.  The properties below are
    about [num >= 2], where all releases agree. *)
Definition mesh (N : option nat) : result (list R) :=
  let N := match N with None => (2 ^ 14)%nat | Some n => n end in
  if Nat.ltb N 2 then Raise (ValueError "need more than 1 value to unpack")
  else
    let step := (10 - 0) / INR (N - 1) in
    Ok (map (fun x => x + step) (linspace 0 10 N)).

End LogNormal.

(** The normal density and a mixture of normal densities over the reals. *)
Definition gauss (x mu sd : R) : R :=
  exp (- (x - mu) ^ 2 / 2 / sd ^ 2) / sqrt (2 * PI) / sd.

Definition mixture (rates : list R) (inputs : list (R * R)) (x : R) : R :=
  Rsum (map2 (fun r p => r * gauss x (fst p) (snd p)) rates inputs).

(** The log-normal density. *)
Definition lognormal (x : R) : R :=
  exp (- ln x ^ 2 / 2) / x / sqrt (2 * PI).

(** ** Proof automation *)

(** Case analysis on the comparisons of reals in a goal. *)
Ltac cmp :=
  unfold inside, Rleb, Rltb;
  repeat match goal with
         | |- context [Rle_dec ?x ?y] => destruct (Rle_dec x y)
         | |- context [Rlt_dec ?x ?y] => destruct (Rlt_dec x y)
         end;
  simpl; try reflexivity; try lra.

(** Side conditions made of numerals. *)
Ltac numeric_side := unfold xrange_odd, np_prod; simpl; lra.

(** ** Properties of the floating-point operations *)

Lemma fmul_fin (a b : R) : fmul (Fin a) (Fin b) = Fin (a * b).
Proof. reflexivity. Qed.

Lemma fadd_fin (a b : R) : fadd (Fin a) (Fin b) = Fin (a + b).
Proof. reflexivity. Qed.

Lemma fsub_fin (a b : R) : fsub (Fin a) (Fin b) = Fin (a - b).
Proof. reflexivity. Qed.

Lemma fneg_fin (a : R) : fneg (Fin a) = Fin (- a).
Proof. reflexivity. Qed.

Lemma fexp_fin (a : R) : fexp (Fin a) = Fin (exp a).
Proof. reflexivity. Qed.

Lemma fpown_fin (a : R) (n : nat) : fpown (Fin a) n = Fin (a ^ n).
Proof.
  induction n as [| n IH]; simpl; [reflexivity |].
  rewrite IH; reflexivity.
Qed.

Lemma fdiv_fin (a b : R) : b <> 0 -> fdiv (Fin a) (Fin b) = Fin (a / b).
Proof.
  intros Hb; unfold fdiv.
  destruct (Req_dec_T b 0) as [e | _]; [contradiction | reflexivity].
Qed.

Lemma fdiv_zero (a : R) : 0 < a -> fdiv (Fin a) (Fin 0) = PInf.
Proof.
  intros Ha; unfold fdiv, by_sign.
  destruct (Req_dec_T 0 0) as [_ | n]; [| contradiction n; reflexivity].
  destruct (Rlt_dec a 0); [lra |].
  destruct (Rlt_dec 0 a); [reflexivity | lra].
Qed.

Lemma fpow_fin (a y : R) : 0 < a -> fpow (Fin a) y = Fin (Rpower a y).
Proof.
  intros Ha; unfold fpow.
  destruct (Rlt_dec 0 a); [reflexivity | contradiction].
Qed.

Lemma fpow_zero_neg (y : R) : y < 0 -> fpow (Fin 0) y = PInf.
Proof.
  intros Hy; unfold fpow, by_sign.
  destruct (Rlt_dec 0 0); [lra |].
  destruct (Rlt_dec y 0); [reflexivity | contradiction].
Qed.

Lemma fpow_pinf_pos (y : R) : 0 < y -> fpow PInf y = PInf.
Proof.
  intros Hy; unfold fpow, by_sign.
  destruct (Rlt_dec y 0); [lra |].
  destruct (Rlt_dec 0 y); [reflexivity | contradiction].
Qed.

Lemma fmul_pos_pinf (a : R) : 0 < a -> fmul (Fin a) PInf = PInf.
Proof.
  intros Ha; unfold fmul, by_sign.
  destruct (Rlt_dec a 0); [lra |].
  destruct (Rlt_dec 0 a); [reflexivity | contradiction].
Qed.

Lemma fmul_neg_pinf (a : R) : a < 0 -> fmul (Fin a) PInf = NInf.
Proof.
  intros Ha; unfold fmul, by_sign.
  destruct (Rlt_dec a 0); [reflexivity | contradiction].
Qed.

Lemma fmul_one_r (x : float) : fmul x (Fin 1) = x.
Proof.
  destruct x as [r | | |]; simpl; unfold by_sign.
  - f_equal; lra.
  - destruct (Rlt_dec 1 0); [lra |].
    destruct (Rlt_dec 0 1); [reflexivity | lra].
  - destruct (Rlt_dec 1 0); [lra |].
    destruct (Rlt_dec 0 1); [reflexivity | lra].
  - reflexivity.
Qed.

Lemma sum_cons (x : float) (l : list float) :
  NP.sum (x :: l) = fadd x (NP.sum l).
Proof. reflexivity. Qed.

Lemma sum_fin (l : list R) : NP.sum (map Fin l) = Fin (Rsum l).
Proof.
  induction l as [| a l IH]; [reflexivity |].
  cbn [map]; rewrite sum_cons, IH; reflexivity.
Qed.

Lemma map2_length {A B C : Type} (f : A -> B -> C) (l : list A) (l' : list B) :
  List.length (map2 f l l') = Nat.min (List.length l) (List.length l').
Proof.
  revert l'; induction l as [| a l IH]; intros [| b l']; simpl; auto.
Qed.

Lemma map2_map {A A' B B' C : Type} (f : A' -> B' -> C) (h : A -> A')
      (h' : B -> B') (l : list A) (l' : list B) :
  map2 f (map h l) (map h' l') = map2 (fun a b => f (h a) (h' b)) l l'.
Proof.
  revert l'; induction l as [| a l IH]; intros [| b l']; simpl; auto.
  f_equal; apply IH.
Qed.

Lemma map2_map_l {A A' B C : Type} (f : A' -> B -> C) (h : A -> A')
      (l : list A) (l' : list B) :
  map2 f (map h l) l' = map2 (fun a b => f (h a) b) l l'.
Proof.
  revert l'; induction l as [| a l IH]; intros [| b l']; simpl; auto.
  f_equal; apply IH.
Qed.

Lemma map_map2 {A B C D : Type} (h : C -> D) (f : A -> B -> C)
      (l : list A) (l' : list B) :
  map h (map2 f l l') = map2 (fun a b => h (f a b)) l l'.
Proof.
  revert l'; induction l as [| a l IH]; intros [| b l']; simpl; auto.
  f_equal; apply IH.
Qed.

Lemma map2_ext {A B C : Type} (f f' : A -> B -> C) (l : list A) (l' : list B) :
  (forall a b, f a b = f' a b) -> map2 f l l' = map2 f' l l'.
Proof.
  intros H; revert l'; induction l as [| a l IH]; intros [| b l']; simpl; auto.
  rewrite H, IH; reflexivity.
Qed.

(** ** The code computes the real formulas on finite inputs *)

Lemma moment_fin (s : nat) (idx a2 : list R) (tm : R) :
  moment s (map Fin idx) (map Fin a2) (Fin tm) = Fin (phi s idx a2 tm).
Proof.
  unfold moment, phi.
  rewrite map2_map.
  rewrite (map2_ext _ (fun i a => Fin (i ^ s * a * exp (- i * PI ^ 2 * tm)))).
  - rewrite <- map_map2, sum_fin; reflexivity.
  - intros i a; rewrite fpown_fin; reflexivity.
Qed.

Lemma pi_pow_pos (n : nat) : 0 < PI ^ n.
Proof. apply pow_lt, PI_RGT_0. Qed.

Lemma Rsum_terms_nonneg (h : R -> R -> R) (idx a2 : list R) :
  (forall i a, 0 < i -> 0 <= a -> 0 <= h i a) ->
  Forall2 (fun i a => 0 < i /\ 0 <= a) idx a2 ->
  0 <= Rsum (map2 h idx a2).
Proof.
  intros Hh HF; induction HF as [| i a idx a2 [Hi Ha] _ IH]; simpl.
  - lra.
  - specialize (Hh i a Hi Ha); lra.
Qed.

Lemma Rsum_terms_pos (h : R -> R -> R) (idx a2 : list R) :
  (forall i a, 0 < i -> 0 <= a -> 0 <= h i a) ->
  (forall i a, 0 < i -> 0 < a -> 0 < h i a) ->
  usable idx a2 ->
  0 < Rsum (map2 h idx a2).
Proof.
  intros Hh Hh' HU; induction HU as [i a idx a2 Hi Ha HF | i a idx a2 Hi Ha _ IH];
    simpl.
  - pose proof (Rsum_terms_nonneg h idx a2 Hh HF).
    specialize (Hh' i a Hi Ha); lra.
  - specialize (Hh i a Hi Ha); lra.
Qed.

Lemma phi_term_nonneg (s : nat) (tm i a : R) :
  0 < i -> 0 <= a -> 0 <= i ^ s * a * exp (- i * PI ^ 2 * tm).
Proof.
  intros Hi Ha.
  apply Rmult_le_pos; [| left; apply exp_pos].
  apply Rmult_le_pos; [left; apply pow_lt; exact Hi | exact Ha].
Qed.

Lemma phi_term_pos (s : nat) (tm i a : R) :
  0 < i -> 0 < a -> 0 < i ^ s * a * exp (- i * PI ^ 2 * tm).
Proof.
  intros Hi Ha.
  apply Rmult_lt_0_compat; [| apply exp_pos].
  apply Rmult_lt_0_compat; [apply pow_lt; exact Hi | exact Ha].
Qed.

Lemma phi_pos (s : nat) (idx a2 : list R) (tm : R) :
  usable idx a2 -> 0 < phi s idx a2 tm.
Proof.
  intros HU; unfold phi.
  apply Rmult_lt_0_compat.
  - pose proof (pi_pow_pos (2 * s)); lra.
  - apply Rsum_terms_pos; [apply phi_term_nonneg | apply phi_term_pos | exact HU].
Qed.

Lemma np_prod_pos_list (l : list nat) :
  Forall (fun n => (0 < n)%nat) l -> 0 < np_prod l.
Proof.
  induction 1 as [| n l Hn _ IH]; simpl; [lra |].
  apply Rmult_lt_0_compat; [apply lt_0_INR; exact Hn | exact IH].
Qed.

Lemma np_prod_pos (s : nat) : 0 < np_prod (xrange_odd s).
Proof.
  apply np_prod_pos_list, Forall_forall.
  intros n Hn; unfold xrange_odd in Hn.
  apply in_map_iff in Hn; destruct Hn as [k [<- _]]; lia.
Qed.

Lemma sqrt_2PI_pos : 0 < sqrt (2 * PI).
Proof. apply sqrt_lt_R0; pose proof PI_RGT_0; lra. Qed.

Lemma K0_pos (s : nat) : 0 < K0 s.
Proof.
  unfold K0; apply Rdiv_lt_0_compat; [apply np_prod_pos | apply sqrt_2PI_pos].
Qed.

Lemma const_pos (s : nat) : 0 < const s.
Proof.
  unfold const.
  pose proof (exp_pos ((INR s + 1 / 2) * ln (1 / 2))) as H.
  unfold Rpower; lra.
Qed.

Lemma time_base_pos (s : nat) (M f : R) :
  0 < M -> 0 < f -> 0 < 2 * const s * K0 s / (M * f).
Proof.
  intros HM Hf.
  apply Rdiv_lt_0_compat; [| apply Rmult_lt_0_compat; assumption].
  pose proof (const_pos s); pose proof (K0_pos s).
  apply Rmult_lt_0_compat; [lra | assumption].
Qed.

Lemma time_of_pos (s : nat) (M f : R) : 0 < time_of s M f.
Proof. unfold time_of, Rpower; apply exp_pos. Qed.

Lemma time_fin (s : nat) (M f : R) :
  0 < M -> 0 < f -> time s (Fin M) (Fin f) = Fin (time_of s M f).
Proof.
  intros HM Hf; unfold time, time_of.
  rewrite fdiv_fin by lra.
  rewrite fdiv_fin by lra.
  replace (2 * const s * K0 s / M / f) with (2 * const s * K0 s / (M * f))
    by (field; lra).
  apply fpow_fin, time_base_pos; assumption.
Qed.

Lemma descent_step_fin (s : nat) (M f : R) (idx a2 : list R) :
  0 < M -> 0 < f ->
  descent_step (Fin M) (map Fin idx) (map Fin a2) (Fin f) s
  = Fin (step_of M idx a2 f s).
Proof.
  intros HM Hf; unfold descent_step, step_of.
  rewrite time_fin by assumption.
  apply moment_fin.
Qed.

Lemma descent_fold_fin (ss : list nat) (M f : R) (idx a2 : list R) :
  0 < M -> usable idx a2 -> 0 < f ->
  fold_left (descent_step (Fin M) (map Fin idx) (map Fin a2)) ss (Fin f)
  = Fin (fold_left (step_of M idx a2) ss f)
  /\ 0 < fold_left (step_of M idx a2) ss f.
Proof.
  intros HM HU; revert f; induction ss as [| s ss IH]; intros f Hf; simpl.
  - split; [reflexivity | exact Hf].
  - rewrite descent_step_fin by assumption.
    apply IH; unfold step_of; apply phi_pos; exact HU.
Qed.

Lemma descent_pos (M f : R) (idx a2 : list R) :
  0 < M -> usable idx a2 -> 0 < f -> 0 < descent M idx a2 f.
Proof.
  intros HM HU Hf; unfold descent.
  apply (descent_fold_fin _ M f idx a2 HM HU Hf).
Qed.

Lemma sqrt_PI_pos : 0 < sqrt PI.
Proof. apply sqrt_lt_R0, PI_RGT_0. Qed.

(** On usable arrays and a positive sample count every intermediate value
    of [fixed_point] is finite and the result is [g]. *)
Lemma fixed_point_fin (t M : R) (idx a2 : list R) :
  0 < M -> usable idx a2 ->
  fixed_point (Fin t) (Fin M) (map Fin idx) (map Fin a2) = Fin (g M idx a2 t).
Proof.
  intros HM HU; unfold fixed_point, g.
  rewrite moment_fin.
  change (range_down 7) with [7; 6; 5; 4; 3; 2]%nat.
  pose proof (phi_pos 7 idx a2 t HU) as Hphi.
  destruct (descent_fold_fin [7; 6; 5; 4; 3; 2]%nat M _ idx a2 HM HU Hphi)
    as [-> Hpos].
  fold (descent M idx a2 (phi 7 idx a2 t)) in *.
  rewrite !fmul_fin.
  rewrite fpow_fin; [reflexivity |].
  apply Rmult_lt_0_compat; [| exact Hpos].
  apply Rmult_lt_0_compat; [lra | apply sqrt_PI_pos].
Qed.

(** ** The descent on an all-zero coefficient array *)

Lemma phi_zero (s : nat) (idx a2 : list R) (tm : R) :
  Forall (fun a => a = 0) a2 -> phi s idx a2 tm = 0.
Proof.
  intros HZ; unfold phi.
  assert (E : Rsum (map2 (fun i a => i ^ s * a * exp (- i * PI ^ 2 * tm)) idx a2)
              = 0).
  { revert idx; induction HZ as [| a a2 Ha _ IH]; intros [| i idx]; simpl;
      try reflexivity.
    rewrite IH, Ha; ring. }
  rewrite E; ring.
Qed.

Lemma moment_zero_fin (s : nat) (idx a2 : list R) (tm : R) :
  Forall (fun a => a = 0) a2 ->
  moment s (map Fin idx) (map Fin a2) (Fin tm) = Fin 0.
Proof.
  intros HZ; rewrite moment_fin, phi_zero by exact HZ; reflexivity.
Qed.

Lemma moment_zero_pinf (s : nat) (idx a2 : list R) :
  Forall (fun i => 0 < i) idx ->
  Forall (fun a => a = 0) a2 ->
  moment s (map Fin idx) (map Fin a2) PInf = Fin 0.
Proof.
  intros HI HZ; unfold moment.
  assert (E : NP.sum
                (map2 (fun i a =>
                         fmul (fmul (fpown i s) a)
                              (fexp (fmul (fmul (fneg i) (Fin (PI ^ 2))) PInf)))
                      (map Fin idx) (map Fin a2)) = Fin 0).
  { revert a2 HZ; induction HI as [| i idx Hi _ IH]; intros a2 HZ.
    - reflexivity.
    - destruct HZ as [| a a2 Ha HZ]; [reflexivity |].
      cbn [map map2]; rewrite sum_cons.
      rewrite (IH a2 HZ), fpown_fin, fneg_fin, !fmul_fin.
      rewrite fmul_neg_pinf.
      + simpl; f_equal; rewrite Ha; ring.
      + pose proof (pi_pow_pos 2); nra. }
  rewrite E, fmul_fin; f_equal; ring.
Qed.

Lemma time_exponent_pos (s : nat) : 0 < 2 / (3 + 2 * INR s).
Proof.
  pose proof (pos_INR s).
  apply Rdiv_lt_0_compat; lra.
Qed.

(** With [f = 0] the quotient of line 63 is a division by zero. *)
Lemma time_zero (s : nat) (M : R) :
  0 < M -> time s (Fin M) (Fin 0) = PInf.
Proof.
  intros HM; unfold time.
  rewrite fdiv_fin by lra.
  rewrite fdiv_zero.
  - apply fpow_pinf_pos, time_exponent_pos.
  - pose proof (const_pos s); pose proof (K0_pos s).
    apply Rdiv_lt_0_compat; [| exact HM].
    apply Rmult_lt_0_compat; [lra | assumption].
Qed.

Lemma descent_step_zero (s : nat) (M : R) (idx a2 : list R) :
  0 < M ->
  Forall (fun i => 0 < i) idx ->
  Forall (fun a => a = 0) a2 ->
  descent_step (Fin M) (map Fin idx) (map Fin a2) (Fin 0) s = Fin 0.
Proof.
  intros HM HI HZ; unfold descent_step.
  rewrite time_zero by exact HM.
  apply moment_zero_pinf; assumption.
Qed.

Lemma descent_fold_zero (ss : list nat) (M : R) (idx a2 : list R) :
  0 < M ->
  Forall (fun i => 0 < i) idx ->
  Forall (fun a => a = 0) a2 ->
  fold_left (descent_step (Fin M) (map Fin idx) (map Fin a2)) ss (Fin 0)
  = Fin 0.
Proof.
  intros HM HI HZ; induction ss as [| s ss IH]; simpl; [reflexivity |].
  rewrite descent_step_zero by assumption; exact IH.
Qed.

Lemma fixed_point_zero (t M : R) (idx a2 : list R) :
  0 < M ->
  Forall (fun i => 0 < i) idx ->
  Forall (fun a => a = 0) a2 ->
  fixed_point (Fin t) (Fin M) (map Fin idx) (map Fin a2) = NInf.
Proof.
  intros HM HI HZ; unfold fixed_point.
  rewrite moment_zero_fin by exact HZ.
  rewrite descent_fold_zero by assumption.
  rewrite !fmul_fin.
  replace (2 * M * sqrt PI * 0) with 0 by ring.
  rewrite fpow_zero_neg by lra.
  reflexivity.
Qed.

(** ** Continuity of [g] in the candidate time *)

Section Continuity.

Lemma cont_const (c a : R) : continuity_pt (fun _ => c) a.
Proof. apply continuity_pt_const; intros x y; reflexivity. Qed.

Lemma cont_id (a : R) : continuity_pt (fun x => x) a.
Proof. apply derivable_continuous_pt, derivable_pt_id. Qed.

Lemma cont_plus (f1 f2 : R -> R) (a : R) :
  continuity_pt f1 a -> continuity_pt f2 a ->
  continuity_pt (fun x => f1 x + f2 x) a.
Proof. exact (continuity_pt_plus f1 f2 a). Qed.

Lemma cont_minus (f1 f2 : R -> R) (a : R) :
  continuity_pt f1 a -> continuity_pt f2 a ->
  continuity_pt (fun x => f1 x - f2 x) a.
Proof. exact (continuity_pt_minus f1 f2 a). Qed.

Lemma cont_mult (f1 f2 : R -> R) (a : R) :
  continuity_pt f1 a -> continuity_pt f2 a ->
  continuity_pt (fun x => f1 x * f2 x) a.
Proof. exact (continuity_pt_mult f1 f2 a). Qed.

Lemma cont_comp (f1 f2 : R -> R) (a : R) :
  continuity_pt f1 a -> continuity_pt f2 (f1 a) ->
  continuity_pt (fun x => f2 (f1 x)) a.
Proof. exact (continuity_pt_comp f1 f2 a). Qed.

Lemma cont_inv (a : R) : a <> 0 -> continuity_pt (fun x => / x) a.
Proof.
  intros Ha.
  exact (continuity_pt_inv (fun x => x) a (cont_id a) Ha).
Qed.

Lemma cont_exp (a : R) : continuity_pt exp a.
Proof. apply derivable_continuous_pt, derivable_pt_exp. Qed.

Lemma cont_ln (a : R) : 0 < a -> continuity_pt ln a.
Proof.
  intros Ha; apply derivable_continuous_pt.
  exists (/ a); apply derivable_pt_lim_ln; exact Ha.
Qed.

Lemma cont_Rpower (y a : R) :
  0 < a -> continuity_pt (fun x => Rpower x y) a.
Proof.
  intros Ha; unfold Rpower.
  apply (cont_comp (fun x => y * ln x) exp); [| apply cont_exp].
  apply cont_mult; [apply cont_const | apply cont_ln; exact Ha].
Qed.

Variables (M : R) (idx a2 : list R).
Hypothesis M_pos : 0 < M.
Hypothesis arrays_usable : usable idx a2.

Lemma cont_phi_sum (s : nat) (l l' : list R) (a : R) :
  continuity_pt
    (fun tm => Rsum (map2 (fun i c => i ^ s * c * exp (- i * PI ^ 2 * tm)) l l'))
    a.
Proof.
  revert l'; induction l as [| i l IH]; intros [| c l']; simpl;
    try apply cont_const.
  apply cont_plus; [| apply IH].
  apply cont_mult; [apply cont_const |].
  apply (cont_comp (fun tm => - i * PI ^ 2 * tm) exp); [| apply cont_exp].
  apply cont_mult; [apply cont_const | apply cont_id].
Qed.

Lemma cont_phi (s : nat) (a : R) : continuity_pt (phi s idx a2) a.
Proof.
  unfold phi.
  apply cont_mult; [apply cont_const | apply cont_phi_sum].
Qed.

Lemma cont_time_of (s : nat) (f : R) :
  0 < f -> continuity_pt (time_of s M) f.
Proof.
  intros Hf; unfold time_of.
  apply (cont_comp (fun f => 2 * const s * K0 s / (M * f))
                   (fun x => Rpower x (2 / (3 + 2 * INR s)))).
  - unfold Rdiv.
    apply cont_mult; [apply cont_const |].
    apply (cont_comp (fun f => M * f) (fun x => / x)).
    + apply cont_mult; [apply cont_const | apply cont_id].
    + apply cont_inv; nra.
  - apply cont_Rpower, time_base_pos; assumption.
Qed.

Lemma cont_step_of (s : nat) (f : R) :
  0 < f -> continuity_pt (fun f => step_of M idx a2 f s) f.
Proof.
  intros Hf; unfold step_of.
  apply (cont_comp (time_of s M) (phi s idx a2));
    [apply cont_time_of; exact Hf | apply cont_phi].
Qed.

Lemma cont_fold_step (ss : list nat) (f : R) :
  0 < f -> continuity_pt (fold_left (step_of M idx a2) ss) f.
Proof.
  revert f; induction ss as [| s ss IH]; intros f Hf; simpl.
  - apply cont_id.
  - apply (cont_comp (fun f => step_of M idx a2 f s)
                     (fold_left (step_of M idx a2) ss)).
    + apply cont_step_of; exact Hf.
    + apply IH; unfold step_of; apply phi_pos; exact arrays_usable.
Qed.

Lemma cont_g (t : R) : continuity_pt (g M idx a2) t.
Proof.
  unfold g.
  apply cont_minus; [apply cont_id |].
  apply (cont_comp
           (fun t => 2 * M * sqrt PI * descent M idx a2 (phi 7 idx a2 t))
           (fun x => Rpower x (- 2 / 5))).
  - apply cont_mult; [apply cont_const |].
    apply (cont_comp (phi 7 idx a2) (descent M idx a2));
      [apply cont_phi |].
    apply cont_fold_step, phi_pos; exact arrays_usable.
  - apply cont_Rpower.
    apply Rmult_lt_0_compat.
    + apply Rmult_lt_0_compat; [lra | apply sqrt_PI_pos].
    + apply descent_pos; try assumption.
      apply phi_pos; exact arrays_usable.
Qed.

(** [g] is negative at the left end of the bracket. *)
Lemma g_zero_neg : g M idx a2 0 < 0.
Proof.
  unfold g.
  match goal with |- 0 - Rpower ?b ?e < 0 =>
    pose proof (exp_pos (e * ln b)) as H; unfold Rpower; lra
  end.
Qed.

(** A zero of [g] is positive. *)
Lemma g_root_pos (t : R) : g M idx a2 t = 0 -> 0 < t.
Proof.
  unfold g; intros H.
  match type of H with _ - Rpower ?b ?e = 0 =>
    pose proof (exp_pos (e * ln b)) as H'; unfold Rpower in H; lra
  end.
Qed.

End Continuity.

(** ** The root finder *)

Lemma brentq_same_sign (f : R -> float) (a b : R) :
  positive (fmul (f a) (f b)) ->
  brentq f a b = Raise (ValueError "f(a) and f(b) must have different signs").
Proof.
  intros H; unfold brentq.
  destruct (positive_dec (fmul (f a) (f b))); [reflexivity | contradiction].
Qed.

Lemma brentq_Ok (f : R -> float) (a b x : R) :
  a <= b -> brentq f a b = Ok x ->
  a <= x <= b /\ f x = Fin 0 /\ ~ positive (fmul (f a) (f b)).
Proof.
  intros Hab; unfold brentq.
  destruct (positive_dec (fmul (f a) (f b))) as [| Hn]; [discriminate |].
  destruct (is_zero_dec (f a)) as [Ha |].
  { intros E; injection E as <-; repeat split; auto; lra. }
  destruct (is_zero_dec (f b)) as [Hb |].
  { intros E; injection E as <-; repeat split; auto; lra. }
  destruct (excluded_middle_informative _) as [H |]; [| discriminate].
  destruct (constructive_indefinite_description _ H) as [z [Hz Hfz]]; simpl.
  intros E; injection E as <-; repeat split; auto; lra.
Qed.

Lemma brentq_raises (f : R -> float) (a b : R) (e : py_exn) :
  brentq f a b = Raise e ->
  (positive (fmul (f a) (f b)) /\
   e = ValueError "f(a) and f(b) must have different signs")
  \/ (~ positive (fmul (f a) (f b)) /\
      (forall x, a <= x <= b -> f x <> Fin 0) /\
      e = RuntimeError "Failed to converge").
Proof.
  unfold brentq.
  destruct (positive_dec (fmul (f a) (f b))) as [Hp | Hn].
  { intros E; injection E as <-; left; split; auto. }
  destruct (is_zero_dec (f a)); [discriminate |].
  destruct (is_zero_dec (f b)); [discriminate |].
  destruct (excluded_middle_informative _) as [H | H]; [discriminate |].
  intros E; injection E as <-; right; repeat split; auto.
  intros x Hx Hfx; apply H; exists x; split; assumption.
Qed.

(** On a continuous function with values of opposite signs at the end
    points the root finder returns, and returns a zero. *)
Lemma brentq_finds (f : R -> float) (h : R -> R) (a b : R) :
  (forall x, a <= x <= b -> f x = Fin (h x)) ->
  (forall x, a <= x <= b -> continuity_pt h x) ->
  a < b -> h a < 0 -> 0 < h b ->
  exists x, brentq f a b = Ok x /\ a <= x <= b /\ h x = 0.
Proof.
  intros Hf Hc Hab Ha Hb.
  destruct (IVT_interv h a b Hc Hab Ha Hb) as [z [Hz Hhz]].
  unfold brentq.
  rewrite (Hf a), (Hf b) by lra.
  destruct (positive_dec (fmul (Fin (h a)) (Fin (h b)))) as [Hp |].
  { simpl in Hp; nra. }
  destruct (is_zero_dec (Fin (h a))) as [E |].
  { injection E as E; lra. }
  destruct (is_zero_dec (Fin (h b))) as [E |].
  { injection E as E; lra. }
  destruct (excluded_middle_informative _) as [H | H].
  - destruct (constructive_indefinite_description _ H) as [x [Hx Hfx]]; simpl.
    exists x; repeat split; try lra.
    rewrite (Hf x Hx) in Hfx; injection Hfx; trivial.
  - exfalso; apply H; exists z; split; [exact Hz |].
    rewrite (Hf z Hz), Hhz; reflexivity.
Qed.

Lemma usable_or_zero (idx a2 : list R) :
  Forall2 (fun i a => 0 < i /\ 0 <= a) idx a2 ->
  usable idx a2 \/ Forall (fun a => a = 0) a2.
Proof.
  intros HF; induction HF as [| i a idx' a2' [Hi Ha] HF IH].
  - right; constructor.
  - destruct (Rle_lt_or_eq_dec 0 a Ha) as [Hlt | Heq].
    + left; apply usable_here; assumption.
    + destruct IH as [IH | IH].
      * left; apply usable_later; assumption.
      * right; constructor; [symmetry; exact Heq | exact IH].
Qed.

Lemma shape_idx_pos (idx a2 : list R) :
  Forall2 (fun i a => 0 < i /\ 0 <= a) idx a2 -> Forall (fun i => 0 < i) idx.
Proof.
  intros HF; induction HF as [| i a idx' a2' [Hi _] _ IH];
    constructor; assumption.
Qed.

(** The bandwidth equation on the arrays of the solver: the outcomes. *)
Section Solver.

Variables (M : nat) (idx a2 : list R).
Hypothesis M_pos : (0 < M)%nat.

Local Abbreviation eqn :=
  (bandwidth_equation M (map Fin idx) (map Fin a2)).

Lemma INR_M_pos : 0 < INR M.
Proof. apply lt_0_INR; exact M_pos. Qed.

Lemma equation_fin (t : R) :
  usable idx a2 -> eqn t = Fin (g (INR M) idx a2 t).
Proof.
  intros HU; exact (fixed_point_fin t (INR M) idx a2 INR_M_pos HU).
Qed.

Lemma equation_zero (t : R) :
  Forall (fun i => 0 < i) idx -> Forall (fun a => a = 0) a2 -> eqn t = NInf.
Proof.
  intros HI HZ; exact (fixed_point_zero t (INR M) idx a2 INR_M_pos HI HZ).
Qed.

Lemma solver_finds :
  usable idx a2 -> 0 < g (INR M) idx a2 (1 / 10) ->
  exists t, brentq eqn 0 (1 / 10) = Ok t
            /\ 0 < t <= 1 / 10 /\ g (INR M) idx a2 t = 0.
Proof.
  intros HU Hpos.
  destruct (brentq_finds eqn (g (INR M) idx a2) 0 (1 / 10)) as [t [E [Ht Hg]]].
  - intros x _; apply equation_fin; exact HU.
  - intros x _; apply cont_g; [apply INR_M_pos | exact HU].
  - lra.
  - apply g_zero_neg.
  - exact Hpos.
  - exists t; repeat split; try assumption; try lra.
    apply (g_root_pos (INR M) idx a2); exact Hg.
Qed.

Lemma solver_no_sign_change :
  usable idx a2 -> g (INR M) idx a2 (1 / 10) < 0 ->
  brentq eqn 0 (1 / 10)
  = Raise (ValueError "f(a) and f(b) must have different signs").
Proof.
  intros HU Hneg; apply brentq_same_sign.
  rewrite !equation_fin by exact HU; simpl.
  pose proof g_zero_neg (INR M) idx a2; nra.
Qed.

Lemma solver_zero_spectrum :
  Forall (fun i => 0 < i) idx -> Forall (fun a => a = 0) a2 ->
  brentq eqn 0 (1 / 10)
  = Raise (ValueError "f(a) and f(b) must have different signs").
Proof.
  intros HI HZ; apply brentq_same_sign.
  rewrite !equation_zero by assumption; exact Logic.I.
Qed.

Lemma solver_Ok (t : R) :
  Forall2 (fun i a => 0 < i /\ 0 <= a) idx a2 ->
  brentq eqn 0 (1 / 10) = Ok t ->
  usable idx a2 /\ 0 < t <= 1 / 10 /\ g (INR M) idx a2 t = 0.
Proof.
  intros HF E.
  destruct (usable_or_zero idx a2 HF) as [HU | HZ].
  - apply brentq_Ok in E; [| lra].
    destruct E as [Ht [Hz _]].
    rewrite equation_fin in Hz by exact HU.
    injection Hz as Hz.
    repeat split; try assumption; try lra.
    apply (g_root_pos (INR M) idx a2); exact Hz.
  - rewrite solver_zero_spectrum in E; [discriminate | | exact HZ].
    apply (shape_idx_pos idx a2 HF).
Qed.

(** On the arrays of [kde] the root finder either rejects the bracket or
    returns a zero of [g]: the equation is continuous wherever it is finite,
    so the case of a bracket without a zero does not arise. *)
Lemma solver_outcomes :
  Forall2 (fun i a => 0 < i /\ 0 <= a) idx a2 ->
  brentq eqn 0 (1 / 10)
  = Raise (ValueError "f(a) and f(b) must have different signs")
  \/ exists t, brentq eqn 0 (1 / 10) = Ok t
               /\ 0 < t <= 1 / 10 /\ g (INR M) idx a2 t = 0.
Proof.
  intros HF.
  destruct (usable_or_zero idx a2 HF) as [HU | HZ].
  - destruct (Rtotal_order (g (INR M) idx a2 (1 / 10)) 0) as [Hn | [Hz | Hp]].
    + left; apply solver_no_sign_change; assumption.
    + right; exists (1 / 10); repeat split; try lra.
      unfold brentq.
      rewrite !equation_fin by exact HU.
      pose proof (g_zero_neg (INR M) idx a2) as H0.
      destruct (positive_dec _) as [Hpos |]; [simpl in Hpos; nra |].
      destruct (is_zero_dec (Fin (g (INR M) idx a2 0))) as [E |];
        [injection E as E; lra |].
      destruct (is_zero_dec (Fin (g (INR M) idx a2 (1 / 10)))) as [| Hnz];
        [reflexivity | contradiction Hnz; unfold is_zero; rewrite Hz; reflexivity].
    + right; destruct (solver_finds HU Hp) as [t Ht]; exists t; exact Ht.
  - left; apply solver_zero_spectrum; [| exact HZ].
    apply (shape_idx_pos idx a2 HF).
Qed.

End Solver.

(** ** Numerical bounds *)

Lemma PI_gt_3 : 3 < PI.
Proof. pose proof PI2_3_2; lra. Qed.

Lemma PI_le_315 : PI <= 63 / 20.
Proof.
  destruct (PI_2_3_7_ineq 1) as [_ H].
  unfold sum_f_R0, tg_alt, PI_2_3_7_tg, Ratan_seq in H; simpl in H.
  lra.
Qed.

Lemma PI_sq_bounds : 9 < PI ^ 2 <= 10.
Proof. pose proof PI_gt_3; pose proof PI_le_315; nra. Qed.

Lemma PI_pow_even_lower (s : nat) : 9 ^ s <= PI ^ (2 * s).
Proof.
  rewrite pow_mult; apply pow_incr.
  pose proof PI_sq_bounds; lra.
Qed.

Lemma exp_nat_le (k : nat) : exp (INR k) <= 3 ^ k.
Proof.
  induction k as [| k IH].
  - simpl; rewrite exp_0; lra.
  - rewrite S_INR, exp_plus; simpl pow.
    pose proof exp_le_3; pose proof (exp_pos 1); pose proof (exp_pos (INR k)).
    rewrite (Rmult_comm 3).
    apply Rmult_le_compat; lra.
Qed.

Lemma exp_above_minus_nat (k : nat) (x : R) : - INR k <= x -> / 3 ^ k <= exp x.
Proof.
  intros Hx.
  apply Rle_trans with (/ exp (INR k)).
  - apply Rinv_le_contravar; [apply exp_pos | apply exp_nat_le].
  - rewrite <- exp_Ropp.
    destruct (Rle_lt_or_eq_dec _ _ Hx) as [Hlt | <-]; [| lra].
    left; apply exp_increasing; exact Hlt.
Qed.

Lemma ln_half_neg : ln (1 / 2) < 0.
Proof.
  rewrite <- ln_1; apply ln_increasing; lra.
Qed.

(** A power of one half with an exponent of at least one is at most one
    half; any power of it with a positive exponent is at most one. *)
Lemma Rpower_half_le (y : R) : 1 <= y -> Rpower (1 / 2) y <= 1 / 2.
Proof.
  intros Hy.
  rewrite <- (Rpower_1 (1 / 2)) at 2 by lra.
  unfold Rpower.
  pose proof ln_half_neg.
  destruct (Rle_lt_or_eq_dec 1 y Hy) as [Hlt | <-]; [| lra].
  left; apply exp_increasing; nra.
Qed.

Lemma Rpower_half_le_1 (y : R) : 0 <= y -> Rpower (1 / 2) y <= 1.
Proof.
  intros Hy; unfold Rpower.
  apply Rle_trans with (exp 0); [| rewrite exp_0; lra].
  pose proof ln_half_neg.
  destruct (Rle_lt_or_eq_dec 0 y Hy) as [Hlt | <-]; [| rewrite Rmult_0_l; lra].
  left; apply exp_increasing.
  assert (0 < y * - ln (1 / 2)) by (apply Rmult_lt_0_compat; lra).
  lra.
Qed.

Lemma const_le (s : nat) : const s <= 2 / 3.
Proof.
  unfold const.
  pose proof (Rpower_half_le_1 (INR s + 1 / 2)) as H.
  pose proof (pos_INR s).
  assert (Rpower (1 / 2) (INR s + 1 / 2) <= 1) by (apply H; lra).
  lra.
Qed.

Lemma sqrt_2PI_ge_2 : 2 <= sqrt (2 * PI).
Proof.
  rewrite <- (sqrt_square 2) at 1 by lra.
  apply sqrt_le_1_alt.
  pose proof PI_gt_3; lra.
Qed.

Lemma K0_le (s : nat) : K0 s <= np_prod (xrange_odd s) / 2.
Proof.
  unfold K0, Rdiv.
  apply Rmult_le_compat_l; [left; apply np_prod_pos |].
  apply Rinv_le_contravar; [lra | apply sqrt_2PI_ge_2].
Qed.

(** The exponent [2/(3+2s)] brings a base below [(1/2)^(s+2)] below [1/2]. *)
Lemma time_power_le_half (s : nat) (base : R) :
  0 < base -> base <= (1 / 2) ^ (s + 2) ->
  Rpower base (2 / (3 + 2 * INR s)) <= 1 / 2.
Proof.
  intros Hpos Hle.
  pose proof (time_exponent_pos s) as He.
  apply Rle_trans with (Rpower ((1 / 2) ^ (s + 2)) (2 / (3 + 2 * INR s))).
  - apply Rle_Rpower_l; [lra | split; assumption].
  - rewrite <- Rpower_pow by lra.
    rewrite Rpower_mult.
    apply Rpower_half_le.
    rewrite plus_INR; simpl INR.
    pose proof (pos_INR s).
    apply Rmult_le_reg_r with (3 + 2 * INR s); [lra |].
    unfold Rdiv; rewrite !Rmult_assoc, Rinv_l by lra.
    lra.
Qed.

Lemma Rpower_lt_tenth (X : R) :
  0 < X -> 10 ^ 5 < X ^ 2 -> Rpower X (- 2 / 5) < 1 / 10.
Proof.
  intros HX Hsq.
  assert (Hln : 5 * ln 10 < 2 * ln X).
  { replace (5 * ln 10) with (INR 5 * ln 10) by (simpl; lra).
    replace (2 * ln X) with (INR 2 * ln X) by (simpl; lra).
    rewrite <- !ln_pow by lra.
    apply ln_increasing; [apply pow_lt; lra | exact Hsq]. }
  replace (1 / 10) with (exp (- ln 10)).
  - unfold Rpower; apply exp_increasing; lra.
  - rewrite exp_Ropp, exp_ln by lra; lra.
Qed.

Lemma pow_half_two (n : nat) : (1 / 2) ^ n * 2 ^ n = 1.
Proof.
  induction n as [| n IH]; simpl; [lra |].
  replace (1 / 2 * (1 / 2) ^ n * (2 * 2 ^ n)) with ((1 / 2) ^ n * 2 ^ n) by field.
  exact IH.
Qed.

(** A spectrum with the single frequency [idx = 1]. *)
Section OneFrequency.

Variables (i a M : R).
Hypothesis i_one : i = 1.
Hypothesis a_lower : 1 / 16 <= a.
Hypothesis M_lower : 4000 <= M.

Lemma phi_single (s : nat) (tm : R) :
  phi s [i] [a] tm = 2 * PI ^ (2 * s) * (a * exp (- (PI ^ 2 * tm))).
Proof.
  unfold phi, Rsum; cbn [map2 fold_right].
  rewrite i_one, pow1.
  replace (- (1) * PI ^ 2 * tm) with (- (PI ^ 2 * tm)) by ring.
  ring.
Qed.

Lemma single_usable : usable [i] [a].
Proof. apply usable_here; [lra | lra | constructor]. Qed.

Lemma phi_single_lower (s k : nat) (tm : R) :
  0 <= tm -> 10 * tm <= INR k ->
  9 ^ s / (8 * 3 ^ k) <= phi s [i] [a] tm.
Proof.
  intros H0 Hk; rewrite phi_single.
  assert (He : / 3 ^ k <= exp (- (PI ^ 2 * tm))).
  { apply exp_above_minus_nat.
    pose proof PI_sq_bounds; nra. }
  pose proof (PI_pow_even_lower s) as Hp.
  assert (H9 : 0 < 9 ^ s) by (apply pow_lt; lra).
  assert (H3 : 0 < / 3 ^ k) by (apply Rinv_0_lt_compat, pow_lt; lra).
  assert (Hae : / 16 * / 3 ^ k <= a * exp (- (PI ^ 2 * tm))).
  { apply Rmult_le_compat; lra. }
  assert (Hm : 9 ^ s * (/ 16 * / 3 ^ k)
               <= PI ^ (2 * s) * (a * exp (- (PI ^ 2 * tm)))).
  { apply Rmult_le_compat; lra. }
  replace (9 ^ s / (8 * 3 ^ k)) with (2 * (9 ^ s * (/ 16 * / 3 ^ k))).
  - lra.
  - field; apply pow_nonzero; lra.
Qed.

Lemma time_single_upper (s : nat) (f L : R) :
  0 < L -> L <= f ->
  2 / 3 * np_prod (xrange_odd s) * 2 ^ (s + 2) <= 4000 * L ->
  time_of s M f <= 1 / 2.
Proof.
  intros HL Hf Hside; unfold time_of.
  assert (HM : 0 < M) by lra.
  assert (Hf0 : 0 < f) by lra.
  apply time_power_le_half; [apply time_base_pos; assumption |].
  pose proof (const_le s) as Hc; pose proof (const_pos s) as Hc0.
  pose proof (K0_le s) as HK; pose proof (K0_pos s) as HK0.
  pose proof (np_prod_pos s) as Hodd.
  assert (H2 : 0 < 2 ^ (s + 2)) by (apply pow_lt; lra).
  assert (Hnum : 2 * const s * K0 s <= 2 / 3 * np_prod (xrange_odd s)) by nra.
  assert (Hden : 4000 * L <= M * f) by nra.
  assert (HMf : 0 < M * f) by nra.
  apply Rmult_le_reg_r with (2 ^ (s + 2)); [exact H2 |].
  rewrite pow_half_two.
  apply Rmult_le_reg_r with (M * f); [exact HMf |].
  replace (2 * const s * K0 s / (M * f) * 2 ^ (s + 2) * (M * f))
    with (2 * const s * K0 s * 2 ^ (s + 2)) by (field; lra).
  apply Rle_trans with (2 / 3 * np_prod (xrange_odd s) * 2 ^ (s + 2));
    [| lra].
  apply Rmult_le_compat_r; [lra | exact Hnum].
Qed.

Lemma step_single_lower (s : nat) (f L : R) :
  0 < L -> L <= f ->
  2 / 3 * np_prod (xrange_odd s) * 2 ^ (s + 2) <= 4000 * L ->
  9 ^ s / 1944 <= step_of M [i] [a] f s.
Proof.
  intros HL Hf Hside; unfold step_of.
  pose proof (time_single_upper s f L HL Hf Hside) as Ht.
  pose proof (time_of_pos s M f) as Ht0.
  replace 1944 with (8 * 3 ^ 5) by (simpl; lra).
  apply phi_single_lower; [lra | simpl; lra].
Qed.

End OneFrequency.

Lemma sqrt_PI_ge_1 : 1 <= sqrt PI.
Proof.
  rewrite <- sqrt_1 at 1.
  apply sqrt_le_1_alt; pose proof PI_gt_3; lra.
Qed.

(** With one frequency, at least four thousand samples and a squared
    coefficient of at least one sixteenth, [g] is positive at the right end
    of the bracket. *)
Lemma g_single_tenth_pos (i a M : R) :
  i = 1 -> 1 / 16 <= a -> 4000 <= M -> 0 < g M [i] [a] (1 / 10).
Proof.
  intros Hi Ha HM; unfold g, descent; cbn [fold_left].
  set (f0 := phi 7 [i] [a] (1 / 10)).
  assert (H0 : 9 ^ 7 / (8 * 3 ^ 1) <= f0).
  { apply phi_single_lower; try assumption; [lra | simpl; lra]. }
  set (f1 := step_of M [i] [a] f0 7).
  assert (H1 : 9 ^ 7 / 1944 <= f1).
  { apply step_single_lower with (L := 9 ^ 7 / (8 * 3 ^ 1)); try assumption;
      numeric_side. }
  set (f2 := step_of M [i] [a] f1 6).
  assert (H2 : 9 ^ 6 / 1944 <= f2).
  { apply step_single_lower with (L := 9 ^ 7 / 1944); try assumption;
      numeric_side. }
  set (f3 := step_of M [i] [a] f2 5).
  assert (H3 : 9 ^ 5 / 1944 <= f3).
  { apply step_single_lower with (L := 9 ^ 6 / 1944); try assumption;
      numeric_side. }
  set (f4 := step_of M [i] [a] f3 4).
  assert (H4 : 9 ^ 4 / 1944 <= f4).
  { apply step_single_lower with (L := 9 ^ 5 / 1944); try assumption;
      numeric_side. }
  set (f5 := step_of M [i] [a] f4 3).
  assert (H5 : 9 ^ 3 / 1944 <= f5).
  { apply step_single_lower with (L := 9 ^ 4 / 1944); try assumption;
      numeric_side. }
  set (f6 := step_of M [i] [a] f5 2).
  assert (H6 : 9 ^ 2 / 1944 <= f6).
  { apply step_single_lower with (L := 9 ^ 3 / 1944); try assumption;
      numeric_side. }
  clearbody f6; clear - HM H6.
  assert (H6' : 1 / 24 <= f6) by (simpl in H6; lra).
  pose proof sqrt_PI_ge_1 as Hs.
  assert (HX : 1000 / 3 <= 2 * M * sqrt PI * f6).
  { assert (8000 <= 2 * M * sqrt PI) by nra.
    nra. }
  assert (Rpower (2 * M * sqrt PI * f6) (- 2 / 5) < 1 / 10).
  { apply Rpower_lt_tenth; [lra |].
    simpl; nra. }
  lra.
Qed.

(** ** The pipeline of [kde] on finite data *)

Lemma DataHist_fin (counts : list nat) (M : nat) :
  (0 < M)%nat -> DataHist counts M = map Fin (mass counts M).
Proof.
  intros HM; unfold DataHist, mass.
  rewrite map_map; apply map_ext; intros c.
  apply fdiv_fin, not_0_INR; lia.
Qed.

Lemma dct_fin (x : list R) : dct (map Fin x) = map Fin (dct_real x).
Proof.
  unfold dct, dct_real.
  rewrite length_map, map_map.
  apply map_ext; intros k.
  rewrite map2_map_l.
  rewrite (map2_ext _ (fun xn n => Fin (xn * dct_cos (List.length x) k n)))
    by reflexivity.
  rewrite <- map_map2, sum_fin; reflexivity.
Qed.

Lemma SqDCTData_fin (c : list R) : SqDCTData (map Fin c) = map Fin (a2_of c).
Proof.
  unfold SqDCTData, a2_of.
  destruct c as [| c0 c]; [reflexivity |].
  cbn [map tl]; rewrite !map_map.
  apply map_ext; intros x.
  rewrite fdiv_fin by lra.
  apply fpown_fin.
Qed.

Lemma moment_index_fin (N : nat) : moment_index N = map Fin (idx_of N).
Proof. unfold moment_index, idx_of; rewrite map_map; reflexivity. Qed.

Lemma dct_real_length (x : list R) :
  List.length (dct_real x) = List.length x.
Proof. unfold dct_real; rewrite length_map, length_seq; reflexivity. Qed.

Lemma dct_length (x : list float) : List.length (dct x) = List.length x.
Proof. unfold dct; rewrite length_map, length_seq; reflexivity. Qed.

Lemma idct_length (y : list float) : List.length (idct y) = List.length y.
Proof. unfold idct; rewrite length_map, length_seq; reflexivity. Qed.

(** The arrays handed to the solver have positive index terms and squared
    coefficients that are not negative. *)
Lemma solver_arrays_shape (c : list R) (N : nat) :
  List.length c = N ->
  Forall2 (fun i a => 0 < i /\ 0 <= a) (idx_of N) (a2_of c).
Proof.
  intros <-; unfold idx_of, a2_of.
  destruct c as [| c0 c]; simpl; [constructor |].
  rewrite Nat.sub_0_r.
  generalize 0%nat; induction c as [| c1 c IH]; intros b; simpl;
    constructor.
  - split; [| nra].
    pose proof (pos_INR b); nra.
  - apply IH.
Qed.

(** [kde] once the bounds and the histogram are known, for a non-empty
    sample. *)
Lemma kde_pipeline (data : list R) (N : nat) (MIN MAX : option R)
      (lo hi : R) (counts : list nat) (bins : list R) :
  bounds data MIN MAX = Ok (lo, hi) ->
  np_histogram data (grid_size N) (lo, hi) = Ok (counts, bins) ->
  (0 < List.length data)%nat ->
  let M := List.length data in
  let c := dct_real (mass counts M) in
  kde data N MIN MAX =
  (t_star <- brentq (bandwidth_equation M (map Fin (idx_of (grid_size N)))
                                        (map Fin (a2_of c))) 0 (1 / 10) ;;
   Ok (sqrt t_star * (hi - lo), mesh bins (grid_size N),
       density (SmDCTData (map Fin c) (grid_size N) t_star)
               (grid_size N) (hi - lo))).
Proof.
  intros Hb Hh HM M c; unfold kde.
  rewrite Hb; cbn [bind].
  rewrite Hh; cbn [bind].
  fold M.
  rewrite DataHist_fin by exact HM.
  rewrite dct_fin, SqDCTData_fin, moment_index_fin.
  reflexivity.
Qed.

(** ** The histogram *)

Lemma nth_map_seq {A : Type} (f : nat -> A) (n i : nat) (d : A) :
  (i < n)%nat -> nth i (map f (seq 0 n)) d = f i.
Proof.
  intros Hi.
  rewrite (nth_indep _ d (f 0%nat)) by (rewrite length_map, length_seq; exact Hi).
  rewrite map_nth, seq_nth by exact Hi; reflexivity.
Qed.

Lemma nth_linspace (lo hi : R) (bins i : nat) :
  (i <= bins)%nat -> nth i (linspace lo hi (bins + 1)) 0 = edge lo hi bins i.
Proof.
  intros Hi; unfold linspace, edge.
  rewrite nth_map_seq by lia.
  replace (bins + 1 - 1)%nat with bins by lia; reflexivity.
Qed.

Lemma linspace_length (lo hi : R) (num : nat) :
  List.length (linspace lo hi num) = num.
Proof. unfold linspace; rewrite length_map, length_seq; reflexivity. Qed.

Lemma edge_0 (lo hi : R) (bins : nat) : edge lo hi bins 0 = lo.
Proof. unfold edge; simpl; ring. Qed.

Lemma edge_last (lo hi : R) (bins : nat) :
  (0 < bins)%nat -> edge lo hi bins bins = hi.
Proof.
  intros Hb; unfold edge; field.
  apply not_0_INR; lia.
Qed.

Lemma edge_step (lo hi : R) (bins i : nat) :
  lo < hi -> (0 < bins)%nat -> edge lo hi bins i < edge lo hi bins (S i).
Proof.
  intros Hlh Hb; unfold edge; rewrite S_INR.
  assert (0 < (hi - lo) / INR bins).
  { apply Rdiv_lt_0_compat; [lra | apply lt_0_INR; exact Hb]. }
  lra.
Qed.

Lemma count_cons (p : R -> bool) (x : R) (l : list R) :
  count p (x :: l) = (b2n (p x) + count p l)%nat.
Proof. unfold count; simpl; destruct (p x); reflexivity. Qed.

Lemma count_repeat (p : R -> bool) (x : R) (n : nat) :
  count p (repeat x n) = (b2n (p x) * n)%nat.
Proof.
  induction n as [| n IH]; simpl repeat.
  - unfold count; simpl; lia.
  - rewrite count_cons, IH; lia.
Qed.

Lemma count_all (p : R -> bool) (l : list R) :
  Forall (fun x => p x = true) l -> count p l = List.length l.
Proof.
  induction 1 as [| x l Hx _ IH]; [reflexivity |].
  rewrite count_cons, Hx, IH; reflexivity.
Qed.

Lemma count_none (p : R -> bool) (l : list R) :
  Forall (fun x => p x = false) l -> count p l = 0%nat.
Proof.
  induction 1 as [| x l Hx _ IH]; [reflexivity |].
  rewrite count_cons, Hx, IH; reflexivity.
Qed.

Lemma list_sum_map_add (f h : nat -> nat) (l : list nat) :
  list_sum (map (fun i => (f i + h i)%nat) l)
  = (list_sum (map f l) + list_sum (map h l))%nat.
Proof. induction l as [| i l IH]; simpl; lia. Qed.

Section Bins.

Variables (lo hi : R) (bins : nat).
Hypothesis lo_lt_hi : lo < hi.
Hypothesis bins_pos : (0 < bins)%nat.

Local Abbreviation edges := (linspace lo hi (bins + 1)).
Local Abbreviation e := (edge lo hi bins).

Lemma edge_mono (i : nat) : e 0%nat <= e i.
Proof.
  induction i as [| i IH]; [lra |].
  pose proof (edge_step lo hi bins i lo_lt_hi bins_pos); lra.
Qed.

Lemma in_bin_inner (i : nat) (x : R) :
  (S i < bins)%nat ->
  in_bin edges bins i x = Rleb (e i) x && Rltb x (e (S i)).
Proof.
  intros Hi; unfold in_bin.
  rewrite !nth_linspace by lia.
  destruct (Nat.eqb_spec (S i) bins); [lia | reflexivity].
Qed.

Lemma in_bin_last (x : R) :
  in_bin edges bins (bins - 1) x = Rleb (e (bins - 1)%nat) x && Rleb x hi.
Proof.
  unfold in_bin.
  rewrite !nth_linspace by lia.
  replace (S (bins - 1)) with bins by lia.
  rewrite Nat.eqb_refl, edge_last by exact bins_pos; reflexivity.
Qed.

Lemma half_open_prefix (k : nat) (x : R) :
  list_sum (map (fun i => b2n (Rleb (e i) x && Rltb x (e (S i)))) (seq 0 k))
  = b2n (Rleb lo x && Rltb x (e k)).
Proof.
  induction k as [| k IH].
  - simpl; rewrite edge_0; cmp.
  - rewrite seq_S, map_app, list_sum_app, IH; simpl.
    pose proof (edge_mono k) as Hm; rewrite edge_0 in Hm.
    pose proof (edge_step lo hi bins k lo_lt_hi bins_pos).
    cmp.
Qed.

(** Every sample of [[lo, hi]] lies in exactly one bin, every other sample
    in none. *)
Lemma bins_partition (x : R) :
  list_sum (map (fun i => b2n (in_bin edges bins i x)) (seq 0 bins))
  = b2n (inside lo hi x).
Proof.
  assert (Hseq : seq 0 bins = seq 0 (bins - 1) ++ [(bins - 1)%nat]).
  { replace bins with (S (bins - 1)) at 1 by lia.
    rewrite seq_S; reflexivity. }
  rewrite Hseq, map_app, list_sum_app; simpl.
  rewrite (map_ext_in _ (fun i => b2n (Rleb (e i) x && Rltb x (e (S i))))).
  - rewrite half_open_prefix, in_bin_last.
    pose proof (edge_mono (bins - 1)) as Hm; rewrite edge_0 in Hm.
    pose proof (edge_step lo hi bins (bins - 1) lo_lt_hi bins_pos) as Hs.
    replace (S (bins - 1)) with bins in Hs by lia.
    rewrite edge_last in Hs by exact bins_pos.
    cmp.
  - intros i Hi; apply in_seq in Hi.
    rewrite in_bin_inner by lia; reflexivity.
Qed.

Lemma bins_total (a : list R) :
  list_sum (map (fun i => count (in_bin edges bins i) a) (seq 0 bins))
  = count (inside lo hi) a.
Proof.
  induction a as [| x a IH].
  - unfold count; simpl.
    induction (seq 0 bins) as [| i l IHl]; simpl; auto.
  - rewrite count_cons, <- IH, <- bins_partition.
    rewrite <- list_sum_map_add.
    f_equal; apply map_ext; intros i; apply count_cons.
Qed.

End Bins.

Lemma np_histogram_Ok (a : list R) (bins : nat) (lo hi : R) :
  lo < hi -> (0 < bins)%nat ->
  np_histogram a bins (lo, hi)
  = Ok (map (fun i => count (in_bin (linspace lo hi (bins + 1)) bins i) a)
            (seq 0 bins),
        linspace lo hi (bins + 1)).
Proof.
  intros Hlh Hb; unfold np_histogram.
  destruct (Rlt_dec hi lo); [lra |].
  destruct (Nat.ltb_spec bins 1); [lia |].
  destruct (Req_dec_T lo hi); [lra | reflexivity].
Qed.

(** An empty range is widened by one half on each side. *)
Lemma np_histogram_flat (a : list R) (bins : nat) (v : R) :
  (0 < bins)%nat ->
  np_histogram a bins (v, v)
  = Ok (map (fun i =>
               count (in_bin (linspace (v - 1 / 2) (v + 1 / 2) (bins + 1))
                             bins i) a)
            (seq 0 bins),
        linspace (v - 1 / 2) (v + 1 / 2) (bins + 1)).
Proof.
  intros Hb; unfold np_histogram.
  destruct (Rlt_dec v v); [lra |].
  destruct (Nat.ltb_spec bins 1); [lia |].
  destruct (Req_dec_T v v) as [_ | Hne]; [reflexivity | contradiction Hne; reflexivity].
Qed.

Lemma np_histogram_length (a : list R) (bins : nat) (r : R * R)
      (counts : list nat) (edges : list R) :
  np_histogram a bins r = Ok (counts, edges) ->
  List.length counts = bins /\ List.length edges = (bins + 1)%nat.
Proof.
  unfold np_histogram; destruct r as [mn mx].
  destruct (Rlt_dec mx mn); [discriminate |].
  destruct (Nat.ltb bins 1); [discriminate |].
  destruct (Req_dec_T mn mx); intros E; injection E as <- <-;
    rewrite length_map, length_seq, linspace_length; auto.
Qed.

Lemma Rsum_mass (counts : list nat) (M : nat) :
  Rsum (mass counts M) = INR (list_sum counts) / INR M.
Proof.
  unfold mass; induction counts as [| c counts IH]; simpl.
  - unfold Rdiv; ring.
  - rewrite IH, plus_INR; unfold Rdiv; ring.
Qed.

Lemma mass_nonneg (counts : list nat) (M : nat) :
  Forall (fun m => 0 <= m) (mass counts M).
Proof.
  unfold mass; apply Forall_forall; intros m Hm.
  apply in_map_iff in Hm; destruct Hm as [c [<- _]].
  destruct M as [| M].
  - simpl INR; unfold Rdiv; rewrite Rinv_0; lra.
  - apply Rmult_le_pos; [apply pos_INR |].
    left; apply Rinv_0_lt_compat, lt_0_INR; lia.
Qed.

Lemma in_bin_spec (lo hi : R) (bins i : nat) (x : R) :
  (i < bins)%nat ->
  in_bin (linspace lo hi (bins + 1)) bins i x = true <->
  edge lo hi bins i <= x /\
  (if Nat.eqb (S i) bins then x <= edge lo hi bins (S i)
   else x < edge lo hi bins (S i)).
Proof.
  intros Hi; unfold in_bin.
  rewrite !nth_linspace by lia.
  destruct (Nat.eqb (S i) bins); rewrite andb_true_iff; unfold Rleb, Rltb;
    repeat match goal with
           | |- context [Rle_dec ?x ?y] => destruct (Rle_dec x y)
           | |- context [Rlt_dec ?x ?y] => destruct (Rlt_dec x y)
           end; intuition (try discriminate; try lra).
Qed.

Lemma inside_true (lo hi x : R) : inside lo hi x = true <-> lo <= x <= hi.
Proof.
  unfold inside, Rleb; rewrite andb_true_iff.
  destruct (Rle_dec lo x), (Rle_dec x hi);
    intuition (try discriminate; try lra).
Qed.

(** ** The grid size *)

Lemma ln_2_pos : 0 < ln 2.
Proof. pose proof ln_lt_2; lra. Qed.

Lemma ln_le_compat (x y : R) : 0 < x -> x <= y -> ln x <= ln y.
Proof.
  intros Hx [Hlt | ->]; [left; apply ln_increasing; assumption | lra].
Qed.

Lemma ln_le_reflect (x y : R) : 0 < x -> 0 < y -> ln x <= ln y -> x <= y.
Proof.
  intros Hx Hy [Hlt | Heq].
  - left; apply ln_lt_inv; assumption.
  - right; apply ln_inv; assumption.
Qed.

Lemma np_log2_pow (j : nat) : np_log2 (2 ^ j) = INR j.
Proof.
  unfold np_log2; rewrite ln_pow by lra.
  pose proof ln_2_pos; field; lra.
Qed.

Lemma np_log2_le_iff (n j : nat) :
  (0 < n)%nat -> (n <= 2 ^ j)%nat <-> np_log2 (INR n) <= INR j.
Proof.
  intros Hn.
  assert (Hn' : 0 < INR n) by (apply lt_0_INR; exact Hn).
  assert (H2 : 0 < 2 ^ j) by (apply pow_lt; lra).
  pose proof ln_2_pos as Hl.
  rewrite <- (np_log2_pow j); unfold np_log2.
  split; intros H.
  - apply Rmult_le_compat_r; [left; apply Rinv_0_lt_compat; exact Hl |].
    apply ln_le_compat; [exact Hn' |].
    apply le_INR in H; rewrite pow_INR in H; exact H.
  - apply INR_le; rewrite pow_INR; simpl INR.
    replace (1 + 1) with 2 by lra.
    apply ln_le_reflect; try assumption.
    apply Rmult_le_reg_r with (/ ln 2); [apply Rinv_0_lt_compat; exact Hl |].
    exact H.
Qed.

Lemma np_ceil_log2_nonneg (n : nat) :
  (0 < n)%nat -> (0 <= np_ceil (np_log2 (INR n)))%Z.
Proof.
  intros Hn; unfold np_ceil.
  destruct (Zceil_bound (np_log2 (INR n))) as [_ Hub].
  assert (0 <= np_log2 (INR n)).
  { unfold np_log2; apply Rmult_le_pos.
    - rewrite <- ln_1; apply ln_le_compat; [lra |].
      change 1 with (INR 1); apply le_INR; lia.
    - left; apply Rinv_0_lt_compat, ln_2_pos. }
  apply le_IZR; lra.
Qed.

Lemma grid_size_eq (n : nat) :
  (0 < n)%nat ->
  grid_size n = (2 ^ Z.to_nat (np_ceil (np_log2 (INR n))))%nat.
Proof. destruct n; [lia | reflexivity]. Qed.

Lemma grid_size_ge (n : nat) : (0 < n)%nat -> (n <= grid_size n)%nat.
Proof.
  intros Hn; rewrite grid_size_eq by exact Hn.
  apply np_log2_le_iff; [exact Hn |].
  rewrite (INR_IZR_INZ (Z.to_nat _)).
  rewrite Z2Nat.id by (apply np_ceil_log2_nonneg; exact Hn).
  apply Zceil_bound.
Qed.

Lemma grid_size_least (n j : nat) :
  (0 < n)%nat -> (n <= 2 ^ j)%nat -> (grid_size n <= 2 ^ j)%nat.
Proof.
  intros Hn Hj; rewrite grid_size_eq by exact Hn.
  apply Nat.pow_le_mono_r; [lia |].
  apply np_log2_le_iff in Hj; [| exact Hn].
  destruct (Zceil_bound (np_log2 (INR n))) as [Hlb _].
  pose proof (np_ceil_log2_nonneg n Hn) as H0.
  unfold np_ceil in *.
  assert (Hz : (Zceil (np_log2 (INR n)) < Z.of_nat j + 1)%Z).
  { apply lt_IZR; rewrite plus_IZR, <- INR_IZR_INZ; lra. }
  lia.
Qed.

Lemma grid_size_pow2 (n : nat) : (0 < n)%nat -> is_pow2 (grid_size n).
Proof.
  intros Hn; rewrite grid_size_eq by exact Hn.
  eexists; reflexivity.
Qed.

Lemma grid_size_fixed (n : nat) : is_pow2 n -> grid_size n = n.
Proof.
  intros [j ->].
  assert (H0 : (0 < 2 ^ j)%nat) by (apply Nat.neq_0_lt_0, Nat.pow_nonzero; lia).
  apply Nat.le_antisymm.
  - apply grid_size_least; [exact H0 | lia].
  - apply grid_size_ge; exact H0.
Qed.

Lemma grid_size_pos (n : nat) : (0 < n)%nat -> (0 < grid_size n)%nat.
Proof. intros Hn; pose proof (grid_size_ge n Hn); lia. Qed.

(** ** The bounds *)

Lemma fold_Rmin_le (l : list R) (x : R) :
  fold_left Rmin l x <= x /\ Forall (fun z => fold_left Rmin l x <= z) l.
Proof.
  revert x; induction l as [| y l IH]; intros x; simpl.
  - split; [lra | constructor].
  - destruct (IH (Rmin x y)) as [H1 H2].
    pose proof (Rmin_l x y); pose proof (Rmin_r x y).
    split; [lra |].
    constructor; [lra | exact H2].
Qed.

Lemma fold_Rmax_ge (l : list R) (x : R) :
  x <= fold_left Rmax l x /\ Forall (fun z => z <= fold_left Rmax l x) l.
Proof.
  revert x; induction l as [| y l IH]; intros x; simpl.
  - split; [lra | constructor].
  - destruct (IH (Rmax x y)) as [H1 H2].
    pose proof (Rmax_l x y); pose proof (Rmax_r x y).
    split; [lra |].
    constructor; [lra | exact H2].
Qed.

Lemma fold_Rmin_in (l : list R) (x : R) : In (fold_left Rmin l x) (x :: l).
Proof.
  revert x; induction l as [| y l IH]; intros x; simpl.
  - left; reflexivity.
  - destruct (IH (Rmin x y)) as [H | H].
    + unfold Rmin in H at 1; destruct (Rle_dec x y); auto.
    + right; right; exact H.
Qed.

Lemma fold_Rmax_in (l : list R) (x : R) : In (fold_left Rmax l x) (x :: l).
Proof.
  revert x; induction l as [| y l IH]; intros x; simpl.
  - left; reflexivity.
  - destruct (IH (Rmax x y)) as [H | H].
    + unfold Rmax in H at 1; destruct (Rle_dec x y); auto.
    + right; right; exact H.
Qed.

Lemma np_min_spec (a : list R) (m : R) :
  np_min a = Ok m -> In m a /\ Forall (fun z => m <= z) a.
Proof.
  destruct a as [| x l]; simpl; [discriminate |].
  intros E; injection E as <-.
  split; [apply fold_Rmin_in |].
  destruct (fold_Rmin_le l x); constructor; assumption.
Qed.

Lemma np_max_spec (a : list R) (m : R) :
  np_max a = Ok m -> In m a /\ Forall (fun z => z <= m) a.
Proof.
  destruct a as [| x l]; simpl; [discriminate |].
  intros E; injection E as <-.
  split; [apply fold_Rmax_in |].
  destruct (fold_Rmax_ge l x); constructor; assumption.
Qed.

Lemma bounds_default (data : list R) (lo hi : R) :
  bounds data None None = Ok (lo, hi) ->
  exists minimum maximum,
    np_min data = Ok minimum /\ np_max data = Ok maximum /\
    lo = minimum - (maximum - minimum) / 10 /\
    hi = maximum + (maximum - minimum) / 10.
Proof.
  unfold bounds.
  destruct (np_min data) as [mn |]; [| discriminate].
  destruct (np_max data) as [mx |]; [| discriminate].
  cbn [bind]; intros E; injection E as <- <-.
  exists mn, mx; auto.
Qed.

Lemma bounds_default_Ok (data : list R) (mn mx : R) :
  np_min data = Ok mn -> np_max data = Ok mx ->
  bounds data None None
  = Ok (mn - (mx - mn) / 10, mx + (mx - mn) / 10).
Proof. intros H1 H2; unfold bounds; rewrite H1, H2; reflexivity. Qed.

Lemma bounds_empty (MIN MAX : option R) :
  MIN = None \/ MAX = None ->
  bounds [] MIN MAX
  = Raise (ValueError
      "zero-size array to reduction operation minimum which has no identity").
Proof.
  intros [-> | ->]; [| destruct MIN]; reflexivity.
Qed.

(** Two distinct samples give default bounds with [lo < hi]. *)
Lemma bounds_default_proper (data : list R) (lo hi x y : R) :
  In x data -> In y data -> x <> y ->
  bounds data None None = Ok (lo, hi) -> lo < hi.
Proof.
  intros Hx Hy Hxy Hb.
  destruct (bounds_default data lo hi Hb) as [mn [mx [Hmn [Hmx [-> ->]]]]].
  apply np_min_spec in Hmn; destruct Hmn as [_ Hmn].
  apply np_max_spec in Hmx; destruct Hmx as [_ Hmx].
  rewrite Forall_forall in Hmn, Hmx.
  pose proof (Hmn x Hx); pose proof (Hmn y Hy).
  pose proof (Hmx x Hx); pose proof (Hmx y Hy).
  assert (mn < mx).
  { destruct (Rtotal_order x y) as [H' | [H' | H']]; [lra | contradiction | lra]. }
  lra.
Qed.

(** Samples that are all equal give default bounds of width zero. *)
Lemma bounds_default_flat (data : list R) (lo hi : R) :
  (forall x y, In x data -> In y data -> x = y) ->
  bounds data None None = Ok (lo, hi) -> hi - lo = 0.
Proof.
  intros Hsame Hb.
  destruct (bounds_default data lo hi Hb) as [mn [mx [Hmn [Hmx [-> ->]]]]].
  apply np_min_spec in Hmn; destruct Hmn as [Hmn _].
  apply np_max_spec in Hmx; destruct Hmx as [Hmx _].
  rewrite (Hsame mn mx Hmn Hmx); lra.
Qed.

(** ** Inversion of a successful call *)

Lemma kde_Ok_inv (data : list R) (N : nat) (MIN MAX : option R)
      (bw : R) (msh : list R) (dens : list float) :
  kde data N MIN MAX = Ok (bw, msh, dens) ->
  exists lo hi counts bins t_star,
    bounds data MIN MAX = Ok (lo, hi) /\
    np_histogram data (grid_size N) (lo, hi) = Ok (counts, bins) /\
    brentq (bandwidth_equation (List.length data)
              (moment_index (grid_size N))
              (SqDCTData (dct (DataHist counts (List.length data)))))
           0 (1 / 10) = Ok t_star /\
    bw = sqrt t_star * (hi - lo) /\
    msh = mesh bins (grid_size N) /\
    dens = density (SmDCTData (dct (DataHist counts (List.length data)))
                              (grid_size N) t_star)
                   (grid_size N) (hi - lo).
Proof.
  unfold kde.
  destruct (bounds data MIN MAX) as [[lo hi] |]; [| discriminate].
  cbn [bind].
  destruct (np_histogram data (grid_size N) (lo, hi)) as [[counts bins] |]
    eqn:Eh; [| discriminate].
  cbn [bind].
  destruct (brentq _ 0 (1 / 10)) as [t |] eqn:Et; [| discriminate].
  cbn [bind]; intros E; injection E as <- <- <-.
  exists lo, hi, counts, bins, t; repeat split; auto.
Qed.

Lemma nth_map2 {A B C : Type} (f : A -> B -> C) (l : list A) (l' : list B)
      (i : nat) (da : A) (db : B) (dc : C) :
  (i < List.length l)%nat -> (i < List.length l')%nat ->
  nth i (map2 f l l') dc = f (nth i l da) (nth i l' db).
Proof.
  revert l' i; induction l as [| a l IH]; intros [| b l'] [| i]; simpl;
    try lia; auto.
  intros H1 H2; apply IH; lia.
Qed.

Lemma SmDCTData_length (coeff : list float) (N : nat) (t : R) :
  List.length coeff = N -> List.length (SmDCTData coeff N t) = N.
Proof.
  intros H; unfold SmDCTData.
  rewrite map2_length, length_seq, H; lia.
Qed.

Lemma SmDCTData_nth (coeff : list float) (N : nat) (t : R) (i : nat) :
  List.length coeff = N -> (i < N)%nat ->
  nth i (SmDCTData coeff N t) NaN
  = fmul (nth i coeff NaN) (Fin (exp (- (INR i ^ 2) * PI ^ 2 * t / 2))).
Proof.
  intros H Hi; unfold SmDCTData.
  rewrite (nth_map2 _ _ _ _ NaN 0%nat) by (rewrite ?length_seq; lia).
  rewrite seq_nth by exact Hi; reflexivity.
Qed.

Lemma density_length (sm : list float) (N : nat) (R' : R) :
  List.length (density sm N R') = List.length sm.
Proof. unfold density; rewrite length_map, idct_length; reflexivity. Qed.

Lemma mesh_length (bins : list R) (N : nat) : List.length (mesh bins N) = N.
Proof. unfold mesh; rewrite length_map, length_seq; reflexivity. Qed.

(** A successful call on a non-empty sample, over the reals: the solver's
    arrays are usable and the returned time is a zero of [g]. *)
Lemma kde_Ok_real (data : list R) (N : nat) (MIN MAX : option R)
      (bw : R) (msh : list R) (dens : list float) :
  data <> [] ->
  kde data N MIN MAX = Ok (bw, msh, dens) ->
  exists lo hi counts bins t_star,
    bounds data MIN MAX = Ok (lo, hi) /\
    np_histogram data (grid_size N) (lo, hi) = Ok (counts, bins) /\
    let M := List.length data in
    let coeff := dct_real (mass counts M) in
    let idx := idx_of (grid_size N) in
    let a2 := a2_of coeff in
    usable idx a2 /\
    brentq (bandwidth_equation M (map Fin idx) (map Fin a2)) 0 (1 / 10)
    = Ok t_star /\
    0 < t_star <= 1 / 10 /\
    g (INR M) idx a2 t_star = 0 /\
    bw = sqrt t_star * (hi - lo) /\
    msh = mesh bins (grid_size N) /\
    dens = density (SmDCTData (map Fin coeff) (grid_size N) t_star)
                   (grid_size N) (hi - lo).
Proof.
  intros Hne E.
  assert (HM : (0 < List.length data)%nat).
  { destruct data; [contradiction Hne; reflexivity | simpl; lia]. }
  destruct (kde_Ok_inv _ _ _ _ _ _ _ E)
    as [lo [hi [counts [bins [t [Hb [Hh [Ht [-> [-> ->]]]]]]]]]].
  exists lo, hi, counts, bins, t.
  rewrite DataHist_fin in * by exact HM.
  rewrite dct_fin, SqDCTData_fin, moment_index_fin in Ht.
  rewrite dct_fin.
  destruct (np_histogram_length _ _ _ _ _ Hh) as [Hlen _].
  pose proof (solver_Ok (List.length data) _ _ HM t
                (solver_arrays_shape (dct_real (mass counts (List.length data)))
                   (grid_size N)
                   ltac:(rewrite dct_real_length; unfold mass;
                         rewrite length_map; exact Hlen))
                Ht) as [HU [Hrange Hg]].
  cbv zeta; repeat split; auto; lra.
Qed.

(** A call on a non-empty sample, once the bounds and the histogram are
    known, either fails with the error of the root finder or returns with a
    zero of [g]: there is no third outcome. *)
Lemma kde_outcomes (data : list R) (N : nat) (MIN MAX : option R)
      (lo hi : R) (counts : list nat) (bins : list R) :
  bounds data MIN MAX = Ok (lo, hi) ->
  np_histogram data (grid_size N) (lo, hi) = Ok (counts, bins) ->
  data <> [] ->
  let M := List.length data in
  let coeff := dct_real (mass counts M) in
  kde data N MIN MAX
  = Raise (ValueError "f(a) and f(b) must have different signs")
  \/ exists t_star,
       0 < t_star <= 1 / 10 /\
       g (INR M) (idx_of (grid_size N)) (a2_of coeff) t_star = 0 /\
       kde data N MIN MAX
       = Ok (sqrt t_star * (hi - lo), mesh bins (grid_size N),
             density (SmDCTData (map Fin coeff) (grid_size N) t_star)
                     (grid_size N) (hi - lo)).
Proof.
  intros Hb Hh Hne M coeff.
  assert (HM : (0 < M)%nat).
  { unfold M; destruct data; [contradiction Hne; reflexivity | simpl; lia]. }
  pose proof (kde_pipeline data N MIN MAX lo hi counts bins Hb Hh HM) as HK.
  cbv zeta in HK; fold M in HK; fold coeff in HK.
  destruct (np_histogram_length _ _ _ _ _ Hh) as [Hlen _].
  assert (Hshape : Forall2 (fun i a => 0 < i /\ 0 <= a)
                           (idx_of (grid_size N)) (a2_of coeff)).
  { apply solver_arrays_shape.
    unfold coeff; rewrite dct_real_length; unfold mass.
    rewrite length_map; exact Hlen. }
  destruct (solver_outcomes M _ _ HM Hshape) as [E | [t [E [Ht Hg]]]].
  - left; rewrite HK, E; reflexivity.
  - right; exists t; split; [exact Ht |]; split; [exact Hg |].
    rewrite HK, E; reflexivity.
Qed.

(** ** A grid of two bins *)

Lemma dct_scale_2_1 : dct_scale 2 1 = 1.
Proof.
  unfold dct_scale; simpl INR.
  replace (2 / (1 + 1)) with 1 by field.
  apply sqrt_1.
Qed.

Lemma dct_cos_2_1_0 : dct_cos 2 1 0 = 1 / sqrt 2.
Proof.
  unfold dct_cos; simpl INR.
  replace (PI * 1 * (2 * 0 + 1) / (2 * (1 + 1))) with (PI / 4) by field.
  apply cos_PI4.
Qed.

Lemma dct_cos_2_1_1 : dct_cos 2 1 1 = - 1 / sqrt 2.
Proof.
  unfold dct_cos; simpl INR.
  replace (PI * 1 * (2 * 1 + 1) / (2 * (1 + 1))) with (3 * (PI / 4)) by field.
  apply cos_3PI4.
Qed.

Lemma two_bin_a2 (m0 m1 : R) :
  a2_of (dct_real [m0; m1]) = [(m0 - m1) ^ 2 / 8].
Proof.
  unfold a2_of, dct_real, Rsum.
  cbn [List.length seq map tl map2 fold_right].
  rewrite dct_scale_2_1, dct_cos_2_1_0, dct_cos_2_1_1.
  f_equal.
  pose proof sqrt2_neq_0 as Hs.
  pose proof (sqrt_sqrt 2 ltac:(lra)) as Hq.
  replace ((1 * (m0 * (1 / sqrt 2) + (m1 * (- 1 / sqrt 2) + 0)) / 2) ^ 2)
    with ((m0 - m1) ^ 2 / (4 * (sqrt 2 * sqrt 2))) by (field; exact Hs).
  rewrite Hq; field.
Qed.

Lemma idx_of_2 : idx_of 2 = [(INR 0 + 1) ^ 2].
Proof. reflexivity. Qed.

Lemma grid_size_2 : grid_size 2 = 2%nat.
Proof. apply grid_size_fixed; exists 1%nat; reflexivity. Qed.

(** With two bins, at least four thousand samples and at least three
    quarters of the mass in one bin, [kde] returns. *)
Lemma kde_two_bins (data : list R) (MIN MAX : option R) (lo hi : R)
      (c0 c1 : nat) (bins : list R) :
  bounds data MIN MAX = Ok (lo, hi) ->
  np_histogram data 2 (lo, hi) = Ok ([c0; c1], bins) ->
  4000 <= INR (List.length data) ->
  1 / 2 <= ((INR c0 - INR c1) / INR (List.length data)) ^ 2 ->
  exists t_star,
    0 < t_star <= 1 / 10 /\
    kde data 2 MIN MAX =
    Ok (sqrt t_star * (hi - lo), mesh bins 2,
        density (SmDCTData (map Fin (dct_real (mass [c0; c1] (List.length data))))
                           2 t_star) 2 (hi - lo)).
Proof.
  intros Hb Hh HM Hm.
  assert (HM0 : (0 < List.length data)%nat).
  { apply INR_lt; simpl INR; lra. }
  pose proof (kde_pipeline data 2 MIN MAX lo hi [c0; c1] bins) as HK.
  rewrite grid_size_2 in HK.
  specialize (HK Hb Hh HM0); cbv zeta in HK.
  set (M := List.length data) in *.
  assert (Ea : a2_of (dct_real (mass [c0; c1] M))
               = [(INR c0 / INR M - INR c1 / INR M) ^ 2 / 8]).
  { unfold mass; cbn [map]; apply two_bin_a2. }
  rewrite Ea, idx_of_2 in HK.
  assert (Hg : 0 < g (INR M) [(INR 0 + 1) ^ 2]
                     [(INR c0 / INR M - INR c1 / INR M) ^ 2 / 8] (1 / 10)).
  { apply g_single_tenth_pos; [simpl; ring | | exact HM].
    replace (INR c0 / INR M - INR c1 / INR M) with ((INR c0 - INR c1) / INR M)
      by (field; lra).
    lra. }
  assert (HU : usable [(INR 0 + 1) ^ 2]
                      [(INR c0 / INR M - INR c1 / INR M) ^ 2 / 8]).
  { apply single_usable; [simpl; ring |].
    replace (INR c0 / INR M - INR c1 / INR M) with ((INR c0 - INR c1) / INR M)
      by (field; lra).
    lra. }
  destruct (solver_finds M _ _ HM0 HU Hg) as [t [Et [Ht _]]].
  exists t; split; [exact Ht |].
  rewrite HK, Et; reflexivity.
Qed.

(** ** Concrete runs *)

Lemma np_min_unique (a : list R) (v : R) :
  In v a -> Forall (fun z => v <= z) a -> np_min a = Ok v.
Proof.
  intros Hin Hle.
  destruct a as [| x l]; [contradiction |].
  destruct (np_min_spec (x :: l) _ eq_refl) as [Hm Hml].
  unfold np_min; f_equal.
  rewrite Forall_forall in Hle, Hml.
  specialize (Hle _ Hm); specialize (Hml _ Hin); lra.
Qed.

Lemma np_max_unique (a : list R) (v : R) :
  In v a -> Forall (fun z => z <= v) a -> np_max a = Ok v.
Proof.
  intros Hin Hle.
  destruct a as [| x l]; [contradiction |].
  destruct (np_max_spec (x :: l) _ eq_refl) as [Hm Hml].
  unfold np_max; f_equal.
  rewrite Forall_forall in Hle, Hml.
  specialize (Hle _ Hm); specialize (Hml _ Hin); lra.
Qed.

Lemma Forall_repeat {A : Type} (P : A -> Prop) (x : A) (n : nat) :
  P x -> Forall P (repeat x n).
Proof. intros H; induction n; simpl; constructor; auto. Qed.

Lemma in_bin_true (lo hi : R) (bins i : nat) (x : R) :
  (i < bins)%nat ->
  edge lo hi bins i <= x /\
  (if Nat.eqb (S i) bins then x <= edge lo hi bins (S i)
   else x < edge lo hi bins (S i)) ->
  in_bin (linspace lo hi (bins + 1)) bins i x = true.
Proof. intros Hi H; apply in_bin_spec; assumption. Qed.

Lemma in_bin_false (lo hi : R) (bins i : nat) (x : R) :
  (i < bins)%nat ->
  ~ (edge lo hi bins i <= x /\
     (if Nat.eqb (S i) bins then x <= edge lo hi bins (S i)
      else x < edge lo hi bins (S i))) ->
  in_bin (linspace lo hi (bins + 1)) bins i x = false.
Proof.
  intros Hi H.
  destruct (in_bin _ bins i x) eqn:E; [| reflexivity].
  apply in_bin_spec in E; [contradiction | exact Hi].
Qed.

Lemma INR_4000 : INR 4000 = 4000.
Proof. rewrite INR_IZR_INZ; reflexivity. Qed.

Lemma INR_3999 : INR 3999 = 3999.
Proof. rewrite INR_IZR_INZ; reflexivity. Qed.

Lemma sample_flat_length : List.length sample_flat = 4000%nat.
Proof. apply repeat_length. Qed.

Lemma sample_two_length : List.length sample_two = 4000%nat.
Proof. unfold sample_two; cbn [List.length]; rewrite repeat_length; reflexivity. Qed.

Lemma sample_flat_bounds : bounds sample_flat None None = Ok (0, 0).
Proof.
  rewrite (bounds_default_Ok sample_flat 0 0).
  - f_equal; f_equal; lra.
  - apply np_min_unique; [left; reflexivity | apply Forall_repeat; lra].
  - apply np_max_unique; [left; reflexivity | apply Forall_repeat; lra].
Qed.

Lemma sample_flat_histogram :
  np_histogram sample_flat 2 (0, 0)
  = Ok ([0%nat; 4000%nat], linspace (0 - 1 / 2) (0 + 1 / 2) 3).
Proof.
  rewrite np_histogram_flat by lia.
  cbn [seq map]; unfold sample_flat.
  rewrite !count_repeat.
  rewrite (in_bin_false (0 - 1 / 2) (0 + 1 / 2) 2 0 0) by (lia || (unfold edge; simpl; lra)).
  rewrite (in_bin_true (0 - 1 / 2) (0 + 1 / 2) 2 1 0) by (lia || (unfold edge; simpl; lra)).
  cbn [b2n]; rewrite Nat.mul_0_l, Nat.mul_1_l; reflexivity.
Qed.

(** Four thousand equal samples on two bins: the root finder succeeds and
    [kde] returns a bandwidth of zero. *)
Lemma sample_flat_run :
  exists t_star msh dens,
    0 < t_star <= 1 / 10 /\
    kde sample_flat 2 None None = Ok (sqrt t_star * (0 - 0), msh, dens).
Proof.
  destruct (kde_two_bins sample_flat None None 0 0 0 4000 _
              sample_flat_bounds sample_flat_histogram) as [t [Ht E]].
  - rewrite sample_flat_length, INR_4000; lra.
  - rewrite sample_flat_length, INR_4000; simpl INR.
    replace ((0 - 4000) / 4000) with (- 1) by field.
    simpl; lra.
  - eexists t, _, _; split; [exact Ht | exact E].
Qed.

Lemma sample_two_bounds :
  bounds sample_two None None = Ok (- 1 / 10, 11 / 10).
Proof.
  rewrite (bounds_default_Ok sample_two 0 1).
  - f_equal; f_equal; lra.
  - apply np_min_unique; [right; left; reflexivity |].
    constructor; [lra | apply Forall_repeat; lra].
  - apply np_max_unique; [left; reflexivity |].
    constructor; [lra | apply Forall_repeat; lra].
Qed.

Lemma sample_two_histogram :
  np_histogram sample_two 2 (- 1 / 10, 11 / 10)
  = Ok ([3999%nat; 1%nat], linspace (- 1 / 10) (11 / 10) 3).
Proof.
  rewrite np_histogram_Ok by (lra || lia).
  cbn [seq map]; unfold sample_two.
  rewrite !count_cons, !count_repeat.
  rewrite (in_bin_false (- 1 / 10) (11 / 10) 2 0 1)
    by (lia || (unfold edge; simpl; lra)).
  rewrite (in_bin_true (- 1 / 10) (11 / 10) 2 0 0)
    by (lia || (unfold edge; simpl; lra)).
  rewrite (in_bin_true (- 1 / 10) (11 / 10) 2 1 1)
    by (lia || (unfold edge; simpl; lra)).
  rewrite (in_bin_false (- 1 / 10) (11 / 10) 2 1 0)
    by (lia || (unfold edge; simpl; lra)).
  cbn [b2n]; rewrite Nat.mul_0_l, Nat.mul_1_l; reflexivity.
Qed.

(** Four thousand samples with two distinct values on two bins: [kde]
    returns. *)
Lemma sample_two_run :
  exists t_star msh dens,
    0 < t_star <= 1 / 10 /\
    kde sample_two 2 None None
    = Ok (sqrt t_star * (11 / 10 - - 1 / 10), msh, dens).
Proof.
  destruct (kde_two_bins sample_two None None (- 1 / 10) (11 / 10) 3999 1 _
              sample_two_bounds sample_two_histogram) as [t [Ht E]].
  - rewrite sample_two_length, INR_4000; lra.
  - rewrite sample_two_length, INR_4000, INR_3999; simpl INR.
    replace ((3999 - 1) / 4000) with (1999 / 2000) by field.
    simpl; lra.
  - eexists t, _, _; split; [exact Ht | exact E].
Qed.

Lemma sample_pair_bounds :
  bounds sample_pair None None = Ok (- 1 / 10, 11 / 10).
Proof.
  rewrite (bounds_default_Ok sample_pair 0 1).
  - f_equal; f_equal; lra.
  - apply np_min_unique; [left; reflexivity |].
    repeat constructor; lra.
  - apply np_max_unique; [right; left; reflexivity |].
    repeat constructor; lra.
Qed.

Lemma sample_pair_histogram :
  np_histogram sample_pair 2 (- 1 / 10, 11 / 10)
  = Ok ([1%nat; 1%nat], linspace (- 1 / 10) (11 / 10) 3).
Proof.
  rewrite np_histogram_Ok by (lra || lia).
  cbn [seq map]; unfold sample_pair.
  rewrite !count_cons.
  rewrite (in_bin_false (- 1 / 10) (11 / 10) 2 0 1)
    by (lia || (unfold edge; simpl; lra)).
  rewrite (in_bin_true (- 1 / 10) (11 / 10) 2 0 0)
    by (lia || (unfold edge; simpl; lra)).
  rewrite (in_bin_true (- 1 / 10) (11 / 10) 2 1 1)
    by (lia || (unfold edge; simpl; lra)).
  rewrite (in_bin_false (- 1 / 10) (11 / 10) 2 1 0)
    by (lia || (unfold edge; simpl; lra)).
  reflexivity.
Qed.

(** A symmetric pair on two bins: the only coefficient of the solver
    vanishes and the root finder rejects the bracket. *)
Lemma sample_pair_run :
  kde sample_pair 2 None None
  = Raise (ValueError "f(a) and f(b) must have different signs").
Proof.
  pose proof (kde_pipeline sample_pair 2 None None (- 1 / 10) (11 / 10)
                [1%nat; 1%nat] (linspace (- 1 / 10) (11 / 10) 3)
                sample_pair_bounds) as HK.
  rewrite grid_size_2 in HK.
  specialize (HK sample_pair_histogram ltac:(simpl; lia)); cbv zeta in HK.
  rewrite HK.
  change (List.length sample_pair) with 2%nat.
  unfold mass; cbn [map]; rewrite two_bin_a2, idx_of_2.
  rewrite solver_zero_spectrum; [reflexivity | lia | |].
  - repeat constructor; simpl; lra.
  - repeat constructor; simpl; field.
Qed.

(** ** The descent of the bandwidth solver (lines 54-65) *)

Lemma np_prod_app (l : list nat) (n : nat) :
  np_prod (l ++ [n]) = np_prod l * INR n.
Proof.
  induction l as [| m l IH]; simpl; [ring |].
  rewrite IH; ring.
Qed.

Lemma np_prod_odd (s : nat) : np_prod (xrange_odd s) = odd_product s.
Proof.
  induction s as [| s IH]; [reflexivity |].
  unfold xrange_odd in *.
  rewrite seq_S, map_app; cbn [map].
  rewrite np_prod_app, IH; simpl odd_product.
  f_equal.
  rewrite plus_INR, mult_INR; simpl INR; ring.
Qed.

Lemma idx_of_nth (N i : nat) :
  (i < N - 1)%nat -> nth i (idx_of N) 0 = INR (i + 1) ^ 2.
Proof.
  intros Hi; unfold idx_of.
  rewrite nth_map_seq by exact Hi.
  rewrite plus_INR; reflexivity.
Qed.

Lemma a2_of_nth (coeff : list R) (i : nat) :
  (i + 1 < List.length coeff)%nat ->
  nth i (a2_of coeff) 0 = (nth (i + 1) coeff 0 / 2) ^ 2.
Proof.
  intros Hi; unfold a2_of.
  destruct coeff as [| c0 coeff]; [simpl in Hi; lia |].
  cbn [tl]; simpl in Hi.
  replace (i + 1)%nat with (S i) by lia; cbn [nth].
  rewrite (nth_indep _ 0 ((fun c => (c / 2) ^ 2) 0))
    by (rewrite length_map; lia).
  apply (map_nth (fun c => (c / 2) ^ 2)).
Qed.

(** Against C1 as stated.  The first turn of the loop, from the initial
    value at [t = 0] with one sample and a single unit coefficient: the value
    the code assigns to [f] is the moment sum of order 7, and it is not the
    moment sum of order 6 at the same time. *)
Lemma descent_update_is_not_lower_order :
  descent_step (Fin 1) [Fin 1] [Fin 1] (moment 7 [Fin 1] [Fin 1] (Fin 0)) 7
  <> Fin (step_lower_order 1 [1] [1] (phi 7 [1] [1] 0) 7).
Proof.
  change [Fin 1] with (map Fin [1]).
  rewrite moment_fin.
  assert (HU : usable [1] [1]) by (apply usable_here; [lra | lra | constructor]).
  rewrite descent_step_fin; [| lra | apply phi_pos; exact HU].
  intros E; injection E as E.
  unfold step_of, step_lower_order in E.
  set (tm := time_of 7 1 (phi 7 [1] [1] 0)) in E.
  rewrite !(phi_single 1 1 eq_refl) in E.
  change (7 - 1)%nat with 6%nat in E.
  pose proof (exp_pos (- (PI ^ 2 * tm))) as He.
  pose proof (pi_pow_pos (2 * 6)) as Hp.
  pose proof PI_sq_bounds as Hq.
  replace (PI ^ (2 * 7)) with (PI ^ (2 * 6) * PI ^ 2) in E
    by (simpl; ring).
  assert (Hpe : 0 < PI ^ (2 * 6) * exp (- (PI ^ 2 * tm)))
    by (apply Rmult_lt_0_compat; assumption).
  nra.
Qed.

Lemma time_of_formula (s : nat) (M f : R) :
  time_of s M f
  = Rpower (2 * ((1 + Rpower (1 / 2) (INR s + 1 / 2)) / 3)
            * (odd_product s / sqrt (2 * PI)) / (M * f))
           (2 / (3 + 2 * INR s)).
Proof. unfold time_of, const, K0; rewrite np_prod_odd; reflexivity. Qed.

(** C1 (as amended).  The descent of [fixed_point]: on arrays
    [idx[i] = i^2] and [a2[i] = (coeff[i]/2)^2], [i = 1..N-1], the code starts
    from [f = phi(7, t)], runs the six orders [s = 7, 6, 5, 4, 3, 2], computes
    at each order [K0(s) = (1*3*...*(2s-1))/sqrt(2 pi)],
    [const(s) = (1 + (1/2)^(s+1/2))/3] and
    [time(s) = (2 const(s) K0(s) / (M f))^(2/(3+2s))], and updates [f] to
    [phi(s, time(s))], the moment sum of the same order [s] at the time just
    computed; the result is [t - (2 M sqrt(pi) f)^(-2/5)]. *)
Theorem fixed_point_descent (t M : R) (idx a2 : list R) :
  0 < M -> usable idx a2 ->
  let tm := fun (s : nat) (f : R) =>
    Rpower (2 * ((1 + Rpower (1 / 2) (INR s + 1 / 2)) / 3)
            * (odd_product s / sqrt (2 * PI)) / (M * f))
           (2 / (3 + 2 * INR s)) in
  let f_init := phi 7 idx a2 t in
  let f_7 := phi 7 idx a2 (tm 7%nat f_init) in
  let f_6 := phi 6 idx a2 (tm 6%nat f_7) in
  let f_5 := phi 5 idx a2 (tm 5%nat f_6) in
  let f_4 := phi 4 idx a2 (tm 4%nat f_5) in
  let f_3 := phi 3 idx a2 (tm 3%nat f_4) in
  let f_2 := phi 2 idx a2 (tm 2%nat f_3) in
  range_down 7 = [7; 6; 5; 4; 3; 2]%nat /\
  (forall (t' M' : float) (I' a2' : list float),
     let step := descent_step M' I' a2' in
     fixed_point t' M' I' a2'
     = fsub t'
         (fpow (fmul (fmul (fmul (Fin 2) M') (Fin (sqrt PI)))
                     (step (step (step (step (step (step
                        (moment 7 I' a2' t') 7) 6) 5) 4) 3) 2)%nat)
               (- 2 / 5))) /\
  moment 7 (map Fin idx) (map Fin a2) (Fin t) = Fin f_init /\
  (forall (s : nat) (f : R), 0 < f ->
     time s (Fin M) (Fin f) = Fin (tm s f) /\
     descent_step (Fin M) (map Fin idx) (map Fin a2) (Fin f) s
     = Fin (phi s idx a2 (tm s f))) /\
  fold_left (descent_step (Fin M) (map Fin idx) (map Fin a2))
            (range_down 7) (Fin f_init) = Fin f_2 /\
  fixed_point (Fin t) (Fin M) (map Fin idx) (map Fin a2)
  = Fin (t - Rpower (2 * M * sqrt PI * f_2) (- 2 / 5)) /\
  (forall N : nat,
     moment_index N = map Fin (idx_of N) /\
     forall i, (i < N - 1)%nat -> nth i (idx_of N) 0 = INR (i + 1) ^ 2) /\
  (forall coeff : list R,
     SqDCTData (map Fin coeff) = map Fin (a2_of coeff) /\
     forall i, (i + 1 < List.length coeff)%nat ->
               nth i (a2_of coeff) 0 = (nth (i + 1) coeff 0 / 2) ^ 2).
Proof.
  intros HM HU tm f_init f_7 f_6 f_5 f_4 f_3 f_2.
  assert (Htm : forall s f, time_of s M f = tm s f)
    by (intros; apply time_of_formula).
  assert (Hchain : fold_left (step_of M idx a2) [7; 6; 5; 4; 3; 2]%nat f_init
                   = f_2).
  { cbn [fold_left]; unfold step_of; rewrite !Htm; reflexivity. }
  repeat split.
  - apply moment_fin.
  - rewrite time_fin, Htm by assumption; reflexivity.
  - rewrite descent_step_fin by assumption.
    unfold step_of; rewrite Htm; reflexivity.
  - change (range_down 7) with [7; 6; 5; 4; 3; 2]%nat.
    destruct (descent_fold_fin [7; 6; 5; 4; 3; 2]%nat M f_init idx a2 HM HU)
      as [E _]; [apply phi_pos; exact HU |].
    rewrite E, Hchain; reflexivity.
  - rewrite fixed_point_fin by assumption.
    unfold g, descent; fold f_init; rewrite Hchain; reflexivity.
  - apply moment_index_fin.
  - apply idx_of_nth.
  - apply SqDCTData_fin.
  - apply a2_of_nth.
Qed.

Lemma fixed_point_descent_witness :
  0 < 1 /\ usable [1] [1] /\
  fixed_point (Fin 0) (Fin 1) (map Fin [1]) (map Fin [1])
  = Fin (g 1 [1] [1] 0).
Proof.
  assert (HU : usable [1] [1]) by (apply usable_here; [lra | lra | constructor]).
  split; [lra |]; split; [exact HU |].
  destruct (fixed_point_descent 0 1 [1] [1] ltac:(lra) HU)
    as [_ [_ [_ [_ [_ [E _]]]]]].
  rewrite E; unfold g, descent; cbn [fold_left]; unfold step_of.
  rewrite !time_of_formula; reflexivity.
Defined.

(** ** The diffusion time (line 43) *)

(** C2.  The diffusion time returned by the solver is a zero of [g], where
    [g(t) = t - (2 M sqrt(pi) f)^(-2/5)] with [f] the end of the descent
    started from the candidate [t]; it is found by the bracketing root
    finder on the bracket from 0 to 0.1 and lies in it.  The function [g] is
    the one handed to the root finder, and the returned bandwidth is built
    from this time. *)
Theorem diffusion_time_is_root (data : list R) (N : nat) (MIN MAX : option R)
        (bw : R) (msh : list R) (dens : list float) :
  data <> [] ->
  kde data N MIN MAX = Ok (bw, msh, dens) ->
  exists lo hi counts bins t_star,
    bounds data MIN MAX = Ok (lo, hi) /\
    np_histogram data (grid_size N) (lo, hi) = Ok (counts, bins) /\
    let M := List.length data in
    let idx := idx_of (grid_size N) in
    let a2 := a2_of (dct_real (mass counts M)) in
    (forall t, bandwidth_equation M (moment_index (grid_size N))
                 (SqDCTData (dct (DataHist counts M))) t
               = Fin (g (INR M) idx a2 t)) /\
    (forall t, g (INR M) idx a2 t
               = t - Rpower (2 * INR M * sqrt PI
                             * descent (INR M) idx a2 (phi 7 idx a2 t))
                            (- 2 / 5)) /\
    brentq (bandwidth_equation M (moment_index (grid_size N))
              (SqDCTData (dct (DataHist counts M)))) 0 (1 / 10) = Ok t_star /\
    0 < t_star <= 1 / 10 /\
    g (INR M) idx a2 t_star = 0 /\
    bw = sqrt t_star * (hi - lo).
Proof.
  intros Hne E.
  assert (HM : (0 < List.length data)%nat).
  { destruct data; [contradiction Hne; reflexivity | simpl; lia]. }
  destruct (kde_Ok_real data N MIN MAX bw msh dens Hne E)
    as [lo [hi [counts [bins [t [Hb [Hh H]]]]]]].
  cbv zeta in H; destruct H as [HU [Ht [Hr [Hg [Hbw _]]]]].
  exists lo, hi, counts, bins, t.
  split; [exact Hb |]; split; [exact Hh |]; cbv zeta.
  rewrite DataHist_fin by exact HM.
  rewrite dct_fin, SqDCTData_fin, moment_index_fin.
  repeat split; auto; try lra.
  intros t'; apply equation_fin; assumption.
Qed.

Lemma diffusion_time_is_root_witness :
  exists bw msh dens,
    sample_two <> [] /\
    kde sample_two 2 None None = Ok (bw, msh, dens) /\
    exists lo hi counts bins t_star,
      bounds sample_two None None = Ok (lo, hi) /\
      np_histogram sample_two (grid_size 2) (lo, hi) = Ok (counts, bins) /\
      0 < t_star <= 1 / 10 /\
      g (INR (List.length sample_two)) (idx_of (grid_size 2))
        (a2_of (dct_real (mass counts (List.length sample_two)))) t_star = 0 /\
      bw = sqrt t_star * (hi - lo).
Proof.
  destruct sample_two_run as [t [msh [dens [Ht E]]]].
  exists (sqrt t * (11 / 10 - - 1 / 10)), msh, dens.
  assert (Hne : sample_two <> []) by discriminate.
  split; [exact Hne |]; split; [exact E |].
  destruct (diffusion_time_is_root sample_two 2 None None _ msh dens Hne E)
    as [lo [hi [counts [bins [t' [Hb [Hh H]]]]]]].
  cbv zeta in H; destruct H as [_ [_ [_ [Hr [Hg Hbw]]]]].
  exists lo, hi, counts, bins, t'; repeat split; auto; lra.
Defined.

(** ** The cosine transform pair and the density over the reals *)

Lemma SmDCTData_fin (coeff : list R) (N : nat) (t : R) :
  SmDCTData (map Fin coeff) N t = map Fin (smooth_real coeff N t).
Proof.
  unfold SmDCTData, smooth_real.
  rewrite map2_map_l, map_map2; reflexivity.
Qed.

Lemma idct_fin (y : list R) : idct (map Fin y) = map Fin (idct_real y).
Proof.
  unfold idct, idct_real.
  rewrite length_map, map_map.
  apply map_ext; intros n.
  rewrite map2_map_l.
  rewrite (map2_ext _ (fun yk k =>
             Fin (dct_scale (List.length y) k
                  * (yk * dct_cos (List.length y) k n))))
    by reflexivity.
  rewrite <- map_map2, sum_fin; reflexivity.
Qed.

Lemma density_fin (coeff : list R) (N : nat) (t R' : R) :
  R' <> 0 ->
  density (SmDCTData (map Fin coeff) N t) N R'
  = map Fin (density_real coeff N t R').
Proof.
  intros HR; unfold density, density_real.
  rewrite SmDCTData_fin, idct_fin, !map_map.
  apply map_ext; intros y.
  rewrite fmul_fin, fdiv_fin by exact HR; reflexivity.
Qed.

Lemma smooth_real_length (coeff : list R) (N : nat) (t : R) :
  List.length coeff = N -> List.length (smooth_real coeff N t) = N.
Proof.
  intros H; unfold smooth_real; rewrite map2_length, length_seq, H; lia.
Qed.

Lemma idct_real_length (y : list R) :
  List.length (idct_real y) = List.length y.
Proof. unfold idct_real; rewrite length_map, length_seq; reflexivity. Qed.

(** ** Sums of cosines *)

Lemma Rsum_app (l l' : list R) : Rsum (l ++ l') = Rsum l + Rsum l'.
Proof. induction l as [| a l IH]; simpl; [ring | rewrite IH; ring]. Qed.

Lemma Rsum_map_plus {A : Type} (f h : A -> R) (l : list A) :
  Rsum (map (fun a => f a + h a) l) = Rsum (map f l) + Rsum (map h l).
Proof. induction l as [| a l IH]; simpl; [ring | rewrite IH; ring]. Qed.

Lemma Rsum_map_scale {A : Type} (c : R) (f : A -> R) (l : list A) :
  Rsum (map (fun a => c * f a) l) = c * Rsum (map f l).
Proof. induction l as [| a l IH]; simpl; [ring | rewrite IH; ring]. Qed.

Lemma Rsum_map_const_zero {A : Type} (l : list A) :
  Rsum (map (fun _ => 0) l) = 0.
Proof. induction l as [| a l IH]; simpl; [reflexivity | rewrite IH; ring]. Qed.

(** A sum over [n] of sums over [k] is the sum over [k] of the sums over
    [n]. *)
Lemma Rsum_exchange {A B : Type} (f : nat -> A -> B -> R)
      (y : list A) (ks : list B) (ns : list nat) :
  Rsum (map (fun n => Rsum (map2 (f n) y ks)) ns)
  = Rsum (map2 (fun yk k => Rsum (map (fun n => f n yk k) ns)) y ks).
Proof.
  revert ks; induction y as [| y0 y IH]; intros [| k0 ks]; simpl;
    try apply Rsum_map_const_zero.
  rewrite Rsum_map_plus, IH; reflexivity.
Qed.

Lemma Rsum_map2_vanish {A B : Type} (h : A -> B -> R) (y : list A)
      (ks : list B) :
  (forall a k, In k ks -> h a k = 0) -> Rsum (map2 h y ks) = 0.
Proof.
  revert ks; induction y as [| y0 y IH]; intros [| k0 ks] H; simpl;
    try reflexivity.
  rewrite H by (left; reflexivity).
  rewrite IH; [ring |].
  intros a k Hk; apply H; right; exact Hk.
Qed.

(** [2 sin(x) (cos(x) + cos(3x) + ... + cos((2m-1)x)) = sin(2mx)]. *)
Lemma cos_odd_sum (x : R) (m : nat) :
  2 * sin x * Rsum (map (fun n => cos ((2 * INR n + 1) * x)) (seq 0 m))
  = sin (2 * INR m * x).
Proof.
  induction m as [| m IH].
  - simpl; replace (2 * 0 * x) with 0 by ring.
    rewrite sin_0; ring.
  - rewrite seq_S, map_app, Rsum_app; cbn [map Rsum fold_right Nat.add].
    rewrite Rmult_plus_distr_l, IH, S_INR.
    replace (2 * (INR m + 1) * x) with ((2 * INR m + 1) * x + x) by ring.
    replace (2 * INR m * x) with ((2 * INR m + 1) * x - x) by ring.
    rewrite sin_plus, sin_minus; ring.
Qed.

Lemma sin_nat_PI (k : nat) : sin (INR k * PI) = 0.
Proof.
  apply sin_eq_0_1; exists (Z.of_nat k).
  rewrite INR_IZR_INZ; reflexivity.
Qed.

(** The cosines of a frequency [0 < k < 2N] add up to zero over the grid;
    those of the frequency 0 add up to [N]. *)
Lemma dct_cos_sum (N k : nat) :
  (0 < k < 2 * N)%nat -> Rsum (map (dct_cos N k) (seq 0 N)) = 0.
Proof.
  intros [Hk HkN].
  assert (HN : 0 < INR N) by (apply lt_0_INR; lia).
  assert (Hk0 : 0 < INR k) by (apply lt_0_INR; lia).
  assert (Hk2 : INR k < 2 * INR N).
  { apply lt_INR in HkN; rewrite mult_INR in HkN; simpl in HkN; lra. }
  set (x := PI * INR k / (2 * INR N)).
  pose proof PI_RGT_0 as Hpi.
  assert (Hx0 : 0 < x).
  { unfold x; apply Rdiv_lt_0_compat; [apply Rmult_lt_0_compat |]; lra. }
  assert (Hx1 : x < PI).
  { unfold x; apply Rmult_lt_reg_r with (2 * INR N); [lra |].
    unfold Rdiv; rewrite Rmult_assoc, Rinv_l by lra; nra. }
  pose proof (sin_gt_0 x Hx0 Hx1) as Hsin.
  pose proof (cos_odd_sum x N) as H.
  replace (2 * INR N * x) with (INR k * PI) in H by (unfold x; field; lra).
  rewrite sin_nat_PI in H.
  rewrite (map_ext (dct_cos N k) (fun n => cos ((2 * INR n + 1) * x))).
  - apply Rmult_eq_reg_l with (2 * sin x); [| lra].
    rewrite H; ring.
  - intros n; unfold dct_cos, x; f_equal; field; lra.
Qed.

Lemma dct_cos_0 (N n : nat) : dct_cos N 0 n = 1.
Proof.
  unfold dct_cos; simpl INR.
  replace (PI * 0 * (2 * INR n + 1) / (2 * INR N)) with 0
    by (unfold Rdiv; ring).
  apply cos_0.
Qed.

Lemma Rsum_ones (l : list nat) : Rsum (map (fun _ => 1) l) = INR (List.length l).
Proof.
  induction l as [| a l IH]; [reflexivity |].
  cbn [map List.length]; rewrite S_INR; simpl Rsum; rewrite IH; ring.
Qed.

Lemma dct_cos_sum_0 (N : nat) : Rsum (map (dct_cos N 0) (seq 0 N)) = INR N.
Proof.
  rewrite (map_ext (dct_cos N 0) (fun _ => 1)) by (intros; apply dct_cos_0).
  rewrite Rsum_ones, length_seq; reflexivity.
Qed.

(** The entries of the inverse transform add up to [sqrt(N)] times the
    coefficient of index 0. *)
Lemma idct_real_total (y0 : R) (y : list R) :
  let N := S (List.length y) in
  Rsum (idct_real (y0 :: y)) = sqrt (1 / INR N) * INR N * y0.
Proof.
  intros N; unfold idct_real.
  change (List.length (y0 :: y)) with N.
  rewrite (Rsum_exchange
             (fun n yk k => dct_scale N k * (yk * dct_cos N k n))).
  set (h := fun (yk : R) (k : nat) =>
              Rsum (map (fun n => dct_scale N k * (yk * dct_cos N k n))
                        (seq 0 N))).
  change (h y0 0%nat + Rsum (map2 h y (seq 1 (List.length y)))
          = sqrt (1 / INR N) * INR N * y0).
  unfold h; rewrite Rsum_map2_vanish.
  - rewrite (map_ext _ (fun n => dct_scale N 0 * y0 * dct_cos N 0 n))
      by (intros; ring).
    rewrite Rsum_map_scale, dct_cos_sum_0.
    unfold dct_scale; ring.
  - intros a k Hk; apply in_seq in Hk.
    rewrite (map_ext _ (fun n => dct_scale N k * a * dct_cos N k n))
      by (intros; ring).
    rewrite Rsum_map_scale, dct_cos_sum by (unfold N; lia).
    ring.
Qed.

Lemma Rsum_map2_left {B : Type} (l : list R) (ks : list B) :
  (List.length l <= List.length ks)%nat ->
  Rsum (map2 (fun a _ => a) l ks) = Rsum l.
Proof.
  revert ks; induction l as [| a l IH]; intros [| k ks] H; simpl in *;
    try reflexivity; try lia.
  rewrite IH by lia; reflexivity.
Qed.

(** The coefficient of index 0 is the sum of the input over [sqrt(N)]. *)
Lemma dct_real_head (x0 : R) (x : list R) :
  let N := S (List.length x) in
  hd 0 (dct_real (x0 :: x)) = sqrt (1 / INR N) * Rsum (x0 :: x).
Proof.
  intros N; unfold dct_real.
  change (List.length (x0 :: x)) with N.
  change (seq 0 N) with (0%nat :: seq 1 (List.length x)) at 2.
  cbn [map hd]; unfold dct_scale at 1; f_equal.
  rewrite (map2_ext _ (fun a _ => a))
    by (intros; rewrite dct_cos_0; ring).
  apply Rsum_map2_left.
  rewrite length_seq; simpl; lia.
Qed.

Lemma smooth_real_head (c0 : R) (c : list R) (n : nat) (t : R) :
  hd 0 (smooth_real (c0 :: c) (S n) t) = c0.
Proof.
  unfold smooth_real; cbn [seq map2 hd].
  replace (- (INR 0 ^ 2) * PI ^ 2 * t / 2) with 0
    by (simpl; unfold Rdiv; ring).
  rewrite exp_0; ring.
Qed.

Lemma Rsum_density_real (coeff : list R) (N : nat) (t R' : R) :
  Rsum (density_real coeff N t R')
  = Rsum (idct_real (smooth_real coeff N t)) * (INR N / R').
Proof.
  unfold density_real.
  induction (idct_real (smooth_real coeff N t)) as [| y l IH]; simpl.
  - ring.
  - rewrite IH; unfold Rdiv; ring.
Qed.

(** Smoothing keeps the total: the entries of the density, each weighted by
    the width [R/N] of a grid cell, add up to the sum of the transformed
    vector. *)
Lemma density_real_total (x : list R) (t R' : R) :
  x <> [] -> R' <> 0 ->
  Rsum (density_real (dct_real x) (List.length x) t R')
  * (R' / INR (List.length x)) = Rsum x.
Proof.
  intros Hx HR.
  destruct x as [| x0 x]; [contradiction Hx; reflexivity |].
  set (N := List.length (x0 :: x)).
  assert (HN : 0 < INR N) by (apply lt_0_INR; unfold N; simpl; lia).
  rewrite Rsum_density_real.
  pose proof (dct_real_head x0 x) as Hhead; cbv zeta in Hhead.
  pose proof (dct_real_length (x0 :: x)) as Hlen.
  destruct (dct_real (x0 :: x)) as [| c0 c] eqn:Ec; [discriminate |].
  cbn [hd] in Hhead.
  pose proof (smooth_real_length (c0 :: c) N t Hlen) as Hslen.
  pose proof (smooth_real_head c0 c (List.length x) t) as Hshead.
  change (S (List.length x)) with N in Hshead, Hhead.
  destruct (smooth_real (c0 :: c) N t) as [| s0 sm] eqn:Es; [discriminate |].
  cbn [hd] in Hshead; subst s0.
  pose proof (idct_real_total c0 sm) as Htot; cbv zeta in Htot.
  assert (Esm : S (List.length sm) = N) by (simpl in Hslen; exact Hslen).
  rewrite Esm in Htot; rewrite Htot, Hhead.
  assert (Hq : sqrt (1 / INR N) * sqrt (1 / INR N) = 1 / INR N).
  { apply sqrt_sqrt; left; apply Rdiv_lt_0_compat; lra. }
  replace (sqrt (1 / INR N) * INR N * (sqrt (1 / INR N) * Rsum (x0 :: x))
           * (INR N / R') * (R' / INR N))
    with (sqrt (1 / INR N) * sqrt (1 / INR N) * INR N * Rsum (x0 :: x))
    by (field; lra).
  rewrite Hq; field; lra.
Qed.

(** ** The inverse transform inverts the forward one *)

(** [2 sin(x/2) (1 + cos(x) + ... + cos((m-1) x))
     = sin(x/2) + sin((m - 1/2) x)]. *)
Lemma cos_multiple_sum (x : R) (m : nat) :
  2 * sin (x / 2) * Rsum (map (fun k => cos (INR k * x)) (seq 0 m))
  = sin (x / 2) + sin ((INR m - 1 / 2) * x).
Proof.
  induction m as [| m IH].
  - simpl; replace ((0 - 1 / 2) * x) with (- (x / 2)) by field.
    rewrite sin_neg; ring.
  - rewrite seq_S, map_app, Rsum_app; cbn [map Rsum fold_right Nat.add].
    rewrite Rmult_plus_distr_l, IH, S_INR.
    replace ((INR m + 1 - 1 / 2) * x) with (INR m * x + x / 2) by field.
    replace ((INR m - 1 / 2) * x) with (INR m * x - x / 2) by field.
    rewrite sin_plus, sin_minus; ring.
Qed.

Lemma cos_odd_PI (n : nat) : cos ((2 * INR n + 1) * PI) = - 1.
Proof.
  replace ((2 * INR n + 1) * PI) with (PI + 2 * INR n * PI) by ring.
  rewrite cos_period; apply cos_PI.
Qed.

Lemma cos_nat_PI_opposite (j j' n : nat) :
  (j + j' = 2 * n + 1)%nat -> cos (INR j' * PI) = - cos (INR j * PI).
Proof.
  intros H.
  assert (E : INR j' = 2 * INR n + 1 - INR j).
  { apply (f_equal INR) in H.
    rewrite !plus_INR, mult_INR in H; simpl in H; lra. }
  rewrite E.
  replace ((2 * INR n + 1 - INR j) * PI)
    with ((2 * INR n + 1) * PI - INR j * PI) by ring.
  rewrite cos_minus, cos_odd_PI, sin_nat_PI; ring.
Qed.

(** The cosines of the multiples of [pi j / N], [0 < j < 2N], over
    [k = 0 .. N-1]. *)
Lemma cos_grid_sum (N j : nat) :
  (0 < j < 2 * N)%nat ->
  Rsum (map (fun k => cos (INR k * (PI * INR j / INR N))) (seq 0 N))
  = (1 - cos (INR j * PI)) / 2.
Proof.
  intros [Hj HjN].
  assert (HN : 0 < INR N) by (apply lt_0_INR; lia).
  assert (Hj0 : 0 < INR j) by (apply lt_0_INR; lia).
  assert (Hj2 : INR j < 2 * INR N).
  { apply lt_INR in HjN; rewrite mult_INR in HjN; simpl in HjN; lra. }
  set (x := PI * INR j / INR N).
  pose proof PI_RGT_0 as Hpi.
  assert (Hx0 : 0 < x / 2).
  { unfold x; apply Rdiv_lt_0_compat; [| lra].
    apply Rdiv_lt_0_compat; [apply Rmult_lt_0_compat |]; lra. }
  assert (Hx1 : x / 2 < PI).
  { unfold x; apply Rmult_lt_reg_r with (2 * INR N); [lra |].
    replace (PI * INR j / INR N / 2 * (2 * INR N)) with (PI * INR j)
      by (field; lra).
    nra. }
  pose proof (sin_gt_0 (x / 2) Hx0 Hx1) as Hsin.
  pose proof (cos_multiple_sum x N) as H.
  replace ((INR N - 1 / 2) * x) with (INR j * PI - x / 2) in H
    by (unfold x; field; lra).
  rewrite sin_minus, sin_nat_PI in H.
  apply Rmult_eq_reg_l with (2 * sin (x / 2)); [| lra].
  rewrite H; field.
Qed.

Lemma dct_cos_product (N k n m : nat) :
  (0 < N)%nat -> (m <= n)%nat ->
  dct_cos N k n * dct_cos N k m
  = (cos (INR k * (PI * INR (n - m) / INR N))
     + cos (INR k * (PI * INR (n + m + 1) / INR N))) / 2.
Proof.
  intros HN Hmn.
  assert (HN' : 0 < INR N) by (apply lt_0_INR; exact HN).
  unfold dct_cos.
  set (a := PI * INR k * (2 * INR n + 1) / (2 * INR N)).
  set (b := PI * INR k * (2 * INR m + 1) / (2 * INR N)).
  replace (INR k * (PI * INR (n - m) / INR N)) with (a - b)
    by (unfold a, b; rewrite minus_INR by exact Hmn; field; lra).
  replace (INR k * (PI * INR (n + m + 1) / INR N)) with (a + b)
    by (unfold a, b; rewrite !plus_INR; simpl INR; field; lra).
  rewrite cos_minus, cos_plus; field.
Qed.

Lemma Rsum_map_half {A : Type} (f h : A -> R) (l : list A) :
  Rsum (map (fun a => (f a + h a) / 2) l)
  = (Rsum (map f l) + Rsum (map h l)) / 2.
Proof.
  induction l as [| a l IH]; simpl; [field | rewrite IH; field].
Qed.

Lemma dct_cos_product_sum (N n m : nat) :
  (m <= n < N)%nat ->
  Rsum (map (fun k => dct_cos N k n * dct_cos N k m) (seq 0 N))
  = if Nat.eq_dec n m then (INR N + 1) / 2 else 1 / 2.
Proof.
  intros [Hmn HnN].
  assert (HN : (0 < N)%nat) by lia.
  rewrite (map_ext _ (fun k =>
             (cos (INR k * (PI * INR (n - m) / INR N))
              + cos (INR k * (PI * INR (n + m + 1) / INR N))) / 2))
    by (intros k; apply dct_cos_product; assumption).
  rewrite Rsum_map_half.
  rewrite (cos_grid_sum N (n + m + 1)) by lia.
  destruct (Nat.eq_dec n m) as [-> | Hne].
  - rewrite Nat.sub_diag.
    rewrite (map_ext _ (fun _ => 1)).
    + rewrite Rsum_ones, length_seq.
      replace (m + m + 1)%nat with (2 * m + 1)%nat by lia.
      rewrite plus_INR, mult_INR; simpl INR.
      replace ((1 + 1) * INR m + 1) with (2 * INR m + 1) by ring.
      rewrite cos_odd_PI; field.
    + intros k; simpl INR.
      replace (INR k * (PI * 0 / INR N)) with 0 by (unfold Rdiv; ring).
      apply cos_0.
  - rewrite (cos_grid_sum N (n - m)) by lia.
    rewrite (cos_nat_PI_opposite (n - m) (n + m + 1) n) by lia.
    field.
Qed.

Lemma dct_scale_sq (N k : nat) :
  (0 < N)%nat ->
  dct_scale N k * dct_scale N k
  = match k with O => 1 / INR N | S _ => 2 / INR N end.
Proof.
  intros HN.
  assert (HN' : 0 < INR N) by (apply lt_0_INR; exact HN).
  destruct k; unfold dct_scale; apply sqrt_sqrt; left;
    apply Rdiv_lt_0_compat; lra.
Qed.

(** The columns of the transform are orthonormal. *)
Lemma dct_orthonormal (N n m : nat) :
  (n < N)%nat -> (m < N)%nat ->
  Rsum (map (fun k => dct_scale N k * dct_scale N k
                      * (dct_cos N k n * dct_cos N k m)) (seq 0 N))
  = if Nat.eq_dec n m then 1 else 0.
Proof.
  assert (Hord : forall n m, (m <= n < N)%nat ->
            Rsum (map (fun k => dct_scale N k * dct_scale N k
                                * (dct_cos N k n * dct_cos N k m)) (seq 0 N))
            = if Nat.eq_dec n m then 1 else 0).
  { clear n m; intros n m Hnm.
    assert (HN : (0 < N)%nat) by lia.
    assert (HN' : 0 < INR N) by (apply lt_0_INR; exact HN).
    pose proof (dct_cos_product_sum N n m Hnm) as Hsum.
    destruct N as [| N']; [lia |].
    set (N := S N') in *.
    change (seq 0 N) with (0%nat :: seq 1 N') in *.
    cbn [map] in *.
    rewrite !dct_cos_0 in *.
    rewrite (dct_scale_sq N 0 HN).
    change (Rsum (?h :: ?t)) with (h + Rsum t) in Hsum.
    change (Rsum (?h :: ?t)) with (h + Rsum t).
    rewrite (map_ext_in _ (fun k => 2 / INR N
                                    * (dct_cos N k n * dct_cos N k m))).
    - rewrite Rsum_map_scale.
      set (S1 := Rsum (map (fun k => dct_cos N k n * dct_cos N k m)
                           (seq 1 N'))) in *.
      destruct (Nat.eq_dec n m);
        (replace S1 with (1 * 1 + S1 - 1) by ring); rewrite Hsum;
        field; lra.
    - intros k Hk; apply in_seq in Hk.
      destruct k as [| k]; [lia |].
      rewrite (dct_scale_sq N (S k) HN); reflexivity. }
  intros Hn Hm.
  destruct (Nat.le_ge_cases m n) as [Hle | Hge].
  - apply Hord; lia.
  - rewrite (map_ext _ (fun k => dct_scale N k * dct_scale N k
                                  * (dct_cos N k m * dct_cos N k n)))
      by (intros; ring).
    rewrite (Hord m n) by lia.
    destruct (Nat.eq_dec m n), (Nat.eq_dec n m); try reflexivity; lia.
Qed.

Lemma map2_map_self {A B C : Type} (h : B -> A -> C) (u : A -> B)
      (l : list A) :
  map2 h (map u l) l = map (fun a => h (u a) a) l.
Proof. induction l as [| a l IH]; simpl; [| rewrite IH]; reflexivity. Qed.

Lemma map2_ext_in {A B C : Type} (f f' : A -> B -> C) (l : list A)
      (l' : list B) :
  (forall a b, In b l' -> f a b = f' a b) -> map2 f l l' = map2 f' l l'.
Proof.
  revert l'; induction l as [| a l IH]; intros [| b l'] H; simpl;
    try reflexivity.
  rewrite H by (left; reflexivity).
  rewrite IH; [reflexivity |].
  intros a' b' Hb; apply H; right; exact Hb.
Qed.

Lemma Rsum_map2_scale {A B : Type} (c : R) (f : A -> B -> R) (l : list A)
      (l' : list B) :
  Rsum (map2 (fun a b => c * f a b) l l') = c * Rsum (map2 f l l').
Proof.
  revert l'; induction l as [| a l IH]; intros [| b l']; simpl;
    try ring.
  rewrite IH; ring.
Qed.

(** A sum against the indicator of the index [n] picks entry [n]. *)
Lemma Rsum_map2_delta (n : nat) (x : list R) (b : nat) :
  Rsum (map2 (fun a m => a * (if Nat.eq_dec n m then 1 else 0)) x
             (seq b (List.length x)))
  = if Nat.leb b n then nth (n - b) x 0 else 0.
Proof.
  revert b; induction x as [| a x IH]; intros b.
  - simpl; destruct (Nat.leb b n); [destruct (n - b)%nat |]; reflexivity.
  - cbn [List.length seq map2].
    change (Rsum (?h :: ?t)) with (h + Rsum t).
    rewrite IH.
    destruct (Nat.eq_dec n b) as [-> | Hne].
    + rewrite Nat.leb_refl, Nat.sub_diag.
      destruct (Nat.leb_spec (S b) b); [lia |].
      simpl; ring.
    + destruct (Nat.leb_spec b n) as [Hle | Hgt].
      * destruct (Nat.leb_spec (S b) n); [| lia].
        replace (n - b)%nat with (S (n - S b)) by lia.
        simpl; ring.
      * destruct (Nat.leb_spec (S b) n); [lia |].
        ring.
Qed.

(** The inverse transform of the transform of [x] is [x]. *)
Lemma idct_dct_real (x : list R) : idct_real (dct_real x) = x.
Proof.
  apply (nth_ext _ _ 0 0).
  { rewrite idct_real_length, dct_real_length; reflexivity. }
  intros n Hn.
  rewrite idct_real_length, dct_real_length in Hn.
  unfold idct_real; rewrite dct_real_length.
  set (N := List.length x) in *.
  rewrite nth_map_seq by exact Hn.
  unfold dct_real; fold N.
  rewrite map2_map_self.
  rewrite (map_ext _ (fun k =>
             Rsum (map2 (fun xm m =>
                           xm * (dct_scale N k * dct_scale N k
                                 * (dct_cos N k n * dct_cos N k m)))
                        x (seq 0 N)))).
  2:{ intros k.
      rewrite (map2_ext
                 (fun xm m => xm * (dct_scale N k * dct_scale N k
                                    * (dct_cos N k n * dct_cos N k m)))
                 (fun xm m => dct_scale N k * dct_scale N k * dct_cos N k n
                              * (xm * dct_cos N k m)))
        by (intros; ring).
      rewrite Rsum_map2_scale; ring. }
  rewrite (Rsum_exchange
             (fun k xm m => xm * (dct_scale N k * dct_scale N k
                                  * (dct_cos N k n * dct_cos N k m)))).
  rewrite (map2_ext_in _ (fun a m => a * (if Nat.eq_dec n m then 1 else 0))).
  - unfold N at 1; rewrite Rsum_map2_delta.
    simpl Nat.leb; rewrite Nat.sub_0_r; reflexivity.
  - intros a m Hm; apply in_seq in Hm.
    rewrite Rsum_map_scale, dct_orthonormal by lia; reflexivity.
Qed.

Lemma idct_dct (x : list R) : idct (dct (map Fin x)) = map Fin x.
Proof. rewrite dct_fin, idct_fin, idct_dct_real; reflexivity. Qed.

(** Entry [n] of the inverse transform, written out. *)
Lemma idct_real_nth (y0 : R) (y : list R) (n : nat) :
  (n < S (List.length y))%nat ->
  nth n (idct_real (y0 :: y)) 0
  = y0 / sqrt (INR (S (List.length y)))
    + sqrt (2 / INR (S (List.length y)))
      * Rsum (map2 (fun yk k =>
                      yk * cos (PI * INR k * (2 * INR n + 1)
                                / (2 * INR (S (List.length y)))))
                   y (seq 1 (List.length y))).
Proof.
  intros Hn; unfold idct_real.
  set (N := S (List.length y)) in *.
  change (List.length (y0 :: y)) with N.
  rewrite nth_map_seq by exact Hn.
  change (seq 0 N) with (0%nat :: seq 1 (List.length y)).
  cbn [map2].
  change (Rsum (?h :: ?t)) with (h + Rsum t).
  rewrite dct_cos_0.
  rewrite (map2_ext_in _ (fun yk k =>
             sqrt (2 / INR N)
             * (yk * cos (PI * INR k * (2 * INR n + 1) / (2 * INR N))))).
  - rewrite Rsum_map2_scale; f_equal.
    unfold dct_scale, Rdiv; rewrite Rmult_1_l, sqrt_inv; ring.
  - intros a k Hk; apply in_seq in Hk.
    destruct k as [| k]; [lia | reflexivity].
Qed.

Lemma idct_nth (y0 : R) (y : list R) (n : nat) :
  (n < S (List.length y))%nat ->
  nth n (idct (map Fin (y0 :: y))) NaN
  = Fin (y0 / sqrt (INR (S (List.length y)))
         + sqrt (2 / INR (S (List.length y)))
           * Rsum (map2 (fun yk k =>
                           yk * cos (PI * INR k * (2 * INR n + 1)
                                     / (2 * INR (S (List.length y)))))
                        y (seq 1 (List.length y)))).
Proof.
  intros Hn; rewrite idct_fin.
  rewrite (nth_indep _ NaN (Fin 0))
    by (rewrite length_map, idct_real_length; exact Hn).
  rewrite (map_nth Fin), idct_real_nth by exact Hn.
  reflexivity.
Qed.

Lemma map2_left {A B : Type} (l : list A) (ks : list B) :
  (List.length l <= List.length ks)%nat -> map2 (fun a _ => a) l ks = l.
Proof.
  revert ks; induction l as [| a l IH]; intros [| k ks] H; simpl in *;
    try reflexivity; try lia.
  rewrite IH by lia; reflexivity.
Qed.

(** With the diffusion time 0 the attenuation changes nothing. *)
Lemma smooth_real_zero (c : list R) (N : nat) :
  List.length c = N -> smooth_real c N 0 = c.
Proof.
  intros Hlen; unfold smooth_real.
  rewrite (map2_ext _ (fun a _ => a)).
  - apply map2_left; rewrite length_seq; lia.
  - intros a i.
    replace (- (INR i ^ 2) * PI ^ 2 * 0 / 2) with 0 by (unfold Rdiv; ring).
    rewrite exp_0; ring.
Qed.

(** The reconstruction at the diffusion time 0 gives the input vector
    back, scaled by [N / R]. *)
Lemma density_unsmoothed (x : list R) (N : nat) (R' : R) :
  List.length x = N -> R' <> 0 ->
  density (SmDCTData (dct (map Fin x)) N 0) N R'
  = map (fun v => Fin (v * INR N / R')) x.
Proof.
  intros Hlen HR.
  rewrite dct_fin, density_fin by exact HR.
  unfold density_real.
  rewrite smooth_real_zero by (rewrite dct_real_length; exact Hlen).
  rewrite idct_dct_real, map_map; reflexivity.
Qed.

(** ** The density reconstruction (lines 46-48) *)

Lemma scale_fin (y n r : R) :
  r <> 0 -> fdiv (fmul (Fin y) (Fin n)) (Fin r) = Fin (y * (n / r)).
Proof.
  intros Hr; rewrite fmul_fin, fdiv_fin by exact Hr.
  f_equal; field; exact Hr.
Qed.

(** C3.  The returned density is the inverse orthonormal cosine transform
    of the attenuated coefficients, every entry multiplied by [N] and
    divided by [R = MAX - MIN]; coefficient [i] of the transformed
    histogram, index 0 included, is attenuated by the factor
    [exp(-i^2 pi^2 t* / 2)].  The inverse transform is the one that gives
    entry [n] the value
    [y[0] / sqrt(N) + sqrt(2/N) sum_(k >= 1) y[k] cos(pi k (2n + 1) / (2N))],
    and it inverts the forward transform of line 37 on every vector: with
    the attenuation taken away (diffusion time 0) the composition returns
    the transformed vector itself, scaled by [N / R].  For a non-empty
    sample the coefficients are finite, and so is the density when
    [R <> 0]. *)
Theorem density_reconstruction (data : list R) (N : nat) (MIN MAX : option R)
        (bw : R) (msh : list R) (dens : list float) :
  kde data N MIN MAX = Ok (bw, msh, dens) ->
  exists lo hi counts bins t_star,
    bounds data MIN MAX = Ok (lo, hi) /\
    np_histogram data (grid_size N) (lo, hi) = Ok (counts, bins) /\
    let Ng := grid_size N in
    let coeff := dct (DataHist counts (List.length data)) in
    let smooth := SmDCTData coeff Ng t_star in
    brentq (bandwidth_equation (List.length data) (moment_index Ng)
              (SqDCTData coeff)) 0 (1 / 10) = Ok t_star /\
    List.length coeff = Ng /\
    List.length smooth = Ng /\
    (forall i, (i < Ng)%nat ->
       nth i smooth NaN
       = fmul (nth i coeff NaN)
              (Fin (exp (- (INR i ^ 2) * PI ^ 2 * t_star / 2)))) /\
    dens = map (fun y => fdiv (fmul y (Fin (INR Ng))) (Fin (hi - lo)))
               (idct smooth) /\
    (forall y, hi - lo <> 0 ->
       fdiv (fmul (Fin y) (Fin (INR Ng))) (Fin (hi - lo))
       = Fin (y * (INR Ng / (hi - lo)))) /\
    (forall (y0 : R) (y : list R) (n : nat),
       (n < S (List.length y))%nat ->
       nth n (idct (map Fin (y0 :: y))) NaN
       = Fin (y0 / sqrt (INR (S (List.length y)))
              + sqrt (2 / INR (S (List.length y)))
                * Rsum (map2 (fun yk k =>
                                yk * cos (PI * INR k * (2 * INR n + 1)
                                          / (2 * INR (S (List.length y)))))
                             y (seq 1 (List.length y))))) /\
    (forall x : list R, idct (dct (map Fin x)) = map Fin x) /\
    (forall x : list R,
       List.length x = Ng -> hi - lo <> 0 ->
       density (SmDCTData (dct (map Fin x)) Ng 0) Ng (hi - lo)
       = map (fun v => Fin (v * INR Ng / (hi - lo))) x) /\
    (data <> [] ->
     exists c : list R,
       coeff = map Fin c /\
       c = dct_real (mass counts (List.length data)) /\
       smooth = map Fin (smooth_real c Ng t_star) /\
       (hi - lo <> 0 ->
        dens = map (fun v => Fin (v * INR Ng / (hi - lo)))
                   (idct_real (smooth_real c Ng t_star)))).
Proof.
  intros E.
  destruct (kde_Ok_inv _ _ _ _ _ _ _ E)
    as [lo [hi [counts [bins [t [Hb [Hh [Ht [_ [_ Hd]]]]]]]]]].
  exists lo, hi, counts, bins, t.
  split; [exact Hb |]; split; [exact Hh |]; cbv zeta.
  destruct (np_histogram_length _ _ _ _ _ Hh) as [Hlen _].
  assert (Hc : List.length (dct (DataHist counts (List.length data)))
               = grid_size N).
  { rewrite dct_length; unfold DataHist; rewrite length_map; exact Hlen. }
  split; [exact Ht |]; split; [exact Hc |].
  split; [apply SmDCTData_length; exact Hc |].
  split; [intros i Hi; apply SmDCTData_nth; assumption |].
  split; [exact Hd |].
  split; [intros y Hr; apply scale_fin; exact Hr |].
  split; [intros y0 y n Hn; apply idct_nth; exact Hn |].
  split; [apply idct_dct |].
  split; [intros x Hx Hr; apply density_unsmoothed; assumption |].
  intros Hne.
  assert (HM : (0 < List.length data)%nat).
  { destruct data; [contradiction Hne; reflexivity | simpl; lia]. }
  exists (dct_real (mass counts (List.length data))).
  rewrite DataHist_fin in * by exact HM.
  split; [apply dct_fin |].
  split; [reflexivity |].
  split; [rewrite dct_fin; apply SmDCTData_fin |].
  intros Hr; rewrite Hd, dct_fin.
  change (map (fun y => fdiv (fmul y (Fin (INR (grid_size N))))
                             (Fin (hi - lo)))
              (idct (SmDCTData (map Fin (dct_real (mass counts
                                                         (List.length data))))
                               (grid_size N) t)))
    with (density (SmDCTData (map Fin (dct_real (mass counts
                                                       (List.length data))))
                             (grid_size N) t)
                  (grid_size N) (hi - lo)).
  rewrite density_fin by exact Hr.
  unfold density_real; rewrite map_map; reflexivity.
Qed.

Lemma density_reconstruction_witness :
  exists bw msh dens,
    kde sample_two 2 None None = Ok (bw, msh, dens) /\
    exists lo hi counts bins t_star,
      bounds sample_two None None = Ok (lo, hi) /\
      np_histogram sample_two (grid_size 2) (lo, hi) = Ok (counts, bins) /\
      dens = map (fun y => fdiv (fmul y (Fin (INR (grid_size 2))))
                                (Fin (hi - lo)))
                 (idct (SmDCTData
                          (dct (DataHist counts (List.length sample_two)))
                          (grid_size 2) t_star)) /\
      idct (dct (map Fin [1; 0])) = map Fin [1; 0] /\
      exists c : list R,
        dct (DataHist counts (List.length sample_two)) = map Fin c /\
        SmDCTData (dct (DataHist counts (List.length sample_two)))
                  (grid_size 2) t_star
        = map Fin (smooth_real c (grid_size 2) t_star).
Proof.
  destruct sample_two_run as [t [msh [dens [Ht E]]]].
  exists (sqrt t * (11 / 10 - - 1 / 10)), msh, dens.
  split; [exact E |].
  destruct (density_reconstruction sample_two 2 None None _ msh dens E)
    as [lo [hi [counts [bins [t' [Hb [Hh H]]]]]]].
  cbv zeta in H.
  destruct H as [_ [_ [_ [_ [Hd [_ [_ [Hinv [_ Hfin]]]]]]]]].
  destruct (Hfin ltac:(discriminate)) as [c [Hc [_ [Hs _]]]].
  exists lo, hi, counts, bins, t'.
  split; [exact Hb |]; split; [exact Hh |]; split; [exact Hd |].
  split; [exact (Hinv [1; 0]) |].
  exists c; split; [exact Hc | exact Hs].
Defined.

(** C10.  The attenuation leaves the coefficient of index 0 as it is, for
    every value of the diffusion time: its factor is [exp(0) = 1]. *)
Theorem dc_coefficient_unchanged (coeff : list float) (N : nat) (t_star : R) :
  List.length coeff = N ->
  nth 0 (SmDCTData coeff N t_star) NaN = nth 0 coeff NaN /\
  exp (- (INR 0 ^ 2) * PI ^ 2 * t_star / 2) = 1.
Proof.
  intros Hlen.
  assert (He : exp (- (INR 0 ^ 2) * PI ^ 2 * t_star / 2) = 1).
  { replace (- (INR 0 ^ 2) * PI ^ 2 * t_star / 2) with 0
      by (simpl; field).
    apply exp_0. }
  split; [| exact He].
  destruct N as [| N].
  - destruct coeff; [reflexivity | discriminate].
  - rewrite SmDCTData_nth by (exact Hlen || lia).
    rewrite He; apply fmul_one_r.
Qed.

Lemma dc_coefficient_unchanged_witness :
  List.length [Fin 3; Fin 4] = 2%nat /\
  nth 0 (SmDCTData [Fin 3; Fin 4] 2 (1 / 20)) NaN = Fin 3.
Proof.
  split; [reflexivity |].
  destruct (dc_coefficient_unchanged [Fin 3; Fin 4] 2 (1 / 20) eq_refl)
    as [H _].
  exact H.
Defined.

(** ** The empirical mass vector (lines 34-36) *)

Lemma mass_nth (counts : list nat) (M i : nat) :
  (i < List.length counts)%nat ->
  nth i (mass counts M) 0 = INR (nth i counts 0%nat) / INR M.
Proof.
  intros Hi; unfold mass.
  rewrite (nth_indep _ 0 ((fun c => INR c / INR M) 0%nat))
    by (rewrite length_map; exact Hi).
  apply (map_nth (fun c => INR c / INR M)).
Qed.

(** C4.  For bounds [lo < hi], a positive bin count and at least one
    sample, the histogram step raises nothing and yields a vector of [N]
    finite entries that are not negative, entry [i] being the fraction of
    the [M] samples that fall in bin [i]; the entries add up to the fraction
    of the samples that lie in [[lo, hi]], so samples outside are left out,
    and to 1 when every sample lies in [[lo, hi]]. *)
Theorem empirical_mass_vector (data : list R) (N : nat) (lo hi : R) :
  lo < hi -> (0 < N)%nat -> data <> [] ->
  let M := List.length data in
  let edges := linspace lo hi (N + 1) in
  let counts := map (fun i => count (in_bin edges N i) data) (seq 0 N) in
  np_histogram data N (lo, hi) = Ok (counts, edges) /\
  DataHist counts M = map Fin (mass counts M) /\
  List.length (mass counts M) = N /\
  Forall (fun m => 0 <= m) (mass counts M) /\
  (forall i, (i < N)%nat ->
     nth i (mass counts M) 0 = INR (count (in_bin edges N i) data) / INR M) /\
  (forall i x, (i < N)%nat ->
     in_bin edges N i x = true <->
     edge lo hi N i <= x /\
     (if Nat.eqb (S i) N then x <= edge lo hi N (S i)
      else x < edge lo hi N (S i))) /\
  edge lo hi N 0 = lo /\ edge lo hi N N = hi /\
  Rsum (mass counts M) = INR (count (inside lo hi) data) / INR M /\
  (Forall (fun x => lo <= x <= hi) data -> Rsum (mass counts M) = 1).
Proof.
  intros Hlh HN Hne M edges counts.
  assert (HM : (0 < M)%nat).
  { unfold M; destruct data; [contradiction Hne; reflexivity | simpl; lia]. }
  assert (Hlen : List.length counts = N).
  { unfold counts; rewrite length_map, length_seq; reflexivity. }
  assert (Hsum : Rsum (mass counts M)
                 = INR (count (inside lo hi) data) / INR M).
  { rewrite Rsum_mass; unfold counts, edges.
    rewrite bins_total by assumption; reflexivity. }
  split; [apply np_histogram_Ok; assumption |].
  split; [apply DataHist_fin; exact HM |].
  split; [unfold mass; rewrite length_map; exact Hlen |].
  split; [apply mass_nonneg |].
  split.
  { intros i Hi; rewrite mass_nth by (rewrite Hlen; exact Hi).
    unfold counts; rewrite nth_map_seq by exact Hi; reflexivity. }
  split; [intros i x Hi; apply in_bin_spec; exact Hi |].
  split; [apply edge_0 |].
  split; [apply edge_last; exact HN |].
  split; [exact Hsum |].
  intros Hall; rewrite Hsum, count_all.
  - fold M; field; apply not_0_INR; lia.
  - apply Forall_forall; intros x Hx.
    rewrite Forall_forall in Hall.
    apply inside_true, Hall, Hx.
Qed.

Lemma empirical_mass_vector_witness :
  0 < 1 /\ (0 < 2)%nat /\ [0; 1] <> [] /\
  Forall (fun x => 0 <= x <= 1) [0; 1] /\
  Rsum (mass (map (fun i => count (in_bin (linspace 0 1 (2 + 1)) 2 i) [0; 1])
                  (seq 0 2))
             (List.length [0; 1])) = 1.
Proof.
  assert (H01 : 0 < 1) by lra.
  assert (Hne : [0; 1] <> @nil R) by discriminate.
  assert (Hall : Forall (fun x => 0 <= x <= 1) [0; 1])
    by (repeat constructor; lra).
  destruct (empirical_mass_vector [0; 1] 2 0 1 H01 ltac:(lia) Hne)
    as [_ [_ [_ [_ [_ [_ [_ [_ [_ H]]]]]]]]].
  repeat split; try assumption; try lia.
  exact (H Hall).
Defined.

(** ** The grid resolution (line 22) *)

(** C5.  For a positive requested grid size the resolution used by [kde] is
    a power of two, it is not below the requested value, no power of two
    between the two exists, and a requested power of two is kept; the mass
    vector, the spectral coefficients, the mesh and the density of a call
    all have this length. *)
Theorem grid_resolution (N : nat) :
  (0 < N)%nat ->
  is_pow2 (grid_size N) /\
  (N <= grid_size N)%nat /\
  (forall m, is_pow2 m -> (N <= m)%nat -> (grid_size N <= m)%nat) /\
  (is_pow2 N -> grid_size N = N) /\
  (forall data MIN MAX bw msh dens,
     kde data N MIN MAX = Ok (bw, msh, dens) ->
     List.length msh = grid_size N /\
     List.length dens = grid_size N /\
     exists lo hi counts bins,
       bounds data MIN MAX = Ok (lo, hi) /\
       np_histogram data (grid_size N) (lo, hi) = Ok (counts, bins) /\
       List.length (DataHist counts (List.length data)) = grid_size N /\
       List.length (dct (DataHist counts (List.length data))) = grid_size N).
Proof.
  intros HN.
  split; [apply grid_size_pow2; exact HN |].
  split; [apply grid_size_ge; exact HN |].
  split; [intros m [j ->] Hm; apply grid_size_least; assumption |].
  split; [apply grid_size_fixed |].
  intros data MIN MAX bw msh dens E.
  destruct (kde_Ok_inv _ _ _ _ _ _ _ E)
    as [lo [hi [counts [bins [t [Hb [Hh [_ [_ [-> ->]]]]]]]]]].
  destruct (np_histogram_length _ _ _ _ _ Hh) as [Hlen _].
  assert (Hd : List.length (DataHist counts (List.length data)) = grid_size N).
  { unfold DataHist; rewrite length_map; exact Hlen. }
  assert (Hc : List.length (dct (DataHist counts (List.length data)))
               = grid_size N).
  { rewrite dct_length; exact Hd. }
  split; [apply mesh_length |].
  split.
  - rewrite density_length; apply SmDCTData_length; exact Hc.
  - exists lo, hi, counts, bins; repeat split; assumption.
Qed.

Lemma grid_resolution_witness :
  (0 < 3)%nat /\ grid_size 3 = 4%nat /\
  exists bw msh dens,
    kde sample_two 2 None None = Ok (bw, msh, dens) /\
    List.length msh = grid_size 2 /\ List.length dens = grid_size 2.
Proof.
  split; [lia |].
  split.
  - destruct (grid_resolution 3 ltac:(lia)) as [_ [Hge [Hleast _]]].
    assert (H4 : (grid_size 3 <= 4)%nat)
      by (apply Hleast; [exists 2%nat; reflexivity | lia]).
    destruct (grid_resolution 3 ltac:(lia)) as [[k Hk] _].
    rewrite Hk in *.
    destruct k as [| [| [| k]]]; simpl in *; lia.
  - destruct sample_two_run as [t [msh [dens [Ht E]]]].
    exists (sqrt t * (11 / 10 - - 1 / 10)), msh, dens.
    split; [exact E |].
    destruct (grid_resolution 2 ltac:(lia)) as [_ [_ [_ [_ H]]]].
    destruct (H _ _ _ _ _ _ E) as [H1 [H2 _]].
    split; assumption.
Defined.

(** ** The bandwidth (line 50) *)

(** Against C6 as stated.  A sample set with the two distinct values 0 and
    1 and default bounds for which [kde], on a grid of two bins, returns no
    bandwidth at all. *)
Lemma two_values_without_bandwidth :
  (exists x y, In x sample_pair /\ In y sample_pair /\ x <> y) /\
  (exists lo hi, bounds sample_pair None None = Ok (lo, hi) /\ lo < hi) /\
  forall bw msh dens, kde sample_pair 2 None None <> Ok (bw, msh, dens).
Proof.
  split; [| split].
  - exists 0, 1; repeat split; simpl; auto; lra.
  - exists (- 1 / 10), (11 / 10); split; [apply sample_pair_bounds | lra].
  - intros bw msh dens; rewrite sample_pair_run; discriminate.
Qed.

Lemma bounds_default_exists (data : list R) :
  data <> [] -> exists lo hi, bounds data None None = Ok (lo, hi).
Proof.
  intros Hne; destruct data as [| x l]; [contradiction Hne; reflexivity |].
  eexists _, _.
  apply (bounds_default_Ok (x :: l) _ _ eq_refl eq_refl).
Qed.

(** C6 (as amended).  For a sample set with at least two distinct values
    and well-formed bounds (both defaulted, or with [MIN < MAX] for the
    bounds in force), whenever [kde] returns, the bandwidth it returns is
    [sqrt(t_star) * (MAX - MIN)] for the zero [t_star] of [g] found in the
    bracket, and it is strictly positive.  On a positive grid size the only
    other outcome is the error of the root finder. *)
Theorem bandwidth_positive (data : list R) (N : nat) (MIN MAX : option R) :
  (exists x y, In x data /\ In y data /\ x <> y) ->
  (MIN = None /\ MAX = None) \/
  (exists lo hi, bounds data MIN MAX = Ok (lo, hi) /\ lo < hi) ->
  (forall bw msh dens,
     kde data N MIN MAX = Ok (bw, msh, dens) ->
     exists lo hi counts bins t_star,
       bounds data MIN MAX = Ok (lo, hi) /\
       np_histogram data (grid_size N) (lo, hi) = Ok (counts, bins) /\
       lo < hi /\
       0 < t_star <= 1 / 10 /\
       g (INR (List.length data)) (idx_of (grid_size N))
         (a2_of (dct_real (mass counts (List.length data)))) t_star = 0 /\
       bw = sqrt t_star * (hi - lo) /\
       0 < bw)
  /\
  ((0 < N)%nat ->
   kde data N MIN MAX
   = Raise (ValueError "f(a) and f(b) must have different signs")
   \/ exists bw msh dens, kde data N MIN MAX = Ok (bw, msh, dens) /\ 0 < bw).
Proof.
  intros [x [y [Hx [Hy Hxy]]]] Hwf.
  assert (Hne : data <> []) by (destruct data; [contradiction | discriminate]).
  assert (Hpos : forall t lo hi, 0 < t -> lo < hi -> 0 < sqrt t * (hi - lo)).
  { intros t lo hi Ht Hlh.
    apply Rmult_lt_0_compat; [apply sqrt_lt_R0 |]; lra. }
  assert (Hbounds : exists lo hi, bounds data MIN MAX = Ok (lo, hi) /\ lo < hi).
  { destruct Hwf as [[-> ->] | H]; [| exact H].
    destruct (bounds_default_exists data Hne) as [lo [hi Hb]].
    exists lo, hi; split; [exact Hb |].
    apply (bounds_default_proper data lo hi x y); assumption. }
  destruct Hbounds as [lo [hi [Hb Hlh]]].
  split.
  - intros bw msh dens E.
    destruct (kde_Ok_real data N MIN MAX bw msh dens Hne E)
      as [lo' [hi' [counts [bins [t [Hb' [Hh H]]]]]]].
    cbv zeta in H; destruct H as [_ [_ [Hr [Hg [Hbw _]]]]].
    rewrite Hb in Hb'; injection Hb' as <- <-.
    exists lo, hi, counts, bins, t.
    repeat split; try assumption; try lra.
    rewrite Hbw; apply Hpos; lra.
  - intros HN.
    pose proof (np_histogram_Ok data (grid_size N) lo hi Hlh
                  (grid_size_pos N HN)) as Hh.
    destruct (kde_outcomes data N MIN MAX lo hi _ _ Hb Hh Hne)
      as [E | [t [Ht [_ E]]]].
    + left; exact E.
    + right; eexists _, _, _; split; [exact E |].
      apply Hpos; lra.
Qed.

Lemma bandwidth_positive_witness :
  exists bw msh dens,
    (exists x y, In x sample_two /\ In y sample_two /\ x <> y) /\
    kde sample_two 2 None None = Ok (bw, msh, dens) /\
    0 < bw.
Proof.
  destruct sample_two_run as [t [msh [dens [Ht E]]]].
  exists (sqrt t * (11 / 10 - - 1 / 10)), msh, dens.
  assert (Hd : exists x y, In x sample_two /\ In y sample_two /\ x <> y).
  { exists 1, 0; repeat split; [left; reflexivity | right; left; reflexivity | lra]. }
  split; [exact Hd |]; split; [exact E |].
  destruct (bandwidth_positive sample_two 2 None None Hd
              (or_introl (conj eq_refl eq_refl))) as [H _].
  destruct (H _ msh dens E)
    as [lo [hi [counts [bins [t' [_ [_ [_ [_ [_ [_ Hpos]]]]]]]]]]].
  exact Hpos.
Defined.

(** ** A spectrum that vanishes *)

Lemma list_sum_zero (l : list nat) :
  list_sum l = 0%nat -> Forall (fun c => c = 0%nat) l.
Proof.
  induction l as [| c l IH]; simpl; intros H; constructor; [lia |].
  apply IH; lia.
Qed.

Lemma mass_zero (counts : list nat) (M : nat) :
  Forall (fun c => c = 0%nat) counts ->
  Forall (fun m => m = 0) (mass counts M).
Proof.
  intros H; unfold mass; induction H as [| c l Hc _ IH]; simpl; constructor.
  - rewrite Hc; simpl; unfold Rdiv; ring.
  - exact IH.
Qed.

Lemma Rsum_map2_zero (h : R -> nat -> R) (x : list R) (l : list nat) :
  (forall n, h 0 n = 0) ->
  Forall (fun m => m = 0) x -> Rsum (map2 h x l) = 0.
Proof.
  intros Hh H; revert l; induction H as [| m x Hm _ IH]; intros [| n l];
    simpl; try reflexivity.
  rewrite IH, Hm, Hh; ring.
Qed.

Lemma dct_real_zero (x : list R) :
  Forall (fun m => m = 0) x -> Forall (fun c => c = 0) (dct_real x).
Proof.
  intros H; unfold dct_real; apply Forall_forall; intros c Hc.
  apply in_map_iff in Hc; destruct Hc as [k [<- _]].
  rewrite Rsum_map2_zero; [ring | intros n; ring | exact H].
Qed.

Lemma a2_of_zero (coeff : list R) :
  Forall (fun c => c = 0) coeff -> Forall (fun a => a = 0) (a2_of coeff).
Proof.
  intros H; unfold a2_of; destruct H as [| c0 coeff _ H]; [constructor |].
  cbn [tl]; induction H as [| c l Hc _ IH]; simpl; constructor.
  - rewrite Hc; simpl; field.
  - exact IH.
Qed.

Lemma idx_of_pos (N : nat) : Forall (fun i => 0 < i) (idx_of N).
Proof.
  unfold idx_of; apply Forall_forall; intros i Hi.
  apply in_map_iff in Hi; destruct Hi as [k [<- _]].
  pose proof (pos_INR k); nra.
Qed.

Lemma zeros_or_nonzero (a2 : list R) :
  Forall (fun a => a = 0) a2 \/ Exists (fun a => a <> 0) a2.
Proof.
  induction a2 as [| a a2 IH]; [left; constructor |].
  destruct (Req_dec a 0) as [Ha | Ha]; [| right; left; exact Ha].
  destruct IH as [IH | IH]; [left; constructor; assumption | right; right; exact IH].
Qed.

(** Samples that all lie outside the bounds leave every bin empty. *)
Lemma counts_outside (data : list R) (N : nat) (lo hi : R) :
  lo < hi -> (0 < N)%nat ->
  Forall (fun x => x < lo \/ hi < x) data ->
  Forall (fun c => c = 0%nat)
         (map (fun i => count (in_bin (linspace lo hi (N + 1)) N i) data)
              (seq 0 N)).
Proof.
  intros Hlh HN Hout; apply list_sum_zero.
  rewrite bins_total by assumption.
  apply count_none, Forall_forall; intros x Hx.
  rewrite Forall_forall in Hout; specialize (Hout x Hx).
  destruct (inside lo hi x) eqn:E; [| reflexivity].
  apply inside_true in E; lra.
Qed.

(** [kde] on a non-empty sample whose spectrum vanishes. *)
Lemma kde_zero_spectrum (data : list R) (N : nat) (MIN MAX : option R)
      (lo hi : R) (counts : list nat) (bins : list R) :
  bounds data MIN MAX = Ok (lo, hi) ->
  np_histogram data (grid_size N) (lo, hi) = Ok (counts, bins) ->
  data <> [] ->
  Forall (fun a => a = 0) (a2_of (dct_real (mass counts (List.length data)))) ->
  kde data N MIN MAX
  = Raise (ValueError "f(a) and f(b) must have different signs").
Proof.
  intros Hb Hh Hne HZ.
  assert (HM : (0 < List.length data)%nat).
  { destruct data; [contradiction Hne; reflexivity | simpl; lia]. }
  rewrite (kde_pipeline data N MIN MAX lo hi counts bins Hb Hh HM).
  rewrite solver_zero_spectrum; [reflexivity | exact HM | apply idx_of_pos | exact HZ].
Qed.

Lemma sample_pair_equation (t : R) :
  bandwidth_equation (List.length sample_pair) (moment_index (grid_size 2))
    (SqDCTData (dct (DataHist [1%nat; 1%nat] (List.length sample_pair)))) t
  = NInf.
Proof.
  rewrite DataHist_fin by (simpl; lia).
  rewrite dct_fin, SqDCTData_fin, moment_index_fin.
  apply equation_zero; [simpl; lia | apply idx_of_pos |].
  unfold mass; cbn [map]; rewrite two_bin_a2.
  repeat constructor; simpl; field.
Qed.

(** ** Failure of the bracket (line 43) *)

(** Against C7 as stated.  The error raised when the bracket shows no sign
    change belongs to the same exception class as the error raised for an
    empty sample set, the plainest invalid input. *)
Lemma sign_error_shares_exception_class :
  exists e_bracket e_input,
    positive
      (fmul (bandwidth_equation (List.length sample_pair)
               (moment_index (grid_size 2))
               (SqDCTData (dct (DataHist [1%nat; 1%nat]
                                         (List.length sample_pair)))) 0)
            (bandwidth_equation (List.length sample_pair)
               (moment_index (grid_size 2))
               (SqDCTData (dct (DataHist [1%nat; 1%nat]
                                         (List.length sample_pair))))
               (1 / 10))) /\
    kde sample_pair 2 None None = Raise e_bracket /\
    kde [] 2 None None = Raise e_input /\
    exn_class e_bracket = exn_class e_input.
Proof.
  eexists _, _; split; [| split; [| split]].
  - rewrite !sample_pair_equation; exact Logic.I.
  - apply sample_pair_run.
  - unfold kde; rewrite bounds_empty by (left; reflexivity); reflexivity.
  - reflexivity.
Qed.

(** C7 (as amended).  When the end values of the bandwidth equation on the
    bracket have a positive product, [kde] fails with the [ValueError] of
    the root finder: the exception passes through [kde] to the caller and no
    result, partial or degraded, is returned.  The code has no error classes
    of its own, and an empty sample set with a defaulted bound fails with a
    [ValueError] as well. *)
Theorem bracket_failure (data : list R) (N : nat) (MIN MAX : option R)
        (lo hi : R) (counts : list nat) (bins : list R) :
  bounds data MIN MAX = Ok (lo, hi) ->
  np_histogram data (grid_size N) (lo, hi) = Ok (counts, bins) ->
  positive
    (fmul (bandwidth_equation (List.length data) (moment_index (grid_size N))
             (SqDCTData (dct (DataHist counts (List.length data)))) 0)
          (bandwidth_equation (List.length data) (moment_index (grid_size N))
             (SqDCTData (dct (DataHist counts (List.length data)))) (1 / 10))) ->
  kde data N MIN MAX
  = Raise (ValueError "f(a) and f(b) must have different signs") /\
  (forall bw msh dens, kde data N MIN MAX <> Ok (bw, msh, dens)) /\
  (forall N' MIN' MAX', MIN' = None \/ MAX' = None ->
     exists e, kde [] N' MIN' MAX' = Raise e /\
               exn_class e
               = exn_class
                   (ValueError "f(a) and f(b) must have different signs")).
Proof.
  intros Hb Hh Hpos.
  assert (E : kde data N MIN MAX
              = Raise (ValueError "f(a) and f(b) must have different signs")).
  { unfold kde; rewrite Hb; cbn [bind]; rewrite Hh; cbn [bind].
    rewrite brentq_same_sign by exact Hpos; reflexivity. }
  split; [exact E |]; split.
  - intros bw msh dens; rewrite E; discriminate.
  - intros N' MIN' MAX' Hnone; eexists; split.
    + unfold kde; rewrite bounds_empty by exact Hnone; reflexivity.
    + reflexivity.
Qed.

Lemma bracket_failure_witness :
  bounds sample_pair None None = Ok (- 1 / 10, 11 / 10) /\
  np_histogram sample_pair (grid_size 2) (- 1 / 10, 11 / 10)
  = Ok ([1%nat; 1%nat], linspace (- 1 / 10) (11 / 10) 3) /\
  kde sample_pair 2 None None
  = Raise (ValueError "f(a) and f(b) must have different signs").
Proof.
  assert (Hh : np_histogram sample_pair (grid_size 2) (- 1 / 10, 11 / 10)
               = Ok ([1%nat; 1%nat], linspace (- 1 / 10) (11 / 10) 3)).
  { rewrite grid_size_2; apply sample_pair_histogram. }
  split; [apply sample_pair_bounds |]; split; [exact Hh |].
  destruct (bracket_failure sample_pair 2 None None _ _ _ _
              sample_pair_bounds Hh) as [E _].
  - rewrite !sample_pair_equation; exact Logic.I.
  - exact E.
Defined.

(** ** Degenerate samples *)

Lemma fdiv_zero_not_finite (x : float) : ~ finite (fdiv x (Fin 0)).
Proof.
  destruct x as [a | | |]; unfold fdiv, by_sign.
  - destruct (Req_dec_T 0 0) as [_ | Hne]; [| contradiction Hne; reflexivity].
    destruct (Rlt_dec a 0); [intros [] |].
    destruct (Rlt_dec 0 a); intros [].
  - destruct (Rlt_dec 0 0); intros [].
  - destruct (Rlt_dec 0 0); intros [].
  - intros [].
Qed.

(** Against C8 as stated.  Four thousand equal samples, default bounds,
    two bins: [kde] raises nothing and returns a bandwidth of zero. *)
Lemma equal_samples_zero_bandwidth :
  (forall x y, In x sample_flat -> In y sample_flat -> x = y) /\
  exists msh dens, kde sample_flat 2 None None = Ok (0, msh, dens).
Proof.
  split.
  - intros x y Hx Hy; unfold sample_flat in *.
    apply repeat_spec in Hx, Hy; congruence.
  - destruct sample_flat_run as [t [msh [dens [_ E]]]].
    exists msh, dens; rewrite E.
    do 3 f_equal; ring.
Qed.

Lemma bounds_flat (data : list R) :
  data <> [] ->
  (forall x y, In x data -> In y data -> x = y) ->
  exists v, In v data /\ bounds data None None = Ok (v, v).
Proof.
  intros Hne Hsame.
  destruct data as [| x l]; [contradiction Hne; reflexivity |].
  destruct (np_min_spec (x :: l) _ eq_refl) as [Hmn _].
  destruct (np_max_spec (x :: l) _ eq_refl) as [Hmx _].
  exists (fold_left Rmin l x); split; [exact Hmn |].
  rewrite (bounds_default_Ok (x :: l) _ _ eq_refl eq_refl).
  rewrite (Hsame _ _ Hmx Hmn).
  f_equal; f_equal; lra.
Qed.

(** C8 (as amended).  For a sample set with fewer than two distinct values
    and default bounds [kde] never returns a positive bandwidth: an empty
    sample set raises the [ValueError] of [np.min]; a non-empty one, on a
    positive grid size, either fails with the error of the root finder or
    returns the bandwidth zero, its support having the width
    [MAX - MIN = 0], together with a density without one finite entry. *)
Theorem degenerate_sample (data : list R) (N : nat) :
  (forall x y, In x data -> In y data -> x = y) ->
  (data = [] ->
   kde data N None None
   = Raise (ValueError
       "zero-size array to reduction operation minimum which has no identity"))
  /\
  (forall bw msh dens,
     kde data N None None = Ok (bw, msh, dens) ->
     bw = 0 /\ Forall (fun d => ~ finite d) dens)
  /\
  (data <> [] -> (0 < N)%nat ->
   kde data N None None
   = Raise (ValueError "f(a) and f(b) must have different signs")
   \/ exists t_star msh dens,
        0 < t_star <= 1 / 10 /\
        kde data N None None = Ok (sqrt t_star * 0, msh, dens)).
Proof.
  intros Hsame; split; [| split].
  - intros ->; unfold kde; rewrite bounds_empty by (left; reflexivity).
    reflexivity.
  - intros bw msh dens E.
    destruct (kde_Ok_inv _ _ _ _ _ _ _ E)
      as [lo [hi [counts [bins [t [Hb [_ [_ [-> [_ ->]]]]]]]]]].
    rewrite (bounds_default_flat data lo hi Hsame Hb).
    split; [ring |].
    unfold density; apply Forall_forall; intros d Hd.
    apply in_map_iff in Hd; destruct Hd as [y [<- _]].
    apply fdiv_zero_not_finite.
  - intros Hne HN.
    destruct (bounds_flat data Hne Hsame) as [v [_ Hb]].
    pose proof (np_histogram_flat data (grid_size N) v
                  (grid_size_pos N HN)) as Hh.
    destruct (kde_outcomes data N None None v v _ _ Hb Hh Hne)
      as [E | [t [Ht [_ E]]]].
    + left; exact E.
    + right; eexists t, _, _; split; [exact Ht |].
      rewrite E; do 3 f_equal; ring.
Qed.

Lemma degenerate_sample_witness :
  (forall x y, In x sample_flat -> In y sample_flat -> x = y) /\
  exists bw msh dens,
    kde sample_flat 2 None None = Ok (bw, msh, dens) /\
    bw = 0 /\ Forall (fun d => ~ finite d) dens.
Proof.
  assert (Hsame : forall x y, In x sample_flat -> In y sample_flat -> x = y).
  { intros x y Hx Hy; unfold sample_flat in *.
    apply repeat_spec in Hx, Hy; congruence. }
  split; [exact Hsame |].
  destruct sample_flat_run as [t [msh [dens [_ E]]]].
  exists (sqrt t * (0 - 0)), msh, dens.
  split; [exact E |].
  destruct (degenerate_sample sample_flat 2 Hsame) as [_ [H _]].
  exact (H _ _ _ E).
Defined.

(** ** Samples outside the bounds (lines 34-43 and 59-63) *)

Lemma Forall_map_Fin (l : list R) :
  Forall (fun a => a = 0) l -> Forall (fun x => x = Fin 0) (map Fin l).
Proof.
  induction 1 as [| a l Ha _ IH]; simpl; constructor; [rewrite Ha |]; auto.
Qed.

(** C9.  [kde] does not check that a sample lies inside the bounds a caller
    supplies.  When every sample lies outside them the histogram raises
    nothing, the empirical mass vector is zero, every squared coefficient
    handed to the solver is zero, the initial [f] of the descent is 0 and the
    quotient of line 63 is a division by zero (an infinity for numpy), so
    that the bandwidth equation is minus infinity everywhere and the root
    finder rejects the bracket.  [fixed_point] has a finite value only if
    some squared coefficient is not zero. *)
Theorem samples_outside_bounds (data : list R) (N : nat) (lo hi : R) :
  data <> [] -> (0 < N)%nat -> lo < hi ->
  Forall (fun x => x < lo \/ hi < x) data ->
  let Ng := grid_size N in
  let M := List.length data in
  let edges := linspace lo hi (Ng + 1) in
  let counts := map (fun i => count (in_bin edges Ng i) data) (seq 0 Ng) in
  let I := moment_index Ng in
  let a2 := SqDCTData (dct (DataHist counts M)) in
  np_histogram data Ng (lo, hi) = Ok (counts, edges) /\
  Forall (fun m => m = Fin 0) (DataHist counts M) /\
  Forall (fun a => a = Fin 0) a2 /\
  (forall t : R, moment 7 I a2 (Fin t) = Fin 0) /\
  (forall s : nat,
     fdiv (fdiv (Fin (2 * const s * K0 s)) (Fin (INR M))) (Fin 0) = PInf /\
     time s (Fin (INR M)) (Fin 0) = PInf) /\
  (forall t : R, fixed_point (Fin t) (Fin (INR M)) I a2 = NInf) /\
  kde data N (Some lo) (Some hi)
  = Raise (ValueError "f(a) and f(b) must have different signs") /\
  (forall (t M' : R) (idx a2' : list R),
     0 < M' -> Forall (fun i => 0 < i) idx ->
     finite (fixed_point (Fin t) (Fin M') (map Fin idx) (map Fin a2')) ->
     Exists (fun a => a <> 0) a2').
Proof.
  intros Hne HN Hlh Hout Ng M edges counts I a2.
  assert (HNg : (0 < Ng)%nat) by (apply grid_size_pos; exact HN).
  assert (HM : (0 < M)%nat).
  { unfold M; destruct data; [contradiction Hne; reflexivity | simpl; lia]. }
  assert (HMR : 0 < INR M) by (apply lt_0_INR; exact HM).
  assert (Hh : np_histogram data Ng (lo, hi) = Ok (counts, edges))
    by (apply np_histogram_Ok; assumption).
  assert (Hmass : Forall (fun m => m = 0) (mass counts M))
    by (apply mass_zero, counts_outside; assumption).
  assert (Ha2 : Forall (fun a => a = 0) (a2_of (dct_real (mass counts M))))
    by (apply a2_of_zero, dct_real_zero; exact Hmass).
  assert (Ea2 : a2 = map Fin (a2_of (dct_real (mass counts M)))).
  { unfold a2; rewrite DataHist_fin by exact HM.
    rewrite dct_fin, SqDCTData_fin; reflexivity. }
  assert (EI : I = map Fin (idx_of Ng)) by apply moment_index_fin.
  split; [exact Hh |].
  split; [rewrite DataHist_fin by exact HM; apply Forall_map_Fin; exact Hmass |].
  split; [rewrite Ea2; apply Forall_map_Fin; exact Ha2 |].
  split; [intros t; rewrite Ea2, EI; apply moment_zero_fin; exact Ha2 |].
  split.
  { intros s; split; [| apply time_zero; exact HMR].
    rewrite fdiv_fin by lra.
    apply fdiv_zero.
    pose proof (const_pos s); pose proof (K0_pos s).
    apply Rdiv_lt_0_compat; [| exact HMR].
    apply Rmult_lt_0_compat; [lra | assumption]. }
  split.
  { intros t; rewrite Ea2, EI.
    apply fixed_point_zero; [exact HMR | apply idx_of_pos | exact Ha2]. }
  split.
  { apply (kde_zero_spectrum data N (Some lo) (Some hi) lo hi counts edges);
      [reflexivity | exact Hh | exact Hne | exact Ha2]. }
  intros t M' idx a2' HM' Hidx Hfin.
  destruct (zeros_or_nonzero a2') as [HZ | HE]; [| exact HE].
  rewrite fixed_point_zero in Hfin by assumption.
  destruct Hfin.
Qed.

Lemma samples_outside_bounds_witness :
  [5] <> [] /\ (0 < 2)%nat /\ 0 < 1 /\
  Forall (fun x => x < 0 \/ 1 < x) [5] /\
  kde [5] 2 (Some 0) (Some 1)
  = Raise (ValueError "f(a) and f(b) must have different signs").
Proof.
  assert (Hne : [5] <> @nil R) by discriminate.
  assert (H01 : 0 < 1) by lra.
  assert (Hout : Forall (fun x => x < 0 \/ 1 < x) [5])
    by (constructor; [right; lra | constructor]).
  destruct (samples_outside_bounds [5] 2 0 1 Hne ltac:(lia) H01 Hout)
    as [_ [_ [_ [_ [_ [_ [E _]]]]]]].
  repeat split; try assumption; lia.
Defined.

(** ** Checks on small inputs *)

Example xrange_odd_4 : xrange_odd 4 = [1; 3; 5; 7]%nat.
Proof. reflexivity. Qed.

Example range_down_7 : range_down 7 = [7; 6; 5; 4; 3; 2]%nat.
Proof. reflexivity. Qed.

Example np_prod_odd_7 : np_prod (xrange_odd 7) = 135135.
Proof. numeric_side. Qed.

Example division_by_zero_is_infinite : fdiv (Fin 1) (Fin 0) = PInf.
Proof. apply fdiv_zero; lra. Qed.

Example zero_times_infinity_is_nan : fmul (Fin 0) PInf = NaN.
Proof.
  unfold fmul, by_sign.
  destruct (Rlt_dec 0 0); [lra | reflexivity].
Qed.

Example grid_size_1 : grid_size 1 = 1%nat.
Proof. apply grid_size_fixed; exists 0%nat; reflexivity. Qed.

Example grid_size_5 : grid_size 5 = 8%nat.
Proof.
  assert (Hle : (grid_size 5 <= 2 ^ 3)%nat)
    by (apply grid_size_least; simpl; lia).
  pose proof (grid_size_ge 5 ltac:(lia)) as Hge.
  destruct (grid_size_pow2 5 ltac:(lia)) as [k Hk].
  rewrite Hk in *.
  destruct k as [| [| [| [| k]]]]; simpl in *; lia.
Qed.

Example linspace_3 : linspace 0 1 3 = [0; 1 / 2; 1].
Proof.
  unfold linspace; simpl.
  repeat (f_equal; try lra).
Qed.

Example mesh_2 : mesh (linspace 0 1 3) 2 = [1 / 4; 3 / 4].
Proof.
  rewrite linspace_3; unfold mesh; simpl.
  repeat (f_equal; try lra).
Qed.

Example histogram_3 :
  np_histogram [0; 1 / 4; 1] 2 (0, 1)
  = Ok ([2%nat; 1%nat], linspace 0 1 3).
Proof.
  rewrite np_histogram_Ok by (lra || lia).
  cbn [seq map]; rewrite !count_cons.
  rewrite (in_bin_true 0 1 2 0 0) by (lia || (unfold edge; simpl; lra)).
  rewrite (in_bin_true 0 1 2 0 (1 / 4)) by (lia || (unfold edge; simpl; lra)).
  rewrite (in_bin_false 0 1 2 0 1) by (lia || (unfold edge; simpl; lra)).
  rewrite (in_bin_false 0 1 2 1 0) by (lia || (unfold edge; simpl; lra)).
  rewrite (in_bin_false 0 1 2 1 (1 / 4)) by (lia || (unfold edge; simpl; lra)).
  rewrite (in_bin_true 0 1 2 1 1) by (lia || (unfold edge; simpl; lra)).
  reflexivity.
Qed.

Example kde_empty :
  kde [] 16 None None
  = Raise (ValueError
      "zero-size array to reduction operation minimum which has no identity").
Proof. reflexivity. Qed.

Example kde_no_bins :
  kde [1; 2] 0 None None
  = Raise (ValueError "bins should be a positive integer.").
Proof.
  unfold kde.
  rewrite (bounds_default_Ok [1; 2] 1 2).
  - cbn [bind grid_size]; unfold np_histogram.
    destruct (Rlt_dec _ _); [lra | reflexivity].
  - apply np_min_unique; [left; reflexivity | repeat constructor; lra].
  - apply np_max_unique; [right; left; reflexivity | repeat constructor; lra].
Qed.

(** * Further properties of [kde.py] *)

(** ** The default bounds *)

Lemma bounds_default_contains (data : list R) (lo hi : R) :
  bounds data None None = Ok (lo, hi) ->
  Forall (fun x => lo <= x <= hi) data.
Proof.
  intros Hb.
  destruct (bounds_default data lo hi Hb) as [mn [mx [Hmn [Hmx [-> ->]]]]].
  apply np_min_spec in Hmn; destruct Hmn as [Hin Hmn].
  apply np_max_spec in Hmx; destruct Hmx as [_ Hmx].
  rewrite Forall_forall in Hmn, Hmx |- *.
  intros x Hx.
  pose proof (Hmn x Hx); pose proof (Hmx x Hx).
  pose proof (Hmx mn Hin); lra.
Qed.

Lemma np_histogram_bins_pos (a : list R) (bins : nat) (r : R * R)
      (counts : list nat) (edges : list R) :
  np_histogram a bins r = Ok (counts, edges) -> (0 < bins)%nat.
Proof.
  unfold np_histogram; destruct r as [mn mx].
  destruct (Rlt_dec mx mn); [discriminate |].
  destruct (Nat.ltb_spec bins 1); [discriminate | lia].
Qed.

Lemma density_real_length (coeff : list R) (N : nat) (t R' : R) :
  List.length coeff = N -> List.length (density_real coeff N t R') = N.
Proof.
  intros H; unfold density_real.
  rewrite length_map, idct_real_length; apply smooth_real_length; exact H.
Qed.

(** ** The total mass of the returned density (lines 34-48) *)

(** X1.  Smoothing moves mass but neither creates nor loses any: when [kde]
    returns for a non-empty sample and bounds [lo < hi], every entry of the
    density is finite, and the entries, each weighted by the width
    [(hi - lo) / N] of a grid cell, add up to the fraction of the samples
    that lie in [[lo, hi]], whatever diffusion time the solver found; the
    total is 1 when no sample lies outside the bounds, and so whenever both
    bounds are defaulted. *)
Theorem density_total_mass (data : list R) (N : nat) (MIN MAX : option R)
        (lo hi bw : R) (msh : list R) (dens : list float) :
  data <> [] ->
  bounds data MIN MAX = Ok (lo, hi) -> lo < hi ->
  kde data N MIN MAX = Ok (bw, msh, dens) ->
  exists d : list R,
    dens = map Fin d /\
    List.length d = grid_size N /\
    Rsum d * ((hi - lo) / INR (grid_size N))
    = INR (count (inside lo hi) data) / INR (List.length data) /\
    (Forall (fun x => lo <= x <= hi) data ->
     Rsum d * ((hi - lo) / INR (grid_size N)) = 1) /\
    (MIN = None -> MAX = None ->
     Rsum d * ((hi - lo) / INR (grid_size N)) = 1).
Proof.
  intros Hne Hb Hlh E.
  destruct (kde_Ok_real data N MIN MAX bw msh dens Hne E)
    as [lo' [hi' [counts [bins [t [Hb' [Hh H]]]]]]].
  cbv zeta in H; destruct H as [_ [_ [_ [_ [_ [_ Hd]]]]]].
  rewrite Hb in Hb'; injection Hb' as <- <-.
  pose proof (np_histogram_bins_pos _ _ _ _ _ Hh) as HN.
  destruct (np_histogram_length _ _ _ _ _ Hh) as [Hlen _].
  rewrite np_histogram_Ok in Hh by assumption.
  injection Hh as Hc _.
  set (M := List.length data) in *.
  assert (HM : 0 < INR M).
  { apply lt_0_INR; unfold M.
    destruct data; [contradiction Hne; reflexivity | simpl; lia]. }
  assert (Hml : List.length (mass counts M) = grid_size N)
    by (unfold mass; rewrite length_map; exact Hlen).
  assert (Hcl : List.length (dct_real (mass counts M)) = grid_size N)
    by (rewrite dct_real_length; exact Hml).
  assert (Htot : Rsum (density_real (dct_real (mass counts M)) (grid_size N)
                                    t (hi - lo))
                 * ((hi - lo) / INR (grid_size N))
                 = INR (count (inside lo hi) data) / INR M).
  { rewrite <- Hml.
    rewrite density_real_total.
    - rewrite Rsum_mass, <- Hc, bins_total by assumption; reflexivity.
    - intros E0; rewrite E0 in Hml; simpl in Hml; lia.
    - lra. }
  assert (Hall : Forall (fun x => lo <= x <= hi) data ->
                 INR (count (inside lo hi) data) / INR M = 1).
  { intros Hin; rewrite count_all.
    - fold M; field; lra.
    - apply Forall_forall; intros x Hx.
      rewrite Forall_forall in Hin.
      apply inside_true, Hin, Hx. }
  exists (density_real (dct_real (mass counts M)) (grid_size N) t (hi - lo)).
  split; [rewrite Hd; apply density_fin; lra |].
  split; [apply density_real_length; exact Hcl |].
  split; [exact Htot |].
  split; [intros Hin; rewrite Htot; apply Hall; exact Hin |].
  intros -> ->; rewrite Htot; apply Hall.
  apply bounds_default_contains; exact Hb.
Qed.

Lemma density_total_mass_witness :
  exists bw msh dens d,
    sample_two <> [] /\
    bounds sample_two None None = Ok (- 1 / 10, 11 / 10) /\
    - 1 / 10 < 11 / 10 /\
    kde sample_two 2 None None = Ok (bw, msh, dens) /\
    dens = map Fin d /\
    Rsum d * ((11 / 10 - - 1 / 10) / INR (grid_size 2)) = 1.
Proof.
  destruct sample_two_run as [t [msh [dens [Ht E]]]].
  assert (Hne : sample_two <> []) by discriminate.
  assert (Hlh : - 1 / 10 < 11 / 10) by lra.
  destruct (density_total_mass sample_two 2 None None (- 1 / 10) (11 / 10)
              _ msh dens Hne sample_two_bounds Hlh E)
    as [d [Hd [_ [_ [_ H1]]]]].
  exists (sqrt t * (11 / 10 - - 1 / 10)), msh, dens, d.
  split; [exact Hne |].
  split; [exact sample_two_bounds |].
  split; [exact Hlh |].
  split; [exact E |].
  split; [exact Hd |].
  apply H1; reflexivity.
Defined.

(** ** Default bounds and the histogram (lines 23-36) *)

Lemma count_inside_all (lo hi : R) (data : list R) :
  Forall (fun x => lo <= x <= hi) data ->
  count (inside lo hi) data = List.length data.
Proof.
  intros Hin; apply count_all, Forall_forall; intros x Hx.
  rewrite Forall_forall in Hin.
  apply inside_true, Hin, Hx.
Qed.

(** X2.  With both bounds defaulted no sample is lost, also when all the
    samples are equal: for a non-empty sample and a positive grid size the
    default bounds exist and enclose every sample, the histogram raises
    nothing, its counts add up to the number of samples and the empirical
    mass vector adds up to 1. *)
Theorem default_bounds_keep_every_sample (data : list R) (N : nat) :
  data <> [] -> (0 < N)%nat ->
  exists lo hi counts bins,
    bounds data None None = Ok (lo, hi) /\
    lo <= hi /\
    Forall (fun x => lo <= x <= hi) data /\
    np_histogram data (grid_size N) (lo, hi) = Ok (counts, bins) /\
    list_sum counts = List.length data /\
    Rsum (mass counts (List.length data)) = 1.
Proof.
  intros Hne HN.
  destruct (bounds_default_exists data Hne) as [lo [hi Hb]].
  pose proof (bounds_default_contains data lo hi Hb) as Hin.
  pose proof (grid_size_pos N HN) as HNg.
  assert (Hle : lo <= hi).
  { destruct data as [| x l]; [contradiction Hne; reflexivity |].
    inversion Hin; subst; lra. }
  assert (HM : INR (List.length data) <> 0).
  { apply not_0_INR; destruct data; [contradiction Hne; reflexivity |].
    discriminate. }
  assert (Hmass : forall counts,
             list_sum counts = List.length data ->
             Rsum (mass counts (List.length data)) = 1).
  { intros counts Hc; rewrite Rsum_mass, Hc; field; exact HM. }
  destruct (Rle_lt_or_eq_dec lo hi Hle) as [Hlt | Heq].
  - eexists lo, hi, _, _.
    split; [exact Hb |]; split; [exact Hle |]; split; [exact Hin |].
    split; [apply np_histogram_Ok; assumption |].
    assert (Hc : list_sum
                   (map (fun i =>
                           count (in_bin (linspace lo hi (grid_size N + 1))
                                         (grid_size N) i) data)
                        (seq 0 (grid_size N)))
                 = List.length data).
    { rewrite bins_total by assumption.
      apply count_inside_all; exact Hin. }
    split; [exact Hc | apply Hmass; exact Hc].
  - subst hi.
    eexists lo, lo, _, _.
    split; [exact Hb |]; split; [exact Hle |]; split; [exact Hin |].
    split; [apply np_histogram_flat; assumption |].
    assert (Hc : list_sum
                   (map (fun i =>
                           count (in_bin (linspace (lo - 1 / 2) (lo + 1 / 2)
                                                   (grid_size N + 1))
                                         (grid_size N) i) data)
                        (seq 0 (grid_size N)))
                 = List.length data).
    { rewrite bins_total by (assumption || lra).
      apply count_inside_all.
      eapply Forall_impl; [| exact Hin].
      simpl; intros x Hx; lra. }
    split; [exact Hc | apply Hmass; exact Hc].
Qed.

Lemma default_bounds_keep_every_sample_witness :
  sample_flat <> [] /\ (0 < 2)%nat /\
  exists lo hi counts bins,
    bounds sample_flat None None = Ok (lo, hi) /\
    np_histogram sample_flat (grid_size 2) (lo, hi) = Ok (counts, bins) /\
    list_sum counts = List.length sample_flat.
Proof.
  assert (Hne : sample_flat <> []) by discriminate.
  assert (H2 : (0 < 2)%nat) by lia.
  destruct (default_bounds_keep_every_sample sample_flat 2 Hne H2)
    as [lo [hi [counts [bins [Hb [_ [_ [Hh [Hc _]]]]]]]]].
  split; [exact Hne |]; split; [exact H2 |].
  exists lo, hi, counts, bins.
  split; [exact Hb |]; split; [exact Hh | exact Hc].
Defined.

(** ** The mesh (line 49) *)

Lemma mesh_nth (bins : list R) (N i : nat) :
  (i < N)%nat ->
  nth i (mesh bins N) 0 = (nth i bins 0 + nth (i + 1) bins 0) / 2.
Proof.
  intros Hi; unfold mesh.
  exact (nth_map_seq (fun j => (nth j bins 0 + nth (j + 1) bins 0) / 2)
                     N i 0 Hi).
Qed.

Lemma mesh_linspace_nth (a b : R) (N i : nat) :
  (i < N)%nat ->
  nth i (mesh (linspace a b (N + 1)) N) 0
  = a + (INR i + 1 / 2) * ((b - a) / INR N).
Proof.
  intros Hi; rewrite mesh_nth by exact Hi.
  rewrite !nth_linspace by lia.
  unfold edge; rewrite plus_INR; simpl INR; field.
  apply not_0_INR; lia.
Qed.

(** The edges that the histogram returns. *)
Lemma np_histogram_edges (data : list R) (N : nat) (lo hi : R)
      (counts : list nat) (bins : list R) :
  np_histogram data N (lo, hi) = Ok (counts, bins) ->
  exists a b,
    (lo < hi -> a = lo /\ b = hi) /\
    (lo = hi -> a = lo - 1 / 2 /\ b = hi + 1 / 2) /\
    a < b /\ bins = linspace a b (N + 1).
Proof.
  unfold np_histogram.
  destruct (Rlt_dec hi lo) as [| Hge]; [discriminate |].
  destruct (Nat.ltb N 1); [discriminate |].
  destruct (Req_dec_T lo hi) as [He | Hn]; intros E; injection E as _ <-.
  - exists (lo - 1 / 2), (hi + 1 / 2); repeat split; try lra.
  - exists lo, hi; repeat split; try lra.
Qed.

(** X3.  The mesh that [kde] returns holds the centres of the grid cells:
    with [a, b] the range of the histogram (the bounds [lo < hi]
    themselves, or [lo - 1/2, lo + 1/2] when the bounds coincide) and
    [h = (b - a) / N] the width of a cell, entry [i] is [a + (i + 1/2) h].
    The mesh therefore has [N] entries strictly between [a] and [b], spaced
    by [h]; it starts half a cell above [a] and ends half a cell below [b],
    so neither bound is a mesh point. *)
Theorem mesh_cell_centres (data : list R) (N : nat) (MIN MAX : option R)
        (lo hi bw : R) (msh : list R) (dens : list float) :
  bounds data MIN MAX = Ok (lo, hi) ->
  kde data N MIN MAX = Ok (bw, msh, dens) ->
  exists a b,
    (lo < hi -> a = lo /\ b = hi) /\
    (lo = hi -> a = lo - 1 / 2 /\ b = hi + 1 / 2) /\
    a < b /\
    let Ng := grid_size N in
    let h := (b - a) / INR Ng in
    List.length msh = Ng /\
    (forall i, (i < Ng)%nat -> nth i msh 0 = a + (INR i + 1 / 2) * h) /\
    (forall i, (i < Ng)%nat -> a < nth i msh 0 < b) /\
    (forall i, (S i < Ng)%nat -> nth (S i) msh 0 - nth i msh 0 = h) /\
    nth 0 msh 0 = a + h / 2 /\
    nth (Ng - 1) msh 0 = b - h / 2.
Proof.
  intros Hb E.
  destruct (kde_Ok_inv _ _ _ _ _ _ _ E)
    as [lo' [hi' [counts [bins [t [Hb' [Hh [_ [_ [-> _]]]]]]]]]].
  rewrite Hb in Hb'; injection Hb' as <- <-.
  pose proof (np_histogram_bins_pos _ _ _ _ _ Hh) as HN.
  destruct (np_histogram_edges _ _ _ _ _ _ Hh) as [a [b [H1 [H2 [Hab ->]]]]].
  exists a, b.
  split; [exact H1 |]; split; [exact H2 |]; split; [exact Hab |].
  cbv zeta.
  set (Ng := grid_size N) in *.
  assert (HNg : 0 < INR Ng) by (apply lt_0_INR; exact HN).
  assert (Hh0 : 0 < (b - a) / INR Ng) by (apply Rdiv_lt_0_compat; lra).
  assert (Hfull : INR Ng * ((b - a) / INR Ng) = b - a) by (field; lra).
  split; [apply mesh_length |].
  split; [intros i Hi; apply mesh_linspace_nth; exact Hi |].
  split.
  { intros i Hi; rewrite mesh_linspace_nth by exact Hi.
    assert (Hi' : INR i + 1 <= INR Ng)
      by (rewrite <- S_INR; apply le_INR; lia).
    pose proof (pos_INR i).
    split; [nra |].
    assert ((INR i + 1 / 2) * ((b - a) / INR Ng)
            < INR Ng * ((b - a) / INR Ng))
      by (apply Rmult_lt_compat_r; lra).
    lra. }
  split.
  { intros i Hi; rewrite !mesh_linspace_nth by lia.
    rewrite S_INR; ring. }
  split.
  { rewrite mesh_linspace_nth by exact HN; simpl INR; lra. }
  rewrite mesh_linspace_nth by lia.
  rewrite minus_INR by lia; simpl INR.
  replace ((INR Ng - 1 + 1 / 2) * ((b - a) / INR Ng))
    with (INR Ng * ((b - a) / INR Ng) - (b - a) / INR Ng / 2) by lra.
  rewrite Hfull; lra.
Qed.

Lemma mesh_cell_centres_witness :
  exists bw msh dens,
    bounds sample_two None None = Ok (- 1 / 10, 11 / 10) /\
    kde sample_two 2 None None = Ok (bw, msh, dens) /\
    List.length msh = grid_size 2 /\
    forall i, (i < grid_size 2)%nat -> - 1 / 10 < nth i msh 0 < 11 / 10.
Proof.
  destruct sample_two_run as [t [msh [dens [Ht E]]]].
  exists (sqrt t * (11 / 10 - - 1 / 10)), msh, dens.
  destruct (mesh_cell_centres sample_two 2 None None (- 1 / 10) (11 / 10)
              _ msh dens sample_two_bounds E)
    as [a [b [H1 [_ [_ H]]]]].
  cbv zeta in H; destruct H as [Hlen [_ [Hin _]]].
  destruct H1 as [-> ->]; [lra |].
  split; [exact sample_two_bounds |].
  split; [exact E |].
  split; [exact Hlen | exact Hin].
Defined.

(** ** Rounding of the grid size (line 22) *)

Lemma grid_size_log2_up (n : nat) :
  (0 < n)%nat -> grid_size n = (2 ^ Nat.log2_up n)%nat.
Proof.
  intros Hn; apply Nat.le_antisymm.
  - apply grid_size_least; [exact Hn |].
    apply Nat.log2_up_le_pow2; [exact Hn | lia].
  - destruct (grid_size_pow2 n Hn) as [k Hk]; rewrite Hk.
    apply Nat.pow_le_mono_r; [lia |].
    apply Nat.log2_up_le_pow2; [exact Hn |].
    rewrite <- Hk; apply grid_size_ge; exact Hn.
Qed.

Lemma grid_size_idempotent (n : nat) : grid_size (grid_size n) = grid_size n.
Proof.
  destruct n as [| n]; [reflexivity |].
  apply grid_size_fixed, grid_size_pow2; lia.
Qed.

(** X4.  The rounding of the requested grid size: for a positive request
    the real-valued computation [2**ceil(log2(N))] agrees with the integer
    [2 ^ log2_up N] and stays below twice the request; rounding twice is
    rounding once, a larger request never gives a smaller grid, and [kde]
    called with the rounded size is [kde] called with the request. *)
Theorem grid_size_rounding (N : nat) :
  ((0 < N)%nat -> grid_size N = (2 ^ Nat.log2_up N)%nat) /\
  ((0 < N)%nat -> (grid_size N < 2 * N)%nat) /\
  grid_size (grid_size N) = grid_size N /\
  (forall N', (N <= N')%nat -> (grid_size N <= grid_size N')%nat) /\
  (forall data MIN MAX,
     kde data (grid_size N) MIN MAX = kde data N MIN MAX).
Proof.
  split; [apply grid_size_log2_up |].
  split.
  { intros HN; rewrite grid_size_log2_up by exact HN.
    destruct (Nat.eq_dec N 1) as [-> | H1]; [simpl; lia |].
    destruct (Nat.log2_up_spec N ltac:(lia)) as [Hlo _].
    assert (Hp : (0 < Nat.log2_up N)%nat) by (apply Nat.log2_up_pos; lia).
    replace (Nat.log2_up N) with (S (Nat.pred (Nat.log2_up N))) by lia.
    rewrite Nat.pow_succ_r'; lia. }
  split; [apply grid_size_idempotent |].
  split.
  { intros N' Hle.
    destruct N as [| n]; [simpl; lia |].
    assert (HN' : (0 < N')%nat) by lia.
    destruct (grid_size_pow2 N' HN') as [k Hk]; rewrite Hk.
    apply grid_size_least; [lia |].
    rewrite <- Hk; pose proof (grid_size_ge N' HN'); lia. }
  intros data MIN MAX; unfold kde.
  rewrite grid_size_idempotent; reflexivity.
Qed.

Lemma grid_size_rounding_witness :
  (0 < 5)%nat /\ grid_size 5 = (2 ^ Nat.log2_up 5)%nat /\
  (grid_size 5 < 2 * 5)%nat.
Proof.
  assert (H5 : (0 < 5)%nat) by lia.
  destruct (grid_size_rounding 5) as [H1 [H2 _]].
  split; [exact H5 |]; split; [exact (H1 H5) | exact (H2 H5)].
Defined.

(** ** The order of the samples *)

Lemma np_min_perm (a a' : list R) : Permutation a a' -> np_min a = np_min a'.
Proof.
  intros HP.
  destruct a as [| x l].
  - apply Permutation_nil in HP; subst; reflexivity.
  - destruct (np_min (x :: l)) as [m |] eqn:E; [| discriminate].
    apply np_min_spec in E; destruct E as [Hin Hall].
    symmetry; apply np_min_unique.
    + apply (Permutation_in _ HP); exact Hin.
    + apply (Permutation_Forall HP); exact Hall.
Qed.

Lemma np_max_perm (a a' : list R) : Permutation a a' -> np_max a = np_max a'.
Proof.
  intros HP.
  destruct a as [| x l].
  - apply Permutation_nil in HP; subst; reflexivity.
  - destruct (np_max (x :: l)) as [m |] eqn:E; [| discriminate].
    apply np_max_spec in E; destruct E as [Hin Hall].
    symmetry; apply np_max_unique.
    + apply (Permutation_in _ HP); exact Hin.
    + apply (Permutation_Forall HP); exact Hall.
Qed.

Lemma count_perm (p : R -> bool) (a a' : list R) :
  Permutation a a' -> count p a = count p a'.
Proof.
  induction 1 as [| x l l' _ IH | x y l | l l' l'' _ IH1 _ IH2].
  - reflexivity.
  - rewrite !count_cons, IH; reflexivity.
  - rewrite !count_cons; lia.
  - rewrite IH1; exact IH2.
Qed.

Lemma bounds_perm (a a' : list R) (MIN MAX : option R) :
  Permutation a a' -> bounds a MIN MAX = bounds a' MIN MAX.
Proof.
  intros HP; unfold bounds.
  rewrite (np_min_perm a a' HP), (np_max_perm a a' HP); reflexivity.
Qed.

Lemma np_histogram_perm (a a' : list R) (bins : nat) (r : R * R) :
  Permutation a a' -> np_histogram a bins r = np_histogram a' bins r.
Proof.
  intros HP; unfold np_histogram; destruct r as [mn mx].
  destruct (Rlt_dec mx mn); [reflexivity |].
  destruct (Nat.ltb bins 1); [reflexivity |].
  destruct (Req_dec_T mn mx); do 2 f_equal;
    apply map_ext; intros i; apply count_perm; exact HP.
Qed.

(** X5.  [kde] does not depend on the order of the samples: on a
    rearrangement of the sample list it fails with the same exception or
    returns the same bandwidth, mesh and density. *)
Theorem kde_order_irrelevant (data data' : list R) (N : nat)
        (MIN MAX : option R) :
  Permutation data data' ->
  kde data N MIN MAX = kde data' N MIN MAX.
Proof.
  intros HP; unfold kde.
  rewrite (bounds_perm data data' MIN MAX HP).
  destruct (bounds data' MIN MAX) as [[lo hi] |]; [| reflexivity].
  cbn [bind].
  rewrite (np_histogram_perm data data' (grid_size N) (lo, hi) HP).
  rewrite (Permutation_length HP); reflexivity.
Qed.

Lemma kde_order_irrelevant_witness :
  Permutation [0; 1] [1; 0] /\
  kde [0; 1] 2 None None = kde [1; 0] 2 None None.
Proof.
  assert (HP : Permutation [0; 1] [1; 0]) by apply perm_swap.
  split; [exact HP |].
  exact (kde_order_irrelevant [0; 1] [1; 0] 2 None None HP).
Defined.

(** ** When [kde] returns (line 43) *)

Lemma usable_Exists (idx a2 : list R) :
  usable idx a2 -> Exists (fun a => a <> 0) a2.
Proof.
  induction 1 as [i a idx a2 _ Ha _ | i a idx a2 _ _ _ IH].
  - left; lra.
  - right; exact IH.
Qed.

Lemma shape_Exists_usable (idx a2 : list R) :
  Forall2 (fun i a => 0 < i /\ 0 <= a) idx a2 ->
  Exists (fun a => a <> 0) a2 -> usable idx a2.
Proof.
  intros HF HE.
  destruct (usable_or_zero idx a2 HF) as [HU | HZ]; [exact HU |].
  exfalso; apply Exists_exists in HE; destruct HE as [a [Hin Ha]].
  rewrite Forall_forall in HZ; apply Ha, HZ, Hin.
Qed.

Lemma solver_sign (M : nat) (idx a2 : list R) (t : R) :
  (0 < M)%nat -> usable idx a2 ->
  brentq (bandwidth_equation M (map Fin idx) (map Fin a2)) 0 (1 / 10) = Ok t ->
  0 <= g (INR M) idx a2 (1 / 10).
Proof.
  intros HM HU E.
  apply brentq_Ok in E; [| lra].
  destruct E as [_ [_ Hn]].
  rewrite !(equation_fin M idx a2 HM) in Hn by exact HU.
  pose proof (g_zero_neg (INR M) idx a2) as H0.
  destruct (Rle_lt_dec 0 (g (INR M) idx a2 (1 / 10))) as [Hle | Hlt];
    [exact Hle |].
  exfalso; apply Hn; simpl; nra.
Qed.

Lemma solver_returns (M : nat) (idx a2 : list R) :
  (0 < M)%nat -> usable idx a2 -> 0 <= g (INR M) idx a2 (1 / 10) ->
  exists t, brentq (bandwidth_equation M (map Fin idx) (map Fin a2))
                   0 (1 / 10) = Ok t.
Proof.
  intros HM HU [Hp | Hz].
  - destruct (solver_finds M idx a2 HM HU Hp) as [t [E _]].
    exists t; exact E.
  - exists (1 / 10); unfold brentq.
    rewrite !(equation_fin M idx a2 HM) by exact HU.
    pose proof (g_zero_neg (INR M) idx a2) as H0.
    destruct (positive_dec _) as [Hpos |]; [simpl in Hpos; nra |].
    destruct (is_zero_dec (Fin (g (INR M) idx a2 0))) as [E |];
      [injection E as E; lra |].
    destruct (is_zero_dec (Fin (g (INR M) idx a2 (1 / 10)))) as [| Hnz];
      [reflexivity |].
    contradiction Hnz; unfold is_zero; rewrite <- Hz; reflexivity.
Qed.

(** X6.  Exactly when [kde] returns.  For a non-empty sample whose bounds
    and histogram are formed without an exception, [kde] returns a result
    if and only if some squared coefficient handed to the solver is not
    zero and the bandwidth equation is not negative at the upper end 0.1 of
    the bracket (at the lower end 0 it is always negative).  In every other
    case the call ends with the [ValueError] of the root finder; no other
    exception and no third outcome exists. *)
Theorem kde_returns_iff (data : list R) (N : nat) (MIN MAX : option R)
        (lo hi : R) (counts : list nat) (bins : list R) :
  data <> [] ->
  bounds data MIN MAX = Ok (lo, hi) ->
  np_histogram data (grid_size N) (lo, hi) = Ok (counts, bins) ->
  let M := List.length data in
  let idx := idx_of (grid_size N) in
  let a2 := a2_of (dct_real (mass counts M)) in
  ((exists bw msh dens, kde data N MIN MAX = Ok (bw, msh, dens)) <->
   Exists (fun a => a <> 0) a2 /\ 0 <= g (INR M) idx a2 (1 / 10)) /\
  (Forall (fun a => a = 0) a2 \/ g (INR M) idx a2 (1 / 10) < 0 ->
   kde data N MIN MAX
   = Raise (ValueError "f(a) and f(b) must have different signs")) /\
  g (INR M) idx a2 0 < 0.
Proof.
  intros Hne Hb Hh M idx a2.
  assert (HM : (0 < M)%nat).
  { unfold M; destruct data; [contradiction Hne; reflexivity | simpl; lia]. }
  pose proof (kde_pipeline data N MIN MAX lo hi counts bins Hb Hh HM) as HK.
  cbv zeta in HK; fold M in HK; fold idx in HK; fold a2 in HK.
  destruct (np_histogram_length _ _ _ _ _ Hh) as [Hlen _].
  assert (Hshape : Forall2 (fun i a => 0 < i /\ 0 <= a) idx a2).
  { apply solver_arrays_shape.
    rewrite dct_real_length; unfold mass.
    rewrite length_map; exact Hlen. }
  split; [split |]; [| | split].
  - intros [bw [msh [dens E]]].
    destruct (brentq _ 0 (1 / 10)) as [t |] eqn:Et;
      [| rewrite HK in E; discriminate].
    destruct (solver_Ok M idx a2 HM t Hshape Et) as [HU _].
    split; [apply (usable_Exists idx); exact HU |].
    apply (solver_sign M idx a2 t); assumption.
  - intros [HE Hge].
    pose proof (shape_Exists_usable idx a2 Hshape HE) as HU.
    destruct (solver_returns M idx a2 HM HU Hge) as [t Et].
    rewrite HK, Et; cbn [bind].
    eexists _, _, _; reflexivity.
  - intros [HZ | Hneg].
    + apply (kde_zero_spectrum data N MIN MAX lo hi counts bins);
        assumption.
    + destruct (usable_or_zero idx a2 Hshape) as [HU | HZ].
      * rewrite HK, (solver_no_sign_change M idx a2 HM HU Hneg).
        reflexivity.
      * apply (kde_zero_spectrum data N MIN MAX lo hi counts bins);
          assumption.
  - apply g_zero_neg.
Qed.

Lemma kde_returns_iff_witness :
  sample_two <> [] /\
  bounds sample_two None None = Ok (- 1 / 10, 11 / 10) /\
  np_histogram sample_two (grid_size 2) (- 1 / 10, 11 / 10)
  = Ok ([3999%nat; 1%nat], linspace (- 1 / 10) (11 / 10) 3) /\
  0 <= g (INR (List.length sample_two)) (idx_of (grid_size 2))
         (a2_of (dct_real (mass [3999%nat; 1%nat]
                                (List.length sample_two)))) (1 / 10).
Proof.
  assert (Hne : sample_two <> []) by discriminate.
  assert (Hh : np_histogram sample_two (grid_size 2) (- 1 / 10, 11 / 10)
               = Ok ([3999%nat; 1%nat], linspace (- 1 / 10) (11 / 10) 3))
    by (rewrite grid_size_2; exact sample_two_histogram).
  destruct (kde_returns_iff sample_two 2 None None (- 1 / 10) (11 / 10)
              [3999%nat; 1%nat] (linspace (- 1 / 10) (11 / 10) 3)
              Hne sample_two_bounds Hh) as [[H _] _].
  destruct sample_two_run as [t [msh [dens [_ E]]]].
  destruct (H (ex_intro _ _ (ex_intro _ _ (ex_intro _ _ E)))) as [_ Hge].
  split; [exact Hne |]; split; [exact sample_two_bounds |].
  split; [exact Hh | exact Hge].
Defined.

(** ** Grids of fewer than two cells *)

Lemma a2_of_single (c : list R) : List.length c = 1%nat -> a2_of c = [].
Proof.
  destruct c as [| c0 [| c1 c]]; try discriminate; reflexivity.
Qed.

(** X7.  A grid needs two cells.  For a non-empty sample a requested grid
    size of 0 or 1 never gives a result: with 0 the histogram refuses the
    bin count, and with 1 the transform has the coefficient of index 0
    only, the solver receives empty arrays, its equation is minus infinity
    at both ends of the bracket and the root finder rejects it. *)
Theorem small_grid_never_returns (data : list R) (N : nat)
        (MIN MAX : option R) :
  data <> [] -> (N <= 1)%nat ->
  (forall bw msh dens, kde data N MIN MAX <> Ok (bw, msh, dens)) /\
  (forall lo hi,
     bounds data MIN MAX = Ok (lo, hi) -> lo <= hi ->
     (N = 0%nat ->
      exists e, np_histogram data 0 (lo, hi) = Raise e /\
                kde data N MIN MAX = Raise e) /\
     (N = 1%nat ->
      kde data N MIN MAX
      = Raise (ValueError "f(a) and f(b) must have different signs"))).
Proof.
  intros Hne HN.
  assert (Hone : forall lo hi counts bins,
             N = 1%nat ->
             bounds data MIN MAX = Ok (lo, hi) ->
             np_histogram data (grid_size N) (lo, hi) = Ok (counts, bins) ->
             kde data N MIN MAX
             = Raise (ValueError "f(a) and f(b) must have different signs")).
  { intros lo hi counts bins -> Hb Hh.
    apply (kde_zero_spectrum data 1 MIN MAX lo hi counts bins);
      try assumption.
    destruct (np_histogram_length _ _ _ _ _ Hh) as [Hlen _].
    rewrite grid_size_1 in Hlen.
    rewrite a2_of_single; [constructor |].
    rewrite dct_real_length; unfold mass; rewrite length_map; exact Hlen. }
  split.
  - intros bw msh dens E.
    destruct (kde_Ok_inv _ _ _ _ _ _ _ E)
      as [lo [hi [counts [bins [t [Hb [Hh _]]]]]]].
    destruct N as [| [| n]]; [| | lia].
    + apply np_histogram_bins_pos in Hh; simpl in Hh; lia.
    + rewrite (Hone lo hi counts bins eq_refl Hb Hh) in E; discriminate.
  - intros lo hi Hb Hle; split.
    + intros ->.
      unfold kde; rewrite Hb; cbn [bind grid_size np_histogram].
      destruct (Rlt_dec hi lo); [lra |].
      eexists; split; reflexivity.
    + intros ->.
      destruct (Rle_lt_or_eq_dec lo hi Hle) as [Hlt | ->].
      * eapply (Hone lo hi); [reflexivity | exact Hb |].
        apply np_histogram_Ok; [exact Hlt | rewrite grid_size_1; lia].
      * eapply (Hone hi hi); [reflexivity | exact Hb |].
        apply np_histogram_flat; rewrite grid_size_1; lia.
Qed.

Lemma small_grid_never_returns_witness :
  sample_two <> [] /\ (1 <= 1)%nat /\
  forall bw msh dens, kde sample_two 1 None None <> Ok (bw, msh, dens).
Proof.
  assert (Hne : sample_two <> []) by discriminate.
  assert (H1 : (1 <= 1)%nat) by lia.
  destruct (small_grid_never_returns sample_two 1 None None Hne H1)
    as [H _].
  split; [exact Hne |]; split; [exact H1 | exact H].
Defined.

(** ** A cap on the bandwidth (lines 43 and 50) *)

(** X8.  The bracket of the root finder caps the bandwidth: whenever [kde]
    returns for a non-empty sample, the bounds in force satisfy
    [lo <= hi] and the bandwidth lies between 0 and [sqrt(1/10)] times the
    width [hi - lo] of the support, which is less than a third of that
    width; its square is at most a tenth of the squared width. *)
Theorem bandwidth_capped (data : list R) (N : nat) (MIN MAX : option R)
        (lo hi bw : R) (msh : list R) (dens : list float) :
  data <> [] ->
  bounds data MIN MAX = Ok (lo, hi) ->
  kde data N MIN MAX = Ok (bw, msh, dens) ->
  lo <= hi /\
  0 <= bw <= sqrt (1 / 10) * (hi - lo) /\
  bw ^ 2 <= (hi - lo) ^ 2 / 10 /\
  3 * bw <= hi - lo.
Proof.
  intros Hne Hb E.
  destruct (kde_Ok_real data N MIN MAX bw msh dens Hne E)
    as [lo' [hi' [counts [bins [t [Hb' [Hh H]]]]]]].
  cbv zeta in H; destruct H as [_ [_ [Ht [_ [-> _]]]]].
  rewrite Hb in Hb'; injection Hb' as <- <-.
  assert (Hle : lo <= hi).
  { unfold np_histogram in Hh.
    destruct (Rlt_dec hi lo); [discriminate | lra]. }
  assert (Hs0 : 0 <= sqrt t) by apply sqrt_pos.
  assert (Hs1 : sqrt t <= sqrt (1 / 10)) by (apply sqrt_le_1; lra).
  assert (Hsq : sqrt t * sqrt t = t) by (apply sqrt_sqrt; lra).
  assert (Hs3 : 3 * sqrt t <= 1).
  { destruct (Rle_lt_dec (3 * sqrt t) 1) as [H | H]; [exact H |].
    exfalso; nra. }
  split; [exact Hle |].
  split; [split; nra |].
  split; [| nra].
  replace ((sqrt t * (hi - lo)) ^ 2)
    with (sqrt t * sqrt t * (hi - lo) ^ 2) by ring.
  rewrite Hsq.
  assert (0 <= (hi - lo) ^ 2) by apply pow2_ge_0.
  nra.
Qed.

Lemma bandwidth_capped_witness :
  exists bw msh dens,
    sample_two <> [] /\
    bounds sample_two None None = Ok (- 1 / 10, 11 / 10) /\
    kde sample_two 2 None None = Ok (bw, msh, dens) /\
    0 <= bw <= sqrt (1 / 10) * (11 / 10 - - 1 / 10).
Proof.
  destruct sample_two_run as [t [msh [dens [Ht E]]]].
  assert (Hne : sample_two <> []) by discriminate.
  destruct (bandwidth_capped sample_two 2 None None (- 1 / 10) (11 / 10)
              _ msh dens Hne sample_two_bounds E) as [_ [H _]].
  exists (sqrt t * (11 / 10 - - 1 / 10)), msh, dens.
  split; [exact Hne |]; split; [exact sample_two_bounds |].
  split; [exact E | exact H].
Defined.

(** ** A change of location and scale of the samples *)

Section Affine.

Variables c d : R.
Hypothesis c_pos : 0 < c.

Local Abbreviation f := (fun x : R => c * x + d).

Lemma np_min_affine (a : list R) (m : R) :
  np_min a = Ok m -> np_min (map f a) = Ok (c * m + d).
Proof.
  intros E; apply np_min_spec in E; destruct E as [Hin Hall].
  apply np_min_unique.
  - apply (in_map f); exact Hin.
  - apply Forall_forall; intros y Hy.
    apply in_map_iff in Hy; destruct Hy as [x [<- Hx]].
    rewrite Forall_forall in Hall; pose proof (Hall x Hx); nra.
Qed.

Lemma np_max_affine (a : list R) (m : R) :
  np_max a = Ok m -> np_max (map f a) = Ok (c * m + d).
Proof.
  intros E; apply np_max_spec in E; destruct E as [Hin Hall].
  apply np_max_unique.
  - apply (in_map f); exact Hin.
  - apply Forall_forall; intros y Hy.
    apply in_map_iff in Hy; destruct Hy as [x [<- Hx]].
    rewrite Forall_forall in Hall; pose proof (Hall x Hx); nra.
Qed.

Lemma bounds_affine (data : list R) (MIN MAX : option R) (lo hi : R) :
  bounds data MIN MAX = Ok (lo, hi) ->
  bounds (map f data) (option_map f MIN) (option_map f MAX)
  = Ok (c * lo + d, c * hi + d).
Proof.
  unfold bounds.
  destruct MIN as [l |], MAX as [h |]; cbn [option_map];
    try (intros E; injection E as <- <-; reflexivity);
    (destruct (np_min data) as [mn |] eqn:Emn; [| discriminate]);
    (destruct (np_max data) as [mx |] eqn:Emx; [| discriminate]);
    rewrite (np_min_affine data mn Emn), (np_max_affine data mx Emx);
    cbn [bind]; intros E; injection E as <- <-;
    f_equal; f_equal; field.
Qed.

Lemma linspace_affine (lo hi : R) (n : nat) :
  linspace (c * lo + d) (c * hi + d) n = map f (linspace lo hi n).
Proof.
  unfold linspace; rewrite map_map.
  apply map_ext; intros i; unfold Rdiv; ring.
Qed.

Lemma nth_map_affine (l : list R) (i : nat) :
  (i < List.length l)%nat -> nth i (map f l) 0 = c * nth i l 0 + d.
Proof.
  intros Hi.
  rewrite (nth_indep _ 0 (f 0)) by (rewrite length_map; exact Hi).
  apply (map_nth f).
Qed.

Lemma Rleb_affine (x y : R) : Rleb (c * x + d) (c * y + d) = Rleb x y.
Proof.
  unfold Rleb; destruct (Rle_dec _ _), (Rle_dec x y);
    try reflexivity; exfalso; nra.
Qed.

Lemma Rltb_affine (x y : R) : Rltb (c * x + d) (c * y + d) = Rltb x y.
Proof.
  unfold Rltb; destruct (Rlt_dec _ _), (Rlt_dec x y);
    try reflexivity; exfalso; nra.
Qed.

Lemma in_bin_affine (edges : list R) (bins i : nat) (x : R) :
  (S i < List.length edges)%nat ->
  in_bin (map f edges) bins i (c * x + d) = in_bin edges bins i x.
Proof.
  intros Hi; unfold in_bin.
  rewrite !nth_map_affine by lia.
  rewrite !Rleb_affine, Rltb_affine; reflexivity.
Qed.

Lemma count_map_affine (p p' : R -> bool) (a : list R) :
  (forall x, p' (c * x + d) = p x) -> count p' (map f a) = count p a.
Proof.
  intros H; induction a as [| x a IH]; [reflexivity |].
  cbn [map]; rewrite !count_cons, H, IH; reflexivity.
Qed.

Lemma np_histogram_affine (data : list R) (bins : nat) (lo hi : R) :
  lo < hi -> (0 < bins)%nat ->
  np_histogram (map f data) bins (c * lo + d, c * hi + d)
  = Ok (map (fun i => count (in_bin (linspace lo hi (bins + 1)) bins i) data)
            (seq 0 bins),
        map f (linspace lo hi (bins + 1))).
Proof.
  intros Hlh Hb.
  rewrite np_histogram_Ok by (nra || exact Hb).
  rewrite linspace_affine.
  do 2 f_equal.
  apply map_ext_in; intros i Hi; apply in_seq in Hi.
  apply count_map_affine; intros x.
  apply in_bin_affine; rewrite linspace_length; lia.
Qed.

Lemma mesh_affine (edges : list R) (N : nat) :
  List.length edges = (N + 1)%nat ->
  mesh (map f edges) N = map f (mesh edges N).
Proof.
  intros Hlen; unfold mesh; rewrite map_map.
  apply map_ext_in; intros i Hi; apply in_seq in Hi.
  rewrite !nth_map_affine by lia; field.
Qed.

Lemma density_rescaled (coeff : list R) (N : nat) (t R' : R) :
  R' <> 0 ->
  density (SmDCTData (map Fin coeff) N t) N (c * R')
  = map (fun y => fdiv y (Fin c))
        (density (SmDCTData (map Fin coeff) N t) N R').
Proof.
  intros HR.
  assert (Hc : c <> 0) by lra.
  rewrite !density_fin by (try apply Rmult_integral_contrapositive; auto).
  unfold density_real; rewrite !map_map.
  apply map_ext; intros y.
  rewrite fdiv_fin by exact Hc.
  f_equal; field; auto.
Qed.

End Affine.

(** X9.  Units do not matter.  In the exact arithmetic of the model, moving
    and stretching the samples and the supplied bounds by [x -> c x + d]
    with [c > 0] moves the estimate along: for a non-empty sample and
    bounds [lo < hi], [kde] on the transformed input fails with the same
    exception as on the original one, or returns the bandwidth multiplied
    by [c], the mesh mapped through [x -> c x + d] and the density divided
    by [c], the diffusion time being the same. *)
Theorem kde_affine_equivariant (data : list R) (N : nat)
        (MIN MAX : option R) (lo hi c d : R) :
  data <> [] -> 0 < c ->
  bounds data MIN MAX = Ok (lo, hi) -> lo < hi ->
  kde (map (fun x => c * x + d) data) N
      (option_map (fun x => c * x + d) MIN)
      (option_map (fun x => c * x + d) MAX)
  = match kde data N MIN MAX with
    | Ok (bw, msh, dens) =>
        Ok (c * bw, map (fun x => c * x + d) msh,
            map (fun y => fdiv y (Fin c)) dens)
    | Raise e => Raise e
    end.
Proof.
  intros Hne Hc Hb Hlh.
  pose proof (bounds_affine c d Hc data MIN MAX lo hi Hb) as Hb'.
  assert (HM : (0 < List.length data)%nat).
  { destruct data; [contradiction Hne; reflexivity | simpl; lia]. }
  destruct N as [| n].
  { unfold kde; rewrite Hb, Hb'; cbn [bind grid_size np_histogram].
    destruct (Rlt_dec hi lo); [lra |].
    destruct (Rlt_dec (c * hi + d) (c * lo + d)); [nra | reflexivity]. }
  pose proof (grid_size_pos (S n) ltac:(lia)) as HN.
  set (Ng := grid_size (S n)) in *.
  pose proof (np_histogram_Ok data Ng lo hi Hlh HN) as Hh.
  pose proof (np_histogram_affine c d Hc data Ng lo hi Hlh HN) as Hh'.
  rewrite (kde_pipeline data (S n) MIN MAX lo hi _ _ Hb Hh HM).
  rewrite (kde_pipeline _ (S n) _ _ _ _ _ _ Hb' Hh')
    by (rewrite length_map; exact HM).
  cbv zeta; rewrite length_map; fold Ng.
  destruct (brentq _ 0 (1 / 10)) as [t | e]; cbn [bind]; [| reflexivity].
  f_equal; f_equal; [f_equal |].
  - ring.
  - apply mesh_affine; apply linspace_length.
  - replace (c * hi + d - (c * lo + d)) with (c * (hi - lo)) by ring.
    apply density_rescaled; lra.
Qed.

Lemma kde_affine_equivariant_witness :
  exists bw msh dens,
    sample_two <> [] /\ 0 < 2 /\
    bounds sample_two None None = Ok (- 1 / 10, 11 / 10) /\
    - 1 / 10 < 11 / 10 /\
    kde sample_two 2 None None = Ok (bw, msh, dens) /\
    kde (map (fun x => 2 * x + 3) sample_two) 2 None None
    = Ok (2 * bw, map (fun x => 2 * x + 3) msh,
          map (fun y => fdiv y (Fin 2)) dens).
Proof.
  destruct sample_two_run as [t [msh [dens [Ht E]]]].
  assert (Hne : sample_two <> []) by discriminate.
  assert (H2 : 0 < 2) by lra.
  assert (Hlh : - 1 / 10 < 11 / 10) by lra.
  pose proof (kde_affine_equivariant sample_two 2 None None
                (- 1 / 10) (11 / 10) 2 3 Hne H2 sample_two_bounds Hlh)
    as H.
  rewrite E in H; cbn [option_map] in H.
  exists (sqrt t * (11 / 10 - - 1 / 10)), msh, dens.
  split; [exact Hne |]; split; [exact H2 |].
  split; [exact sample_two_bounds |]; split; [exact Hlh |].
  split; [exact E | exact H].
Defined.

(** * Properties of [dgp_class.py] *)

(** ** The normal density (lines 47-50) *)

Lemma gauss_pos (x mu sd : R) : 0 < sd -> 0 < gauss x mu sd.
Proof.
  intros Hsd; unfold gauss.
  apply Rdiv_lt_0_compat; [| exact Hsd].
  apply Rdiv_lt_0_compat; [apply exp_pos | apply sqrt_2PI_pos].
Qed.

Lemma _norm_fin (x : list R) (mu sd : R) :
  0 < sd -> _norm x (mu, sd) = map (fun xi => Fin (gauss xi mu sd)) x.
Proof.
  intros Hsd; unfold _norm; apply map_ext; intros xi.
  cbn [fst snd].
  rewrite fsub_fin, fpown_fin, fneg_fin.
  pose proof sqrt_2PI_pos as HC.
  assert (Hsd2 : sd ^ 2 <> 0) by (apply pow_nonzero; lra).
  rewrite (fdiv_fin _ 2) by lra.
  rewrite (fdiv_fin _ (sd ^ 2)) by exact Hsd2.
  rewrite fexp_fin.
  unfold _NORM_PDF_C.
  rewrite (fdiv_fin _ (sqrt (2 * PI))) by lra.
  rewrite fdiv_fin by lra.
  reflexivity.
Qed.

Lemma _norm_zero_sd (x : list R) (mu : R) :
  _norm x (mu, 0) = map (fun _ => NaN) x.
Proof.
  unfold _norm; apply map_ext; intros xi.
  cbn [fst snd].
  rewrite fsub_fin, fpown_fin, fneg_fin.
  rewrite (fdiv_fin _ 2) by lra.
  pose proof sqrt_2PI_pos as HC.
  assert (Hle : - (xi - mu) ^ 2 / 2 <= 0).
  { pose proof (pow2_ge_0 (xi - mu)); lra. }
  unfold fdiv at 3.
  destruct (Req_dec_T (0 ^ 2) 0) as [_ | Hn]; [| contradiction Hn; ring].
  unfold by_sign.
  destruct (Rlt_dec (- (xi - mu) ^ 2 / 2) 0) as [Hneg | Hnn].
  - cbn [fexp]; unfold _NORM_PDF_C.
    rewrite (fdiv_fin 0) by lra.
    unfold fdiv.
    destruct (Req_dec_T 0 0) as [_ | Hn]; [| contradiction Hn; reflexivity].
    unfold by_sign.
    destruct (Rlt_dec (0 / sqrt (2 * PI)) 0) as [H | _];
      [unfold Rdiv in H; rewrite Rmult_0_l in H; lra |].
    destruct (Rlt_dec 0 (0 / sqrt (2 * PI))) as [H | _];
      [unfold Rdiv in H; rewrite Rmult_0_l in H; lra | reflexivity].
  - destruct (Rlt_dec 0 (- (xi - mu) ^ 2 / 2)); [lra | reflexivity].
Qed.

(** X10.  [_norm] with a positive standard deviation is the normal
    density: every entry is finite and equal to
    [exp(-(x - mu)^2 / (2 sd^2)) / (sd sqrt(2 pi))], strictly positive, at
    most the value [1 / (sd sqrt(2 pi))] taken at the mean, and equal at
    [mu + h] and [mu - h].  With the standard deviation 0 no exception is
    raised and every entry is a nan. *)
Theorem norm_is_normal_density (x : list R) (mu sd : R) :
  0 < sd ->
  _norm x (mu, sd) = map (fun xi => Fin (gauss xi mu sd)) x /\
  (forall xi, 0 < gauss xi mu sd <= gauss mu mu sd) /\
  gauss mu mu sd = 1 / (sd * sqrt (2 * PI)) /\
  (forall h, gauss (mu + h) mu sd = gauss (mu - h) mu sd) /\
  _norm x (mu, 0) = map (fun _ => NaN) x.
Proof.
  intros Hsd.
  pose proof sqrt_2PI_pos as HC.
  assert (Hpeak : gauss mu mu sd = 1 / (sd * sqrt (2 * PI))).
  { unfold gauss.
    replace (- (mu - mu) ^ 2 / 2 / sd ^ 2) with 0 by (field; lra).
    rewrite exp_0; field; split; lra. }
  split; [apply _norm_fin; exact Hsd |].
  split.
  { intros xi; split; [apply gauss_pos; exact Hsd |].
    unfold gauss.
    assert (Hexp : exp (- (xi - mu) ^ 2 / 2 / sd ^ 2)
                   <= exp (- (mu - mu) ^ 2 / 2 / sd ^ 2)).
    { replace (- (mu - mu) ^ 2 / 2 / sd ^ 2) with 0 by (field; lra).
      destruct (Req_dec (- (xi - mu) ^ 2 / 2 / sd ^ 2) 0) as [-> | Hne];
        [lra |].
      left; apply exp_increasing.
      assert (0 < sd ^ 2) by (apply pow_lt; exact Hsd).
      assert (0 <= (xi - mu) ^ 2 / 2 / sd ^ 2).
      { apply Rmult_le_pos; [| left; apply Rinv_0_lt_compat; assumption].
        pose proof (pow2_ge_0 (xi - mu)); lra. }
      replace (- (xi - mu) ^ 2 / 2 / sd ^ 2)
        with (- ((xi - mu) ^ 2 / 2 / sd ^ 2)) in * by (field; lra).
      lra. }
    apply Rmult_le_compat_r; [left; apply Rinv_0_lt_compat; exact Hsd |].
    apply Rmult_le_compat_r; [left; apply Rinv_0_lt_compat; exact HC |].
    exact Hexp. }
  split; [exact Hpeak |].
  split; [| apply _norm_zero_sd].
  intros h; unfold gauss.
  replace ((mu + h - mu) ^ 2) with ((mu - h - mu) ^ 2) by ring.
  reflexivity.
Qed.

Lemma norm_is_normal_density_witness :
  0 < 1 /\
  _norm [0; 2] (0, 1) = [Fin (gauss 0 0 1); Fin (gauss 2 0 1)] /\
  0 < gauss 2 0 1 <= gauss 0 0 1.
Proof.
  assert (H1 : 0 < 1) by lra.
  destruct (norm_is_normal_density [0; 2] 0 1 H1) as [H [Hb _]].
  split; [exact H1 |]; split; [exact H | exact (Hb 2)].
Defined.

(** ** The mixture density (lines 77-81) *)

Lemma map2_same {A B C D : Type} (h : B -> C -> D) (u : A -> B) (v : A -> C)
      (l : list A) :
  map2 h (map u l) (map v l) = map (fun x => h (u x) (v x)) l.
Proof. induction l as [| a l IH]; simpl; [| rewrite IH]; reflexivity. Qed.

Lemma map2_nil_r {A B C : Type} (h : A -> B -> C) (l : list A) :
  map2 h l [] = [].
Proof. destruct l; reflexivity. Qed.

Lemma py_index_skipn {A : Type} (l : list A) (k : nat) (a : A) (t : list A) :
  skipn k l = a :: t -> py_index l k = Found a /\ skipn (S k) l = t.
Proof.
  revert k; induction l as [| b l IH]; intros [| k] E; simpl in E;
    try discriminate.
  - injection E as -> ->; split; reflexivity.
  - destruct (IH k E) as [H1 H2]; split; [| exact H2].
    unfold py_index in *; simpl; exact H1.
Qed.

Lemma skipn_cons_of_lt {A : Type} (l : list A) (k : nat) :
  (k < List.length l)%nat -> exists a t, skipn k l = a :: t.
Proof.
  revert k; induction l as [| b l IH]; intros k Hk; simpl in Hk; [lia |].
  destruct k as [| k]; [exists b, l; reflexivity |].
  apply IH; lia.
Qed.

Lemma term_fin (r : R) (mesh : list R) (mu sd : R) :
  0 < sd ->
  map (fmul (Fin r)) (_norm mesh (mu, sd))
  = map (fun x => Fin (r * gauss x mu sd)) mesh.
Proof.
  intros Hsd; rewrite _norm_fin by exact Hsd.
  rewrite map_map; reflexivity.
Qed.

(** The accumulation of line 80 once the accumulator is an array. *)
Lemma sum_terms_array (rates mesh : list R) (inputs : list (R * R)) :
  Forall (fun p => 0 < snd p) inputs ->
  forall (k : nat) (acc : R -> R),
    (k + List.length inputs <= List.length rates)%nat ->
    dgp.sum_terms rates mesh (Array (map (fun x => Fin (acc x)) mesh))
                  (combine (seq k (List.length inputs)) inputs)
    = Found (Array (map (fun x =>
                           Fin (acc x + mixture (skipn k rates) inputs x))
                        mesh)).
Proof.
  induction 1 as [| [mu sd] inputs Hsd _ IH]; intros k acc Hlen.
  - cbn [List.length seq combine dgp.sum_terms].
    do 2 f_equal; apply map_ext; intros x.
    unfold mixture; rewrite map2_nil_r.
    apply f_equal; unfold Rsum; simpl; ring.
  - cbn [List.length] in Hlen.
    destruct (skipn_cons_of_lt rates k ltac:(lia)) as [r [t Hsk]].
    destruct (py_index_skipn rates k r t Hsk) as [Hidx Hsk'].
    cbn [List.length seq combine dgp.sum_terms].
    rewrite Hidx; cbn [snd] in Hsd.
    rewrite term_fin by exact Hsd.
    cbn [dgp.add_term]; rewrite map2_same.
    rewrite (map_ext _ (fun x => Fin (acc x + r * gauss x mu sd)))
      by reflexivity.
    rewrite (IH (S k) (fun x => acc x + r * gauss x mu sd)) by lia.
    rewrite Hsk, Hsk'.
    do 2 f_equal; apply map_ext; intros x.
    unfold mixture; cbn [map2 fst snd].
    apply f_equal; unfold Rsum; cbn [fold_right]; ring.
Qed.

Lemma pdf_fin (s : dgp.self) (mesh : list R) :
  dgp._inputs s <> [] ->
  (List.length (dgp._inputs s) <= List.length (dgp._rates s))%nat ->
  Forall (fun p => 0 < snd p) (dgp._inputs s) ->
  dgp._pdf s mesh
  = Found (Array (map (fun x => Fin (mixture (dgp._rates s) (dgp._inputs s) x))
                      mesh)).
Proof.
  destruct s as [inputs rates]; cbn [dgp._inputs dgp._rates].
  intros Hne Hlen Hsd; unfold dgp._pdf, enumerate.
  cbn [dgp._inputs dgp._rates].
  destruct inputs as [| [mu sd] inputs]; [contradiction Hne; reflexivity |].
  inversion Hsd as [| p l Hsd0 Hsd']; subst; cbn [snd] in Hsd0.
  destruct rates as [| r rates]; [simpl in Hlen; lia |].
  cbn [List.length seq combine dgp.sum_terms].
  change (py_index (r :: rates) 0) with (Found r).
  cbv iota.
  rewrite term_fin by exact Hsd0.
  cbn [dgp.add_term]; rewrite map_map.
  rewrite (map_ext _ (fun x => Fin (0 + r * gauss x mu sd)))
    by reflexivity.
  rewrite (sum_terms_array (r :: rates) mesh inputs Hsd' 1
             (fun x => 0 + r * gauss x mu sd))
    by (simpl in *; lia).
  cbn [skipn].
  do 2 f_equal; apply map_ext; intros x.
  unfold mixture; cbn [map2 fst snd].
  apply f_equal; unfold Rsum; cbn [fold_right]; ring.
Qed.

Lemma mixture_nonneg (rates : list R) (inputs : list (R * R)) (x : R) :
  Forall (fun r => 0 <= r) rates -> Forall (fun p => 0 < snd p) inputs ->
  0 <= mixture rates inputs x.
Proof.
  intros Hr; revert inputs; unfold mixture.
  induction Hr as [| r rates Hr0 _ IH]; intros inputs Hsd; [simpl; lra |].
  destruct Hsd as [| [mu sd] inputs Hsd0 Hsd]; [simpl; lra |].
  cbn [map2 fst snd]; cbn [snd] in Hsd0.
  change (0 <= r * gauss x mu sd
               + Rsum (map2 (fun r p => r * gauss x (fst p) (snd p))
                            rates inputs)).
  pose proof (gauss_pos x mu sd Hsd0).
  pose proof (IH inputs Hsd).
  assert (0 <= r * gauss x mu sd) by (apply Rmult_le_pos; lra).
  lra.
Qed.

Lemma mixture_pos (rates : list R) (inputs : list (R * R)) (x : R) :
  Forall (fun r => 0 < r) rates -> Forall (fun p => 0 < snd p) inputs ->
  rates <> [] -> inputs <> [] ->
  0 < mixture rates inputs x.
Proof.
  intros Hr Hsd Hrn Hin.
  destruct Hr as [| r rates Hr0 Hr]; [contradiction Hrn; reflexivity |].
  destruct Hsd as [| [mu sd] inputs Hsd0 Hsd]; [contradiction Hin; reflexivity |].
  cbn [snd] in Hsd0.
  assert (Hrest : 0 <= mixture rates inputs x).
  { apply mixture_nonneg; [| exact Hsd].
    eapply Forall_impl; [| exact Hr]; simpl; intros; lra. }
  unfold mixture in *; cbn [map2 fst snd].
  change (0 < r * gauss x mu sd
              + Rsum (map2 (fun r p => r * gauss x (fst p) (snd p))
                           rates inputs)).
  pose proof (gauss_pos x mu sd Hsd0).
  assert (0 < r * gauss x mu sd) by (apply Rmult_lt_0_compat; lra).
  lra.
Qed.

Lemma mixture_extra_rates (rates extra : list R) (inputs : list (R * R))
      (x : R) :
  (List.length inputs <= List.length rates)%nat ->
  mixture (rates ++ extra) inputs x = mixture rates inputs x.
Proof.
  unfold mixture; revert inputs.
  induction rates as [| r rates IH]; intros [| p inputs] Hlen;
    simpl in Hlen; try lia.
  - rewrite map2_nil_r; reflexivity.
  - rewrite map2_nil_r; reflexivity.
  - cbn [app map2].
    change (r * gauss x (fst p) (snd p)
            + Rsum (map2 (fun r p => r * gauss x (fst p) (snd p))
                         (rates ++ extra) inputs)
            = r * gauss x (fst p) (snd p)
              + Rsum (map2 (fun r p => r * gauss x (fst p) (snd p))
                           rates inputs)).
    rewrite IH by lia; reflexivity.
Qed.

(** X11.  The mixture density.  For an instance with at least one
    component, positive standard deviations and at least as many rates as
    components, [_pdf] raises nothing and returns an array of the length of
    the mesh whose entry at [x] is the finite value
    [sum_k rates[k] * normal(x; mu_k, sd_k)]; rates beyond the number of
    components are never read.  The value is not negative when no rate is,
    and strictly positive when all rates are. *)
Theorem pdf_is_mixture (s : dgp.self) (mesh : list R) :
  dgp._inputs s <> [] ->
  (List.length (dgp._inputs s) <= List.length (dgp._rates s))%nat ->
  Forall (fun p => 0 < snd p) (dgp._inputs s) ->
  let density_at := mixture (dgp._rates s) (dgp._inputs s) in
  dgp._pdf s mesh = Found (Array (map (fun x => Fin (density_at x)) mesh)) /\
  List.length (map (fun x => Fin (density_at x)) mesh) = List.length mesh /\
  (forall extra x,
     mixture (dgp._rates s ++ extra) (dgp._inputs s) x = density_at x) /\
  (Forall (fun r => 0 <= r) (dgp._rates s) -> forall x, 0 <= density_at x) /\
  (Forall (fun r => 0 < r) (dgp._rates s) -> forall x, 0 < density_at x).
Proof.
  intros Hne Hlen Hsd density_at.
  split; [apply pdf_fin; assumption |].
  split; [apply length_map |].
  split; [intros extra x; apply mixture_extra_rates; exact Hlen |].
  split; [intros Hr x; apply mixture_nonneg; assumption |].
  intros Hr x; apply mixture_pos; try assumption.
  intros E; rewrite E in Hlen; simpl in Hlen.
  destruct (dgp._inputs s); [contradiction Hne; reflexivity | simpl in Hlen; lia].
Qed.

Lemma pdf_is_mixture_witness :
  dgp._inputs Bimodal <> [] /\
  (List.length (dgp._inputs Bimodal) <= List.length (dgp._rates Bimodal))%nat /\
  Forall (fun p => 0 < snd p) (dgp._inputs Bimodal) /\
  dgp._pdf Bimodal [0; 5]
  = Found (Array
      [Fin (mixture (dgp._rates Bimodal) (dgp._inputs Bimodal) 0);
       Fin (mixture (dgp._rates Bimodal) (dgp._inputs Bimodal) 5)]).
Proof.
  assert (Hne : dgp._inputs Bimodal <> []) by discriminate.
  assert (Hlen : (List.length (dgp._inputs Bimodal)
                  <= List.length (dgp._rates Bimodal))%nat)
    by (simpl; lia).
  assert (Hsd : Forall (fun p => 0 < snd p) (dgp._inputs Bimodal)).
  { simpl; constructor; [simpl; lra |].
    constructor; [simpl; lra | constructor]. }
  destruct (pdf_is_mixture Bimodal [0; 5] Hne Hlen Hsd) as [H _].
  split; [exact Hne |]; split; [exact Hlen |]; split; [exact Hsd | exact H].
Defined.

(** ** Fewer rates than components *)

Lemma sum_terms_index_error (rates mesh : list R) (inputs : list (R * R))
      (k : nat) (acc : pdf_value) :
  (k <= List.length rates)%nat ->
  (List.length rates < k + List.length inputs)%nat ->
  dgp.sum_terms rates mesh acc (combine (seq k (List.length inputs)) inputs)
  = IndexError "list index out of range".
Proof.
  revert k acc; induction inputs as [| [mu sd] inputs IH]; intros k acc Hk Hlen;
    cbn [List.length] in Hlen; [lia |].
  cbn [List.length seq combine dgp.sum_terms].
  destruct (Nat.eq_dec k (List.length rates)) as [-> | Hne].
  - unfold py_index.
    rewrite (proj2 (nth_error_None rates (List.length rates))) by lia.
    reflexivity.
  - destruct (skipn_cons_of_lt rates k ltac:(lia)) as [r [t Hsk]].
    destruct (py_index_skipn rates k r t Hsk) as [Hidx _].
    rewrite Hidx.
    apply IH; lia.
Qed.

Lemma pdf_index_error (s : dgp.self) (mesh : list R) :
  (List.length (dgp._rates s) < List.length (dgp._inputs s))%nat ->
  dgp._pdf s mesh = IndexError "list index out of range".
Proof.
  intros Hlen; unfold dgp._pdf, enumerate.
  apply sum_terms_index_error; lia.
Qed.

(** X12.  Fewer rates than components.  When the table of rates is shorter
    than the table of inputs, [_pdf] raises the [IndexError] of the list
    index on every mesh, the empty one included, and returns no partial
    sum.  An instance without components does not fail: the builtin [sum]
    returns the integer 0 it starts from, not an array, whatever the rates
    and the mesh are. *)
Theorem pdf_needs_a_rate_per_component (s : dgp.self) (mesh : list R) :
  (List.length (dgp._rates s) < List.length (dgp._inputs s))%nat ->
  dgp._pdf s mesh = IndexError "list index out of range" /\
  (forall rates mesh',
     dgp._pdf {| dgp._inputs := []; dgp._rates := rates |} mesh'
     = Found (Scalar 0)).
Proof.
  intros Hlen; split; [| reflexivity].
  apply pdf_index_error; exact Hlen.
Qed.

Lemma pdf_needs_a_rate_per_component_witness :
  Nat.lt (List.length (dgp._rates {| dgp._inputs := [(0, 1); (1, 1)];
                                     dgp._rates := [1] |}))
         (List.length (dgp._inputs {| dgp._inputs := [(0, 1); (1, 1)];
                                      dgp._rates := [1] |})) /\
  dgp._pdf {| dgp._inputs := [(0, 1); (1, 1)]; dgp._rates := [1] |} [0]
  = IndexError "list index out of range".
Proof.
  assert (Hlen : Nat.lt
                   (List.length (dgp._rates {| dgp._inputs := [(0, 1); (1, 1)];
                                               dgp._rates := [1] |}))
                   (List.length (dgp._inputs
                                   {| dgp._inputs := [(0, 1); (1, 1)];
                                      dgp._rates := [1] |})))
    by (simpl; unfold Nat.lt; lia).
  destruct (pdf_needs_a_rate_per_component _ [0] Hlen) as [H _].
  split; [exact Hlen | exact H].
Defined.

(** ** The shared list of [StronglySkewed] (lines 96 and 111-122) *)

Lemma fold_left_append {A B : Type} (h : B -> A) (ks : list B) (l : list A) :
  fold_left (fun l k => l ++ [h k]) ks l = l ++ map h ks.
Proof.
  revert l; induction ks as [| k ks IH]; intros l; simpl.
  - rewrite app_nil_r; reflexivity.
  - rewrite IH, <- app_assoc; reflexivity.
Qed.

Lemma init_appends (shared : list (R * R)) :
  StronglySkewed.__init__ shared
  = shared ++ map (fun k => (3 * ((2 / 3) ^ k - 1), (2 / 3) ^ k)) (seq 0 8).
Proof.
  unfold StronglySkewed.__init__.
  apply (fold_left_append (fun k => (3 * ((2 / 3) ^ k - 1), (2 / 3) ^ k))).
Qed.

Lemma shared_after_S (n : nat) :
  shared_after (S n) = shared_after n ++ shared_after 1.
Proof.
  cbn [shared_after]; rewrite !init_appends; reflexivity.
Qed.

Lemma shared_after_length (n : nat) :
  List.length (shared_after n) = (8 * n)%nat.
Proof.
  induction n as [| n IH]; [reflexivity |].
  cbn [shared_after]; rewrite init_appends, length_app, IH.
  rewrite length_map, length_seq; lia.
Qed.

Lemma shared_after_sd (n : nat) :
  Forall (fun p => 0 < snd p) (shared_after n).
Proof.
  induction n as [| n IH]; [constructor |].
  cbn [shared_after]; rewrite init_appends.
  apply Forall_app; split; [exact IH |].
  apply Forall_forall; intros p Hp.
  apply in_map_iff in Hp; destruct Hp as [k [<- _]].
  cbn [snd]; apply pow_lt; lra.
Qed.

(** X13.  [StronglySkewed] keeps its components in the list of the base
    class, which all its instances and the instances of [dgp] share, and
    every construction appends eight components to it.  After [n]
    constructions the list has [8 n] entries against eight rates: the
    density of the first instance is the mixture of its eight components,
    but from the second construction on [_pdf] of every instance, the
    first one included, raises an [IndexError].  An instance of the base
    class returns the integer 0 before any construction and raises the
    [IndexError] after one. *)
Theorem strongly_skewed_shares_inputs (n : nat) (mesh : list R) :
  List.length (shared_after n) = (8 * n)%nat /\
  shared_after (S n) = shared_after n ++ shared_after 1 /\
  dgp._pdf (StronglySkewed.self (shared_after 1)) mesh
  = Found (Array (map (fun x =>
                         Fin (mixture StronglySkewed._rates (shared_after 1) x))
                      mesh)) /\
  ((2 <= n)%nat ->
   dgp._pdf (StronglySkewed.self (shared_after n)) mesh
   = IndexError "list index out of range") /\
  dgp._pdf (dgp_base (shared_after 0)) mesh = Found (Scalar 0) /\
  ((1 <= n)%nat ->
   dgp._pdf (dgp_base (shared_after n)) mesh
   = IndexError "list index out of range").
Proof.
  split; [apply shared_after_length |].
  split; [apply shared_after_S |].
  split.
  { apply (pdf_fin (StronglySkewed.self (shared_after 1))).
    - discriminate.
    - cbn [StronglySkewed.self dgp._inputs dgp._rates].
      rewrite shared_after_length; simpl; lia.
    - apply shared_after_sd. }
  split.
  { intros Hn.
    apply (pdf_index_error
             (StronglySkewed.self (shared_after n))).
    cbn [StronglySkewed.self dgp._inputs dgp._rates].
    rewrite shared_after_length; simpl; lia. }
  split; [reflexivity |].
  intros Hn.
  apply (pdf_index_error (dgp_base (shared_after n))).
  cbn [dgp_base dgp._inputs dgp._rates].
  rewrite shared_after_length; simpl; lia.
Qed.

Lemma strongly_skewed_shares_inputs_witness :
  (2 <= 2)%nat /\
  List.length (shared_after 2) = 16%nat /\
  dgp._pdf (StronglySkewed.self (shared_after 2)) [0]
  = IndexError "list index out of range".
Proof.
  assert (H2 : (2 <= 2)%nat) by lia.
  destruct (strongly_skewed_shares_inputs 2 [0]) as [Hl [_ [_ [H _]]]].
  split; [exact H2 |]; split; [exact Hl | exact (H H2)].
Defined.

(** ** The default mesh of a mixture (lines 85-95) *)

Lemma py_min_spec (l : list R) (m : R) :
  py_min l = Ok m -> In m l /\ Forall (fun z => m <= z) l.
Proof.
  destruct l as [| x l]; simpl; [discriminate |].
  intros E; injection E as <-.
  split; [apply fold_Rmin_in |].
  destruct (fold_Rmin_le l x); constructor; assumption.
Qed.

Lemma py_max_spec (l : list R) (m : R) :
  py_max l = Ok m -> In m l /\ Forall (fun z => z <= m) l.
Proof.
  destruct l as [| x l]; simpl; [discriminate |].
  intros E; injection E as <-.
  split; [apply fold_Rmax_in |].
  destruct (fold_Rmax_ge l x); constructor; assumption.
Qed.

(** X14.  The default mesh of a mixture.  For an instance with at least
    one component and [N >= 2] points, [mesh] raises nothing and returns
    [N] equally spaced points that start at the least [mu - 4 sd] and end
    at the greatest [mu + 4 sd] of the components, so that the interval
    [mu - 4 sd, mu + 4 sd] of every component lies between the first and
    the last point; when no standard deviation is negative the points do
    not decrease.  An instance without components fails with the
    [ValueError] of the builtin [min]. *)
Theorem dgp_mesh_covers (s : dgp.self) (N : nat) :
  dgp._inputs s <> [] -> (2 <= N)%nat ->
  (exists lo hi m,
     dgp.mesh s (Some N) = Ok m /\
     List.length m = N /\
     nth 0 m 0 = lo /\ nth (N - 1) m 0 = hi /\
     (exists p, In p (dgp._inputs s) /\ lo = fst p - 4 * snd p) /\
     (exists p, In p (dgp._inputs s) /\ hi = fst p + 4 * snd p) /\
     (forall p, In p (dgp._inputs s) ->
        lo <= fst p - 4 * snd p /\ fst p + 4 * snd p <= hi) /\
     (forall i, (i < N)%nat ->
        nth i m 0 = lo + INR i * ((hi - lo) / INR (N - 1))) /\
     (Forall (fun p => 0 <= snd p) (dgp._inputs s) ->
      lo <= hi /\
      forall i j, (i <= j < N)%nat -> nth i m 0 <= nth j m 0)) /\
  (forall rates N',
     dgp.mesh {| dgp._inputs := []; dgp._rates := rates |} N'
     = Raise (ValueError "min() arg is an empty sequence")).
Proof.
  intros Hne HN; split; [| reflexivity].
  destruct s as [inputs rates]; cbn [dgp._inputs dgp._rates] in *.
  unfold dgp.mesh; cbn [dgp._inputs].
  destruct inputs as [| p0 inputs]; [contradiction Hne; reflexivity |].
  set (ins := p0 :: inputs) in *.
  destruct (py_min (map (fun q => fst q - 4 * snd q) ins)) as [lo |] eqn:Emin;
    [| discriminate].
  destruct (py_max (map (fun q => fst q + 4 * snd q) ins)) as [hi |] eqn:Emax;
    [| discriminate].
  cbn [bind].
  apply py_min_spec in Emin; destruct Emin as [Hlo_in Hlo].
  apply py_max_spec in Emax; destruct Emax as [Hhi_in Hhi].
  apply in_map_iff in Hlo_in; destruct Hlo_in as [pl [Hpl Hpl_in]].
  apply in_map_iff in Hhi_in; destruct Hhi_in as [ph [Hph Hph_in]].
  rewrite Forall_forall in Hlo, Hhi.
  assert (Hcover : forall p, In p ins ->
            lo <= fst p - 4 * snd p /\ fst p + 4 * snd p <= hi).
  { intros p Hp; split.
    - apply Hlo, (in_map (fun q => fst q - 4 * snd q)); exact Hp.
    - apply Hhi, (in_map (fun q => fst q + 4 * snd q)); exact Hp. }
  assert (Hnth : forall i, (i < N)%nat ->
            nth i (linspace lo hi N) 0
            = lo + INR i * ((hi - lo) / INR (N - 1))).
  { intros i Hi.
    replace N with (N - 1 + 1)%nat at 1 by lia.
    rewrite nth_linspace by lia; reflexivity. }
  assert (HN1 : 0 < INR (N - 1)) by (apply lt_0_INR; lia).
  exists lo, hi, (linspace lo hi N).
  split; [reflexivity |].
  split; [apply linspace_length |].
  split; [rewrite Hnth by lia; simpl INR; ring |].
  split; [rewrite Hnth by lia; field; lra |].
  split; [exists pl; split; [exact Hpl_in | symmetry; exact Hpl] |].
  split; [exists ph; split; [exact Hph_in | symmetry; exact Hph] |].
  split; [exact Hcover |].
  split; [exact Hnth |].
  intros Hsd.
  assert (Hle : lo <= hi).
  { destruct (Hcover pl Hpl_in) as [_ H2].
    rewrite Forall_forall in Hsd; pose proof (Hsd pl Hpl_in); lra. }
  split; [exact Hle |].
  intros i j Hij; rewrite !Hnth by lia.
  assert (Hstep : 0 <= (hi - lo) / INR (N - 1)).
  { apply Rmult_le_pos; [lra | left; apply Rinv_0_lt_compat; exact HN1]. }
  assert (INR i <= INR j) by (apply le_INR; lia).
  nra.
Qed.

Lemma dgp_mesh_covers_witness :
  dgp._inputs Bimodal <> [] /\ (2 <= 3)%nat /\
  exists lo hi m,
    dgp.mesh Bimodal (Some 3%nat) = Ok m /\
    List.length m = 3%nat /\
    nth 0 m 0 = lo /\ nth (3 - 1) m 0 = hi /\
    forall p, In p (dgp._inputs Bimodal) ->
      lo <= fst p - 4 * snd p /\ fst p + 4 * snd p <= hi.
Proof.
  assert (Hne : dgp._inputs Bimodal <> []) by discriminate.
  assert (H3 : (2 <= 3)%nat) by lia.
  destruct (dgp_mesh_covers Bimodal 3 Hne H3)
    as [[lo [hi [m [E [Hl [H0 [H2 [_ [_ [Hc _]]]]]]]]]] _].
  split; [exact Hne |]; split; [exact H3 |].
  exists lo, hi, m.
  split; [exact E |]; split; [exact Hl |]; split; [exact H0 |].
  split; [exact H2 | exact Hc].
Defined.

(** ** The log-normal density (lines 226-244) *)

Lemma lognormal_entry (x : R) :
  0 < x ->
  fdiv (fdiv (fexp (fdiv (fneg (fpown (np_log x) 2)) (Fin 2))) (Fin x))
       (Fin _NORM_PDF_C)
  = Fin (lognormal x).
Proof.
  intros Hx.
  pose proof sqrt_2PI_pos as HC.
  unfold np_log, by_sign.
  destruct (Rlt_dec x 0); [lra |].
  destruct (Rlt_dec 0 x); [| lra].
  rewrite fpown_fin, fneg_fin.
  rewrite (fdiv_fin _ 2) by lra.
  rewrite fexp_fin.
  rewrite (fdiv_fin _ x) by lra.
  unfold _NORM_PDF_C; rewrite fdiv_fin by lra.
  reflexivity.
Qed.

Lemma existsb_nonpos_false (mesh : list R) :
  Forall (fun x => 0 < x) mesh -> existsb (fun x => Rleb x 0) mesh = false.
Proof.
  induction 1 as [| x mesh Hx _ IH]; [reflexivity |].
  cbn [existsb]; rewrite IH; unfold Rleb.
  destruct (Rle_dec x 0); [lra | reflexivity].
Qed.

Lemma existsb_nonpos_true (mesh : list R) :
  Exists (fun x => x <= 0) mesh -> existsb (fun x => Rleb x 0) mesh = true.
Proof.
  induction 1 as [x mesh Hx | x mesh _ IH]; cbn [existsb].
  - unfold Rleb; destruct (Rle_dec x 0); [reflexivity | lra].
  - rewrite IH; apply orb_true_r.
Qed.

Lemma lognormal_pdf_fin (mesh : list R) :
  Forall (fun x => 0 < x) mesh ->
  LogNormal._pdf mesh = Ok (map (fun x => Fin (lognormal x)) mesh).
Proof.
  intros Hpos; unfold LogNormal._pdf.
  rewrite existsb_nonpos_false by exact Hpos.
  f_equal; apply map_ext_in; intros x Hx.
  rewrite Forall_forall in Hpos.
  apply lognormal_entry, Hpos, Hx.
Qed.

Lemma lognormal_pos (x : R) : 0 < x -> 0 < lognormal x.
Proof.
  intros Hx; unfold lognormal.
  apply Rdiv_lt_0_compat; [| apply sqrt_2PI_pos].
  apply Rdiv_lt_0_compat; [apply exp_pos | exact Hx].
Qed.

(** X15.  The log-normal density accepts strictly positive meshes only: a
    mesh with an entry [<= 0] raises the [ValueError] of line 237 and no
    array is returned, and a mesh without one raises nothing and returns at
    every [x] the finite, strictly positive value
    [exp(-ln(x)^2 / 2) / (x sqrt(2 pi))].  The values at [x] and [1/x] are
    tied by [f(1/x) = x^2 f(x)]. *)
Theorem lognormal_pdf_domain (mesh : list R) :
  (Exists (fun x => x <= 0) mesh ->
   LogNormal._pdf mesh = Raise (ValueError "mesh must be >0")) /\
  (Forall (fun x => 0 < x) mesh ->
   LogNormal._pdf mesh = Ok (map (fun x => Fin (lognormal x)) mesh) /\
   Forall (fun x => 0 < lognormal x) mesh) /\
  (forall x, 0 < x -> lognormal (/ x) = x ^ 2 * lognormal x).
Proof.
  split; [| split].
  - intros HE; unfold LogNormal._pdf.
    rewrite existsb_nonpos_true by exact HE; reflexivity.
  - intros Hpos; split; [apply lognormal_pdf_fin; exact Hpos |].
    eapply Forall_impl; [| exact Hpos].
    intros x Hx; apply lognormal_pos; exact Hx.
  - intros x Hx; unfold lognormal.
    rewrite ln_Rinv by exact Hx.
    replace (- (- ln x) ^ 2 / 2) with (- ln x ^ 2 / 2)
      by (unfold Rdiv; ring).
    pose proof sqrt_2PI_pos.
    field; split; lra.
Qed.

Lemma lognormal_pdf_domain_witness :
  Exists (fun x => x <= 0) [1; 0] /\
  LogNormal._pdf [1; 0] = Raise (ValueError "mesh must be >0") /\
  Forall (fun x => 0 < x) [1; 2] /\
  LogNormal._pdf [1; 2] = Ok [Fin (lognormal 1); Fin (lognormal 2)].
Proof.
  assert (HE : Exists (fun x => x <= 0) [1; 0]) by (right; left; lra).
  assert (HF : Forall (fun x => 0 < x) [1; 2]).
  { constructor; [lra |]; constructor; [lra | constructor]. }
  destruct (lognormal_pdf_domain [1; 0]) as [H1 _].
  destruct (lognormal_pdf_domain [1; 2]) as [_ [H2 _]].
  split; [exact HE |]; split; [exact (H1 HE) |].
  split; [exact HF | exact (proj1 (H2 HF))].
Defined.

(** X16.  The default mesh of the log-normal density.  For [N >= 2] it
    holds the [N] points [10 (i + 1) / (N - 1)]: the points of
    [linspace(0, 10, N)] moved up by one step, so that the mesh starts one
    step above 0 and ends one step above 10.  Every point is strictly
    positive, hence [_pdf] on the default mesh never raises. *)
Theorem lognormal_default_mesh (N : nat) :
  (2 <= N)%nat ->
  exists m,
    LogNormal.mesh (Some N) = Ok m /\
    List.length m = N /\
    (forall i, (i < N)%nat ->
       nth i m 0 = 10 * (INR i + 1) / INR (N - 1)) /\
    Forall (fun x => 0 < x) m /\
    nth (N - 1) m 0 = 10 + 10 / INR (N - 1) /\
    10 < nth (N - 1) m 0 /\
    LogNormal._pdf m = Ok (map (fun x => Fin (lognormal x)) m).
Proof.
  intros HN; unfold LogNormal.mesh.
  destruct (Nat.ltb_spec N 2) as [Hlt | _]; [lia |].
  assert (HN1 : 0 < INR (N - 1)) by (apply lt_0_INR; lia).
  set (step := (10 - 0) / INR (N - 1)).
  assert (Hstep : 0 < step) by (apply Rdiv_lt_0_compat; lra).
  assert (Hnth : forall i, (i < N)%nat ->
            nth i (map (fun x => x + step) (linspace 0 10 N)) 0
            = 10 * (INR i + 1) / INR (N - 1)).
  { intros i Hi.
    rewrite (nth_indep _ 0 (0 + step))
      by (rewrite length_map, linspace_length; exact Hi).
    rewrite (map_nth (fun x => x + step)).
    replace N with (N - 1 + 1)%nat at 1 by lia.
    rewrite nth_linspace by lia.
    unfold edge, step; field; lra. }
  assert (Hpos : Forall (fun x => 0 < x)
                        (map (fun x => x + step) (linspace 0 10 N))).
  { apply Forall_forall; intros y Hy.
    apply in_map_iff in Hy; destruct Hy as [x [<- Hx]].
    unfold linspace in Hx.
    apply in_map_iff in Hx; destruct Hx as [i [<- _]].
    fold step.
    assert (0 <= INR i * step)
      by (apply Rmult_le_pos; [apply pos_INR | lra]).
    lra. }
  assert (Hlast : nth (N - 1) (map (fun x => x + step) (linspace 0 10 N)) 0
                  = 10 + 10 / INR (N - 1)).
  { rewrite Hnth by lia; field; lra. }
  exists (map (fun x => x + step) (linspace 0 10 N)).
  split; [reflexivity |].
  split; [rewrite length_map; apply linspace_length |].
  split; [exact Hnth |].
  split; [exact Hpos |].
  split; [exact Hlast |].
  split; [| apply lognormal_pdf_fin; exact Hpos].
  rewrite Hlast.
  assert (0 < 10 / INR (N - 1)) by (apply Rdiv_lt_0_compat; lra).
  lra.
Qed.

Lemma lognormal_default_mesh_witness :
  (2 <= 3)%nat /\
  exists m,
    LogNormal.mesh (Some 3%nat) = Ok m /\
    List.length m = 3%nat /\
    Forall (fun x => 0 < x) m /\
    10 < nth (3 - 1) m 0.
Proof.
  assert (H3 : (2 <= 3)%nat) by lia.
  destruct (lognormal_default_mesh 3 H3)
    as [m [E [Hl [_ [Hp [_ [Hlast _]]]]]]].
  split; [exact H3 |].
  exists m; split; [exact E |]; split; [exact Hl |].
  split; [exact Hp | exact Hlast].
Defined.

(** ** The tables of the subclasses (lines 99-310) *)

Lemma table_facts (s : dgp.self) (mesh : list R) :
  List.length (dgp._rates s) = List.length (dgp._inputs s) ->
  Forall (fun p => 0 < snd p) (dgp._inputs s) ->
  dgp._inputs s <> [] ->
  dgp._pdf s mesh
  = Found (Array (map (fun x => Fin (mixture (dgp._rates s) (dgp._inputs s) x))
                      mesh)).
Proof.
  intros Hlen Hsd Hne; apply pdf_fin; [exact Hne | lia | exact Hsd].
Qed.

(** X17.  Every subclass with tables of its own defines a probability
    mixture: it has one rate per component, every standard deviation and
    every rate is strictly positive, and the rates add up to 1; the same
    holds for [StronglySkewed] after its first construction.  On any mesh
    the density of each of these classes is therefore returned without an
    exception, as the array of the mixture values. *)
Theorem tables_are_mixtures :
  Forall (fun s =>
            List.length (dgp._rates s) = List.length (dgp._inputs s) /\
            Forall (fun p => 0 < snd p) (dgp._inputs s) /\
            Forall (fun r => 0 < r) (dgp._rates s) /\
            Rsum (dgp._rates s) = 1)
         (StronglySkewed.self (shared_after 1) :: table_classes) /\
  (forall s mesh,
     In s (StronglySkewed.self (shared_after 1) :: table_classes) ->
     dgp._pdf s mesh
     = Found (Array (map (fun x =>
                            Fin (mixture (dgp._rates s) (dgp._inputs s) x))
                         mesh))).
Proof.
  assert (H : Forall (fun s =>
            List.length (dgp._rates s) = List.length (dgp._inputs s) /\
            Forall (fun p => 0 < snd p) (dgp._inputs s) /\
            Forall (fun r => 0 < r) (dgp._rates s) /\
            Rsum (dgp._rates s) = 1)
         (StronglySkewed.self (shared_after 1) :: table_classes)).
  { unfold table_classes.
    repeat (apply Forall_cons; [| ]); try apply Forall_nil;
      (split; [reflexivity |]);
      (split; [repeat constructor; simpl; lra |]);
      (split; [repeat constructor; simpl; lra |]);
      unfold Rsum; simpl; lra. }
  split; [exact H |].
  intros s mesh Hs.
  rewrite Forall_forall in H.
  destruct (H s Hs) as [Hlen [Hsd _]].
  apply table_facts; [exact Hlen | exact Hsd |].
  intros E; rewrite E in Hlen.
  cbn [In] in Hs; unfold table_classes in Hs; cbn [In] in Hs.
  repeat (destruct Hs as [<- | Hs]; [discriminate Hlen |]).
  exact Hs.
Qed.

Lemma tables_are_mixtures_witness :
  In Claw (StronglySkewed.self (shared_after 1) :: table_classes) /\
  Rsum (dgp._rates Claw) = 1 /\
  dgp._pdf Claw [0]
  = Found (Array [Fin (mixture (dgp._rates Claw) (dgp._inputs Claw) 0)]).
Proof.
  assert (Hin : In Claw (StronglySkewed.self (shared_after 1) :: table_classes))
    by (right; left; reflexivity).
  destruct tables_are_mixtures as [HF Hpdf].
  rewrite Forall_forall in HF.
  destruct (HF Claw Hin) as [_ [_ [_ Hsum]]].
  split; [exact Hin |]; split; [exact Hsum |].
  exact (Hpdf Claw [0] Hin).
Defined.
